(** * OctoCanvas: avatar raster filters, rarity tiers, contribution graph
      and export sizes

    A shallow embedding of the algorithmic parts of the OctoCanvas web
    application (ReadmeBanner.tsx, WallpaperGenerator.tsx, DevemonCard.tsx
    and GitHubWallpaperApp.tsx) and the properties its specification states
    about them.

    JavaScript numbers are IEEE 754 binary64 values; they are modelled by
    Rocq's primitive floats, whose operations are the same binary64
    operations.  Typed-array elements (Uint8ClampedArray) are integers in
    [0, 255], kept as [Z].  Strings produced by the filters only contain
    ASCII characters and are modelled by [string]; user input (the GitHub
    username) is an arbitrary sequence of UTF-16 code units. *)

From Stdlib Require Import ZArith List Bool Lia String Ascii Floats Uint63.
From stdpp Require Import base list.

Set Warnings "-inexact-float".

Open Scope bool_scope.
Open Scope Z_scope.

(* ===================================================================== *)
(** * JavaScript numbers *)
(* ===================================================================== *)

Module Num.

(** ** Integers as numbers *)

(** The number whose value is the integer [z] (exact for |z| < 2^53). *)
Definition of_Z (z : Z) : float :=
  if z <? 0 then PrimFloat.opp (PrimFloat.of_uint63 (Uint63.of_Z (- z)))
  else PrimFloat.of_uint63 (Uint63.of_Z z).

Definition of_nat (n : nat) : float := of_Z (Z.of_nat n).

(** The signed mantissa of a finite value [(-1)^s * m * 2^e]. *)
Definition signed (s : bool) (m : positive) : Z :=
  if s then Z.neg m else Z.pos m.

(** [Math.floor]: a finite value with a negative exponent is rounded
    towards minus infinity ([Z.shiftl] by a negative amount is the
    flooring division by a power of two); every other value (zeros,
    infinities, NaN, and values with a non-negative exponent, which are
    integers) is returned as it is. *)
Definition Math_floor (x : float) : float :=
  match Prim2SF x with
  | S754_finite s m e =>
      if 0 <=? e then x else of_Z (Z.shiftl (signed s m) e)
  | _ => x
  end.

(** The integer a number stands for when it is used as an array index:
    [Some i] when the value is a non-negative integer, [None] otherwise
    (the property lookup then finds nothing). *)
Definition array_index (x : float) : option Z :=
  match Prim2SF x with
  | S754_zero _ => Some 0
  | S754_finite false m e =>
      if 0 <=? e then Some (Z.shiftl (Z.pos m) e)
      else if Z.pos m mod 2 ^ (- e) =? 0 then Some (Z.shiftl (Z.pos m) e)
      else None
  | _ => None
  end.

(** [arr[i]] for a number [i]: [None] stands for [undefined]. *)
Definition array_get {A} (arr : list A) (i : float) : option A :=
  match array_index i with
  | Some z => if z <? Z.of_nat (length arr) then arr !! Z.to_nat z else None
  | None => None
  end.

(** [x || 0] for a number [x]: NaN and both zeros are falsy. *)
Definition or_zero (x : float) : float :=
  if PrimFloat.is_nan x || PrimFloat.is_zero x then 0%float else x.

(** The conversion applied when a number is stored into a
    Uint8ClampedArray (ECMAScript ToUint8Clamp): NaN becomes 0, the value
    is clamped to [0, 255] and rounded to the nearest integer, ties to
    even. *)
Definition toUint8Clamp (x : float) : Z :=
  if PrimFloat.is_nan x then 0
  else if PrimFloat.leb x 0 then 0
  else if PrimFloat.leb 255 x then 255
  else
    let f := Math_floor x in
    let fz := match array_index f with Some z => z | None => 0 end in
    let half := PrimFloat.add f 0.5 in
    if PrimFloat.ltb x half then fz
    else if PrimFloat.ltb half x then fz + 1
    else if Z.even fz then fz else fz + 1.

Definition option_Z_eqb (a b : option Z) : bool :=
  match a, b with
  | Some x, Some y => x =? y
  | None, None => true
  | _, _ => false
  end.

(** ** Examples *)

Example Math_floor_examples :
  Math_floor 68.99 = 68%float /\ Math_floor 2.5 = 2%float /\
  Math_floor 7 = 7%float /\ Math_floor (-0.5) = (-1)%float /\
  Math_floor 0.25 = 0%float.
Proof. repeat split; vm_compute; reflexivity. Qed.

Example array_index_examples :
  array_index 69 = Some 69 /\ array_index 2.5 = None /\
  array_index (-1) = None /\ array_index PrimFloat.nan = None.
Proof. repeat split; vm_compute; reflexivity. Qed.

Example toUint8Clamp_examples :
  map toUint8Clamp
    [0.5%float; 1.5%float; 2.5%float; 76.245%float; 254.5%float;
     300%float; (-3)%float; PrimFloat.nan]
  = [0; 2; 2; 76; 254; 255; 0; 0].
Proof. vm_compute. reflexivity. Qed.

(** ** Order of binary64 values

    The comparison operators of JavaScript are the IEEE comparisons
    [PrimFloat.leb] and [PrimFloat.ltb]; a comparison with NaN is false. *)

Ltac sf_destruct x := destruct x as [[]|[]| |[] ? ?].

Ltac cmp_cases :=
  repeat match goal with
  | H : context [Z.compare ?a ?b] |- _ => destruct (Z.compare_spec a b)
  | |- context [Z.compare ?a ?b] => destruct (Z.compare_spec a b)
  | H : context [Pos.compare_cont Eq ?a ?b] |- _ =>
      change (Pos.compare_cont Eq a b) with (Pos.compare a b) in *;
      destruct (Pos.compare_spec a b)
  | |- context [Pos.compare_cont Eq ?a ?b] =>
      change (Pos.compare_cont Eq a b) with (Pos.compare a b) in *;
      destruct (Pos.compare_spec a b)
  end.

Ltac sf_order :=
  cbn; intros; try congruence;
  cmp_cases; subst; cbn in *; try congruence; try lia.

Lemma SFleb_trans x y z :
  SFleb x y = true -> SFleb y z = true -> SFleb x z = true.
Proof.
  unfold SFleb. sf_destruct x; sf_destruct y; sf_destruct z; sf_order.
Qed.

Lemma SFleb_ltb_trans x y z :
  SFleb x y = true -> SFltb y z = true -> SFltb x z = true.
Proof.
  unfold SFleb, SFltb. sf_destruct x; sf_destruct y; sf_destruct z; sf_order.
Qed.

Lemma SFltb_leb x y : SFltb x y = true -> SFleb x y = true.
Proof.
  unfold SFleb, SFltb. destruct (SFcompare x y) as [[]|]; congruence.
Qed.

Lemma SFleb_refl_l x y : SFleb x y = true -> SFleb x x = true.
Proof.
  unfold SFleb. sf_destruct x; sf_destruct y; sf_order.
Qed.

Lemma SFleb_refl_r x y : SFleb x y = true -> SFleb y y = true.
Proof.
  unfold SFleb. sf_destruct x; sf_destruct y; sf_order.
Qed.

Lemma leb_trans (x y z : float) :
  PrimFloat.leb x y = true -> PrimFloat.leb y z = true ->
  PrimFloat.leb x z = true.
Proof. rewrite !FloatAxioms.leb_spec. apply SFleb_trans. Qed.

Lemma leb_ltb_trans (x y z : float) :
  PrimFloat.leb x y = true -> PrimFloat.ltb y z = true ->
  PrimFloat.ltb x z = true.
Proof. rewrite !FloatAxioms.leb_spec, !FloatAxioms.ltb_spec. apply SFleb_ltb_trans. Qed.

Lemma ltb_leb (x y : float) :
  PrimFloat.ltb x y = true -> PrimFloat.leb x y = true.
Proof. rewrite FloatAxioms.leb_spec, FloatAxioms.ltb_spec. apply SFltb_leb. Qed.

Lemma leb_refl_l (x y : float) :
  PrimFloat.leb x y = true -> PrimFloat.leb x x = true.
Proof. rewrite !FloatAxioms.leb_spec. apply SFleb_refl_l. Qed.

Lemma leb_refl_r (x y : float) :
  PrimFloat.leb x y = true -> PrimFloat.leb y y = true.
Proof. rewrite !FloatAxioms.leb_spec. apply SFleb_refl_r. Qed.

(** ** Facts about [Math_floor] and array indices *)

Lemma digits2_pos_bound (m : positive) :
  Z.pos m < 2 ^ Z.pos (digits2_pos m).
Proof.
  induction m as [p IH|p IH|]; cbn [digits2_pos].
  - rewrite Pos2Z.inj_succ, Z.pow_succ_r by lia. lia.
  - rewrite Pos2Z.inj_succ, Z.pow_succ_r by lia. lia.
  - reflexivity.
Qed.

(** The mantissa of a binary64 value has at most 53 bits. *)
Lemma valid_mantissa_bound (x : float) s m e :
  Prim2SF x = S754_finite s m e -> Z.pos m < 2 ^ 53.
Proof.
  intros E. pose proof (Prim2SF_valid x) as V. rewrite E in V.
  cbn [valid_binary] in V. unfold bounded, canonical_mantissa, fexp in V.
  apply andb_prop in V as [V _]. apply Z.eqb_eq in V.
  pose proof (digits2_pos_bound m) as D.
  assert (Z.pos (digits2_pos m) <= 53) as L by (unfold FloatOps.prec in V; lia).
  eapply Z.lt_le_trans; [exact D|].
  apply Z.pow_le_mono_r; lia.
Qed.

Lemma option_Z_eqb_eq a b : option_Z_eqb a b = true -> a = b.
Proof.
  destruct a, b; cbn; intros H; try discriminate; try reflexivity.
  apply Z.eqb_eq in H. congruence.
Qed.

(** Every integer below 70 is the index its number stands for. *)
Lemma array_index_of_Z_small (n : Z) :
  0 <= n < 70 -> array_index (of_Z n) = Some n.
Proof.
  intros Hn.
  assert (forallb (fun k => option_Z_eqb (array_index (of_Z k)) (Some k))
            (map Z.of_nat (seq 0 70)) = true) as H by (vm_compute; reflexivity).
  rewrite forallb_forall in H.
  apply option_Z_eqb_eq, H, in_map_iff.
  exists (Z.to_nat n). split; [lia|]. apply in_seq. lia.
Qed.

(** [Math.floor] of a number in the half-open interval from 0 to 70 is
    one of the integers 0..69, and indexes an array accordingly. *)
(** The finite positive values below 70, by exponent and mantissa. *)
Lemma SFltb_finite_70 (m : positive) (e : Z) :
  SFltb (S754_finite false m e)
        (S754_finite false 4925812092436480 (-46)) = true ->
  e < -46 \/ (e = -46 /\ Z.pos m < 4925812092436480).
Proof.
  cbv beta iota delta [SFltb SFcompare].
  destruct (Z.compare_spec e (-46)) as [He|He|He]; intros H.
  - right. split; [exact He|].
    apply Pos2Z.pos_lt_pos. unfold Pos.lt, Pos.compare.
    destruct (Pos.compare_cont Eq m 4925812092436480);
      [discriminate H|reflexivity|discriminate H].
  - left. exact He.
  - discriminate H.
Qed.

(** [Math.floor] of a number in the half-open interval from 0 to 70 is
    one of the integers 0..69, and indexes an array accordingly. *)
Lemma floor_index_below_70 (t : float) :
  PrimFloat.leb 0 t = true -> PrimFloat.ltb t 70 = true ->
  exists n, 0 <= n < 70 /\ array_index (Math_floor t) = Some n.
Proof.
  rewrite FloatAxioms.leb_spec, FloatAxioms.ltb_spec.
  change (Prim2SF 0) with (S754_zero false).
  change (Prim2SF 70) with (S754_finite false 4925812092436480 (-46)).
  unfold Math_floor, array_index.
  destruct (Prim2SF t) as [s|s| |s m e] eqn:E; intros H0 H70.
  - exists 0. rewrite E. split; [lia|reflexivity].
  - destruct s; [discriminate H0|discriminate H70].
  - discriminate H0.
  - destruct s; [discriminate H0|].
    apply SFltb_finite_70 in H70.
    pose proof (valid_mantissa_bound t _ _ _ E) as Hm.
    assert (e <= -46 /\ Z.pos m / 2 ^ (- e) < 70) as [He Hq].
    { destruct H70 as [He|[He Hlt]].
      - split; [lia|]. apply Z.div_lt_upper_bound; [lia|].
        assert (2 ^ 47 <= 2 ^ (- e)) by (apply Z.pow_le_mono_r; lia). lia.
      - assert (2 ^ (- e) = 70368744177664) as -> by (rewrite He; reflexivity).
        split; [lia|]. apply Z.div_lt_upper_bound; lia. }
    destruct (Z.leb_spec 0 e); [lia|].
    cbn [signed]. rewrite Z.shiftl_div_pow2 by lia.
    assert (0 <= Z.pos m / 2 ^ (- e)) by (apply Z.div_pos; lia).
    exists (Z.pos m / 2 ^ (- e)). split; [lia|].
    fold (array_index (of_Z (Z.pos m / 2 ^ (- e)))).
    apply array_index_of_Z_small. lia.
Qed.

End Num.

(* ===================================================================== *)
(** * Avatar raster filters (ReadmeBanner.tsx) *)
(* ===================================================================== *)

Module Raster.
Import Num.

(** ** Pixel buffers

    [getImageData(...).data] is a Uint8ClampedArray of RGBA bytes.  Reading
    past its end yields [undefined]; every read below is used as a number,
    where [undefined] is NaN.  Writing past its end does nothing. *)

Definition valid_channel (v : Z) : Prop := 0 <= v <= 255.

Definition read (pixels : list Z) (i : nat) : float :=
  match pixels !! i with
  | Some v => of_Z v
  | None => PrimFloat.nan
  end.

Definition write (pixels : list Z) (i : nat) (x : float) : list Z :=
  <[i := toUint8Clamp x]> pixels.

(** ** Luminosity

    [0.299 * r + 0.587 * g + 0.114 * b], the brightness of the ASCII filter
    and the gray level of the grayscale filter. *)
Definition luminosity (r g b : float) : float :=
  (0.299 * r + 0.587 * g + 0.114 * b)%float.

(** ** ASCII art: [generateAsciiArt], the body of [img.onload] *)

Definition width : nat := 60.
Definition height : nat := 40.

Definition quote_glyph : string := String (ascii_of_nat 34) EmptyString.
Definition backslash_glyph : string := String (ascii_of_nat 92) EmptyString.
Definition newline : string := String (ascii_of_nat 10) EmptyString.

(** The gradient of glyphs, from darkest to lightest. *)
Definition asciiChars : list string :=
  [ " "; "."; "'"; "`"; "^"; quote_glyph; ","; ":"; ";"; "I";
    "l"; "!"; "i"; ">"; "<"; "~"; "+"; "_"; "-"; "?";
    "]"; "["; "}"; "{"; "1"; ")"; "("; "|"; backslash_glyph; "/";
    "t"; "f"; "j"; "r"; "x"; "n"; "u"; "v"; "c"; "z";
    "X"; "Y"; "U"; "J"; "C"; "L"; "Q"; "0"; "O"; "Z";
    "m"; "w"; "q"; "p"; "d"; "b"; "k"; "h"; "a"; "o";
    "*"; "#"; "M"; "W"; "&"; "8"; "%"; "B"; "@"; "$" ]%string.

(** [Math.floor((brightness / 255) * (asciiChars.length - 1))] *)
Definition charIndex (brightness : float) : float :=
  Math_floor (brightness / 255 * (of_nat (length asciiChars) - 1))%float.

(** What [ascii += asciiChars[charIndex]] appends: the glyph, or the text
    of [undefined] when the lookup finds nothing. *)
Definition glyph_text (g : option string) : string :=
  match g with
  | Some c => c
  | None => "undefined"%string
  end.

(** The text appended for the cell in column [x] of row [y]. *)
Definition asciiCell (pixels : list Z) (x y : nat) : string :=
  let offset := ((y * width + x) * 4)%nat in
  let r := read pixels offset in
  let g := read pixels (offset + 1) in
  let b := read pixels (offset + 2) in
  let a := read pixels (offset + 3) in
  let brightness := luminosity r g b in
  if (a <? 128)%float then " "%string
  else glyph_text (array_get asciiChars (charIndex brightness)).

(** [for (let i = 0; i < n; i++) s = body i s] *)
Definition for_loop {S : Type} (n : nat) (body : nat -> S -> S) (s : S) : S :=
  fold_left (fun acc i => body i acc) (seq 0 n) s.

Definition asciiRow (pixels : list Z) (y : nat) (ascii : string) : string :=
  (for_loop width (fun x acc => acc ++ asciiCell pixels x y) ascii
     ++ newline)%string.

Definition asciiFromPixels (pixels : list Z) : string :=
  for_loop height (asciiRow pixels) EmptyString.

(** ** Grayscale: [generateGrayscaleArt], the loop over [imageData.data] *)

(** One iteration of the loop, at index [i] of the buffer. *)
Definition grayscaleStep (data : list Z) (i : nat) : list Z :=
  let gray := luminosity (read data i) (read data (i + 1)) (read data (i + 2)) in
  let data := write data i gray in
  let data := write data (i + 1) gray in
  write data (i + 2) gray.

(** [for (let i = 0; i < data.length; i += 4)]: [fuel] bounds the number of
    iterations. *)
Fixpoint grayscaleLoop (fuel : nat) (i : nat) (data : list Z) : list Z :=
  match fuel with
  | O => data
  | S fuel' =>
      if (i <? length data)%nat
      then grayscaleLoop fuel' (i + 4) (grayscaleStep data i)
      else data
  end.

(** The length of the buffer is enough fuel: the index grows at every
    iteration. *)
Definition grayscalePixels (data : list Z) : list Z :=
  grayscaleLoop (length data) 0 data.

(** ** The 256 channel values, and exhaustive checks over them *)

(** The numbers 0, 1, ..., 255. *)
Definition channel_floats : list float :=
  Eval vm_compute in (of_Z <$> seqZ 0 256).

(** [chain p f prev l]: the values of [f] along [l] never decrease,
    starting from [prev], and each satisfies [p]. *)
Fixpoint chain (p : float -> bool) (f : float -> float)
    (prev : float) (l : list float) : bool :=
  match l with
  | [] => true
  | x :: t =>
      let y := f x in
      PrimFloat.leb prev y && p y && chain p f y t
  end.

Definition monotone_on (p : float -> bool) (f : float -> float)
    (l : list float) : bool :=
  match l with
  | [] => true
  | x :: t =>
      let y := f x in
      PrimFloat.leb y y && p y && chain p f y t
  end.

(** The scaled brightness lies in the half-open interval from 0 to 70. *)
Definition glyph_range (v : float) : bool :=
  let t := (v / 255 * 69)%float in
  PrimFloat.leb 0 t && PrimFloat.ltb t 70.

Definition no_condition (v : float) : bool := true.

(** ** The character grid *)

Definition flatten (l : list string) : string :=
  fold_right String.append EmptyString l.

(** The glyphs of row [y], left to right. *)
Definition row_cells (pixels : list Z) (y : nat) : list string :=
  map (fun x => asciiCell pixels x y) (seq 0 width).

(** A pixel buffer of the 60 x 40 canvas: four bytes per pixel. *)
Definition grid_buffer (pixels : list Z) : Prop :=
  length pixels = (width * height * 4)%nat /\ Forall valid_channel pixels.

(** ** Examples *)

(** One white, one black, one half-transparent and one red pixel. *)
Example asciiCell_examples :
  asciiCell [255; 255; 255; 255] 0 0 = "$"%string /\
  asciiCell [0; 0; 0; 255] 0 0 = " "%string /\
  asciiCell [255; 255; 255; 127] 0 0 = " "%string /\
  asciiCell [255; 0; 0; 255] 0 0 = "]"%string.
Proof. repeat split; vm_compute; reflexivity. Qed.

(** Three pixels and an incomplete fourth one. *)
Example grayscalePixels_example :
  grayscalePixels [10; 20; 30; 40;  255; 0; 0; 7;  0; 0; 255; 9;  1; 2]
  = [18; 18; 18; 40;  76; 76; 76; 7;  29; 29; 29; 9;  0; 0].
Proof. vm_compute. reflexivity. Qed.

Lemma channel_floats_eq : channel_floats = of_Z <$> seqZ 0 256.
Proof. vm_compute. reflexivity. Qed.

Lemma channel_floats_lookup (v : Z) :
  valid_channel v -> channel_floats !! Z.to_nat v = Some (of_Z v).
Proof.
  intros [Hlo Hhi]. rewrite channel_floats_eq, list_lookup_fmap.
  rewrite lookup_seqZ_lt by lia. cbn. f_equal. f_equal. lia.
Qed.

Lemma channel_floats_In (v : Z) : valid_channel v -> In (of_Z v) channel_floats.
Proof.
  intros Hv. apply list_elem_of_In.
  eapply list_elem_of_lookup_2, channel_floats_lookup, Hv.
Qed.

Lemma chain_sound p f l : forall prev,
  chain p f prev l = true ->
  (forall i x, l !! i = Some x ->
     PrimFloat.leb prev (f x) = true /\ p (f x) = true) /\
  (forall i j x y, (i <= j)%nat -> l !! i = Some x -> l !! j = Some y ->
     PrimFloat.leb (f x) (f y) = true).
Proof.
  induction l as [|a l IH]; intros prev H.
  - split; intros; discriminate.
  - cbn in H. apply andb_prop in H as [H Hc]. apply andb_prop in H as [Hle Hp].
    destruct (IH _ Hc) as [IH1 IH2]. split.
    + intros [|i] x Hx; cbn in Hx.
      * injection Hx as <-. split; assumption.
      * destruct (IH1 _ _ Hx) as [Hax Hpx]. split; [|exact Hpx].
        eapply leb_trans; eassumption.
    + intros [|i] [|j] x y Hij Hx Hy; cbn in Hx, Hy.
      * injection Hx as <-. injection Hy as <-.
        eapply leb_refl_r; eassumption.
      * injection Hx as <-. apply (IH1 _ _ Hy).
      * lia.
      * apply (IH2 i j); [lia|assumption|assumption].
Qed.

Lemma monotone_on_sound p f l :
  monotone_on p f l = true ->
  (forall i x, l !! i = Some x -> p (f x) = true) /\
  (forall i j x y, (i <= j)%nat -> l !! i = Some x -> l !! j = Some y ->
     PrimFloat.leb (f x) (f y) = true).
Proof.
  destruct l as [|a l]; intros H.
  - split; intros; discriminate.
  - assert (chain p f (f a) (a :: l) = true) as Hc by exact H.
    destruct (chain_sound _ _ _ _ Hc) as [H1 H2]. split.
    + intros i x Hx. apply (H1 _ _ Hx).
    + exact H2.
Qed.

(** For all red and green values, luminosity never decreases along blue,
    and always selects a glyph position (checked over the 256^3 triples). *)
Lemma check_blue_ok :
  forallb (fun r =>
    let a := (0.299 * r)%float in
    forallb (fun g =>
      let s := (a + 0.587 * g)%float in
      monotone_on glyph_range (fun b => s + 0.114 * b)%float channel_floats)
    channel_floats) channel_floats = true.
Proof. vm_compute. reflexivity. Qed.

(** For all red and blue values, luminosity never decreases along green. *)
Lemma check_green_ok :
  forallb (fun r =>
    let a := (0.299 * r)%float in
    forallb (fun b =>
      let c := (0.114 * b)%float in
      monotone_on no_condition (fun g => a + 0.587 * g + c)%float channel_floats)
    channel_floats) channel_floats = true.
Proof. vm_compute. reflexivity. Qed.

(** For all green and blue values, luminosity never decreases along red. *)
Lemma check_red_ok :
  forallb (fun g =>
    let s := (0.587 * g)%float in
    forallb (fun b =>
      let c := (0.114 * b)%float in
      monotone_on no_condition (fun r => 0.299 * r + s + c)%float channel_floats)
    channel_floats) channel_floats = true.
Proof. vm_compute. reflexivity. Qed.

Lemma blue_chain r g :
  valid_channel r -> valid_channel g ->
  monotone_on glyph_range (fun b => luminosity (of_Z r) (of_Z g) b)
    channel_floats = true.
Proof.
  intros Hr Hg. pose proof check_blue_ok as H.
  rewrite forallb_forall in H. specialize (H _ (channel_floats_In _ Hr)).
  cbv zeta in H. rewrite forallb_forall in H.
  exact (H _ (channel_floats_In _ Hg)).
Qed.

Lemma green_chain r b :
  valid_channel r -> valid_channel b ->
  monotone_on no_condition (fun g => luminosity (of_Z r) g (of_Z b))
    channel_floats = true.
Proof.
  intros Hr Hb. pose proof check_green_ok as H.
  rewrite forallb_forall in H. specialize (H _ (channel_floats_In _ Hr)).
  cbv zeta in H. rewrite forallb_forall in H.
  exact (H _ (channel_floats_In _ Hb)).
Qed.

Lemma red_chain g b :
  valid_channel g -> valid_channel b ->
  monotone_on no_condition (fun r => luminosity r (of_Z g) (of_Z b))
    channel_floats = true.
Proof.
  intros Hg Hb. pose proof check_red_ok as H.
  rewrite forallb_forall in H. specialize (H _ (channel_floats_In _ Hg)).
  cbv zeta in H. rewrite forallb_forall in H.
  exact (H _ (channel_floats_In _ Hb)).
Qed.

Lemma luminosity_mono_red r r' g b :
  valid_channel r -> valid_channel r' -> valid_channel g -> valid_channel b ->
  r <= r' ->
  PrimFloat.leb (luminosity (of_Z r) (of_Z g) (of_Z b))
                (luminosity (of_Z r') (of_Z g) (of_Z b)) = true.
Proof.
  intros Hr Hr' Hg Hb Hle.
  destruct (monotone_on_sound _ _ _ (red_chain g b Hg Hb)) as [_ H].
  apply (H (Z.to_nat r) (Z.to_nat r')); [lia| |];
    apply channel_floats_lookup; assumption.
Qed.

Lemma luminosity_mono_green r g g' b :
  valid_channel r -> valid_channel g -> valid_channel g' -> valid_channel b ->
  g <= g' ->
  PrimFloat.leb (luminosity (of_Z r) (of_Z g) (of_Z b))
                (luminosity (of_Z r) (of_Z g') (of_Z b)) = true.
Proof.
  intros Hr Hg Hg' Hb Hle.
  destruct (monotone_on_sound _ _ _ (green_chain r b Hr Hb)) as [_ H].
  apply (H (Z.to_nat g) (Z.to_nat g')); [lia| |];
    apply channel_floats_lookup; assumption.
Qed.

Lemma luminosity_mono_blue r g b b' :
  valid_channel r -> valid_channel g -> valid_channel b -> valid_channel b' ->
  b <= b' ->
  PrimFloat.leb (luminosity (of_Z r) (of_Z g) (of_Z b))
                (luminosity (of_Z r) (of_Z g) (of_Z b')) = true.
Proof.
  intros Hr Hg Hb Hb' Hle.
  destruct (monotone_on_sound _ _ _ (blue_chain r g Hr Hg)) as [_ H].
  apply (H (Z.to_nat b) (Z.to_nat b')); [lia| |];
    apply channel_floats_lookup; assumption.
Qed.

Lemma luminosity_glyph_range r g b :
  valid_channel r -> valid_channel g -> valid_channel b ->
  glyph_range (luminosity (of_Z r) (of_Z g) (of_Z b)) = true.
Proof.
  intros Hr Hg Hb.
  destruct (monotone_on_sound _ _ _ (blue_chain r g Hr Hg)) as [H _].
  apply (H (Z.to_nat b)). apply channel_floats_lookup; assumption.
Qed.

(** ** Luminosity: range and monotonicity *)

(** C5: for every (R,G,B) triple with each channel in [0,255], the
    luminosity [0.299*R + 0.587*G + 0.114*B] computed by the filters is a
    number between 0 and 255, and it does not decrease when any one of the
    three channels increases. *)
Theorem luminosity_range_monotone (r g b : Z) :
  valid_channel r -> valid_channel g -> valid_channel b ->
  let l := luminosity (of_Z r) (of_Z g) (of_Z b) in
  PrimFloat.leb 0 l = true /\
  PrimFloat.leb l 255 = true /\
  (forall r', valid_channel r' -> r <= r' ->
     PrimFloat.leb l (luminosity (of_Z r') (of_Z g) (of_Z b)) = true) /\
  (forall g', valid_channel g' -> g <= g' ->
     PrimFloat.leb l (luminosity (of_Z r) (of_Z g') (of_Z b)) = true) /\
  (forall b', valid_channel b' -> b <= b' ->
     PrimFloat.leb l (luminosity (of_Z r) (of_Z g) (of_Z b')) = true).
Proof.
  intros Hr Hg Hb l. subst l.
  assert (valid_channel 0) as H0 by (unfold valid_channel; lia).
  assert (valid_channel 255) as H255 by (unfold valid_channel; lia).
  split; [|split; [|split; [|split]]].
  - (* 0 = lum 0 0 0 <= lum r 0 0 <= lum r g 0 <= lum r g b *)
    apply leb_trans with (luminosity (of_Z 0) (of_Z 0) (of_Z 0));
      [vm_compute; reflexivity|].
    apply leb_trans with (luminosity (of_Z r) (of_Z 0) (of_Z 0));
      [apply luminosity_mono_red; (assumption || apply Hr)|].
    apply leb_trans with (luminosity (of_Z r) (of_Z g) (of_Z 0));
      [apply luminosity_mono_green; (assumption || apply Hg)|].
    apply luminosity_mono_blue; (assumption || apply Hb).
  - (* lum r g b <= lum 255 g b <= lum 255 255 b <= lum 255 255 255 = 255 *)
    apply leb_trans with (luminosity (of_Z 255) (of_Z g) (of_Z b));
      [apply luminosity_mono_red; (assumption || apply Hr)|].
    apply leb_trans with (luminosity (of_Z 255) (of_Z 255) (of_Z b));
      [apply luminosity_mono_green; (assumption || apply Hg)|].
    apply leb_trans with (luminosity (of_Z 255) (of_Z 255) (of_Z 255));
      [apply luminosity_mono_blue; (assumption || apply Hb)|].
    vm_compute; reflexivity.
  - intros r' Hr' Hle. apply luminosity_mono_red; assumption.
  - intros g' Hg' Hle. apply luminosity_mono_green; assumption.
  - intros b' Hb' Hle. apply luminosity_mono_blue; assumption.
Qed.

Lemma luminosity_range_monotone_witness :
  PrimFloat.leb 0 (luminosity (of_Z 200) (of_Z 100) (of_Z 50)) = true /\
  PrimFloat.leb (luminosity (of_Z 200) (of_Z 100) (of_Z 50)) 255 = true /\
  PrimFloat.leb (luminosity (of_Z 200) (of_Z 100) (of_Z 50))
                (luminosity (of_Z 201) (of_Z 100) (of_Z 50)) = true.
Proof.
  assert (valid_channel 200) as Hr by (unfold valid_channel; lia).
  assert (valid_channel 100) as Hg by (unfold valid_channel; lia).
  assert (valid_channel 50) as Hb by (unfold valid_channel; lia).
  assert (valid_channel 201) as Hr' by (unfold valid_channel; lia).
  destruct (luminosity_range_monotone 200 100 50 Hr Hg Hb)
    as (H0 & H255 & Hred & _).
  split; [exact H0|]. split; [exact H255|].
  apply Hred; [exact Hr'|lia].
Defined.

(** ** ASCII art: cells *)

Lemma palette_top : (of_nat (length asciiChars) - 1)%float = 69%float.
Proof. vm_compute. reflexivity. Qed.

(** The alpha test [a < 128] on numbers agrees with the integers. *)
Lemma alpha_test (a : Z) :
  valid_channel a -> PrimFloat.ltb (of_Z a) 128 = (a <? 128).
Proof.
  intros [Hlo Hhi].
  assert (forallb (fun v => Bool.eqb (PrimFloat.ltb (of_Z v) 128) (v <? 128))
            (seqZ 0 256) = true) as H by (vm_compute; reflexivity).
  rewrite forallb_forall in H. apply Bool.eqb_prop, H.
  apply list_elem_of_In, elem_of_seqZ. lia.
Qed.

(** The glyph position of a valid colour is one of the 70 palette
    positions. *)
Lemma charIndex_range (r g b : Z) :
  valid_channel r -> valid_channel g -> valid_channel b ->
  exists n, 0 <= n < 70 /\
    array_index (charIndex (luminosity (of_Z r) (of_Z g) (of_Z b))) = Some n.
Proof.
  intros Hr Hg Hb.
  pose proof (luminosity_glyph_range r g b Hr Hg Hb) as H.
  unfold glyph_range in H. cbv zeta in H.
  apply andb_prop in H as [H0 H70].
  unfold charIndex. rewrite palette_top.
  apply floor_index_below_70; assumption.
Qed.

Lemma read_Some (pixels : list Z) (i : nat) (v : Z) :
  pixels !! i = Some v -> read pixels i = of_Z v.
Proof. intros H. unfold read. rewrite H. reflexivity. Qed.

(** The two cases of a cell, by its alpha. *)
Lemma asciiCell_cases (pixels : list Z) (x y : nat) (r g b a : Z) :
  let offset := ((y * width + x) * 4)%nat in
  pixels !! offset = Some r ->
  pixels !! (offset + 1)%nat = Some g ->
  pixels !! (offset + 2)%nat = Some b ->
  pixels !! (offset + 3)%nat = Some a ->
  valid_channel r -> valid_channel g -> valid_channel b -> valid_channel a ->
  let brightness := luminosity (of_Z r) (of_Z g) (of_Z b) in
  let N := length asciiChars in
  (128 <= a ->
     exists (n : Z) (glyph : string),
       array_index (Math_floor (brightness / 255 * (of_nat N - 1))%float) = Some n /\
       0 <= n < Z.of_nat N /\
       asciiChars !! Z.to_nat n = Some glyph /\
       asciiCell pixels x y = glyph) /\
  (a < 128 -> asciiCell pixels x y = " "%string).
Proof.
  intros offset Hpr Hpg Hpb Hpa Hr Hg Hb Ha brightness N.
  assert (asciiCell pixels x y =
            if PrimFloat.ltb (of_Z a) 128 then " "%string
            else glyph_text (array_get asciiChars (charIndex brightness))) as Hcell.
  { unfold asciiCell. fold offset.
    rewrite (read_Some _ _ _ Hpr), (read_Some _ _ _ Hpg),
      (read_Some _ _ _ Hpb), (read_Some _ _ _ Hpa). reflexivity. }
  rewrite (alpha_test a Ha) in Hcell.
  split.
  - intros Hopaque.
    destruct (Z.ltb_spec a 128) as [?|_]; [lia|].
    destruct (charIndex_range r g b Hr Hg Hb) as (n & Hn & Hidx).
    fold brightness in Hidx.
    assert (is_Some (asciiChars !! Z.to_nat n)) as [glyph Hglyph].
    { apply lookup_lt_is_Some_2. change (length asciiChars) with 70%nat. lia. }
    exists n, glyph.
    split; [|split; [|split]].
    + exact Hidx.
    + change (Z.of_nat N) with 70. exact Hn.
    + exact Hglyph.
    + rewrite Hcell. unfold array_get. rewrite Hidx.
      change (Z.of_nat (length asciiChars)) with 70.
      destruct (Z.ltb_spec n 70) as [_|?]; [|lia].
      rewrite Hglyph. reflexivity.
  - intros Htransparent.
    destruct (Z.ltb_spec a 128) as [_|?]; [|lia]. exact Hcell.
Qed.

(** C4: in the ASCII transform, a cell whose alpha is at least 128 (half
    of 255) is mapped to the glyph at position
    [floor(brightness / 255 * (N - 1))] of the fixed palette of N = 70
    glyphs, whose first glyph is selected by brightness 0 and whose last
    glyph is selected by brightness 255; a cell whose alpha is below 128 is
    mapped to a space whatever its colour. *)
Theorem ascii_cell_glyph (pixels : list Z) (x y : nat) (r g b a : Z) :
  let offset := ((y * width + x) * 4)%nat in
  pixels !! offset = Some r ->
  pixels !! (offset + 1)%nat = Some g ->
  pixels !! (offset + 2)%nat = Some b ->
  pixels !! (offset + 3)%nat = Some a ->
  valid_channel r -> valid_channel g -> valid_channel b -> valid_channel a ->
  let brightness := luminosity (of_Z r) (of_Z g) (of_Z b) in
  let N := length asciiChars in
  (128 <= a ->
     exists (n : Z) (glyph : string),
       array_index (Math_floor (brightness / 255 * (of_nat N - 1))%float) = Some n /\
       0 <= n < Z.of_nat N /\
       asciiChars !! Z.to_nat n = Some glyph /\
       asciiCell pixels x y = glyph) /\
  (a < 128 -> asciiCell pixels x y = " "%string) /\
  N = 70%nat /\
  charIndex 0 = 0%float /\ asciiChars !! 0%nat = Some " "%string /\
  charIndex 255 = 69%float /\ asciiChars !! 69%nat = Some "$"%string.
Proof.
  intros offset Hpr Hpg Hpb Hpa Hr Hg Hb Ha brightness N.
  destruct (asciiCell_cases pixels x y r g b a Hpr Hpg Hpb Hpa Hr Hg Hb Ha)
    as [Hopaque Htransparent].
  split; [exact Hopaque|]. split; [exact Htransparent|].
  split; [reflexivity|].
  split; [vm_compute; reflexivity|]. split; [reflexivity|].
  split; [vm_compute; reflexivity|]. reflexivity.
Qed.

Lemma ascii_cell_glyph_witness :
  (exists (n : Z) (glyph : string),
     array_index (Math_floor (luminosity (of_Z 200) (of_Z 100) (of_Z 50) / 255
                              * (of_nat (length asciiChars) - 1))%float) = Some n /\
     0 <= n < Z.of_nat (length asciiChars) /\
     asciiChars !! Z.to_nat n = Some glyph /\
     asciiCell [200; 100; 50; 255] 0 0 = glyph) /\
  (exists (n : Z) (glyph : string),
     asciiChars !! Z.to_nat n = Some glyph /\
     asciiCell [200; 100; 50; 128] 0 0 = glyph) /\
  asciiCell [200; 100; 50; 127] 0 0 = " "%string.
Proof.
  assert (valid_channel 200 /\ valid_channel 100 /\ valid_channel 50 /\
          valid_channel 255 /\ valid_channel 128 /\ valid_channel 127)
    as (H200 & H100 & H50 & H255 & H128 & H127)
    by (unfold valid_channel; lia).
  split; [|split].
  - destruct (ascii_cell_glyph [200; 100; 50; 255] 0 0 200 100 50 255
                eq_refl eq_refl eq_refl eq_refl H200 H100 H50 H255)
      as (Hopaque & _).
    apply Hopaque. lia.
  - destruct (ascii_cell_glyph [200; 100; 50; 128] 0 0 200 100 50 128
                eq_refl eq_refl eq_refl eq_refl H200 H100 H50 H128)
      as (Hopaque & _).
    destruct Hopaque as (n & glyph & _ & _ & Hg & Hc); [lia|].
    exists n, glyph. split; assumption.
  - destruct (ascii_cell_glyph [200; 100; 50; 127] 0 0 200 100 50 127
                eq_refl eq_refl eq_refl eq_refl H200 H100 H50 H127)
      as (_ & Htransparent & _).
    apply Htransparent. lia.
Defined.

(** ** ASCII art: the character grid *)

Lemma append_assoc (a b c : string) :
  ((a ++ b) ++ c = a ++ (b ++ c))%string.
Proof. induction a as [|ch a IH]; cbn; [reflexivity|]. rewrite IH. reflexivity. Qed.

Lemma append_empty_r (a : string) : (a ++ EmptyString)%string = a.
Proof. induction a as [|ch a IH]; cbn; [reflexivity|]. rewrite IH. reflexivity. Qed.

Lemma length_append (a b : string) :
  String.length (a ++ b) = (String.length a + String.length b)%nat.
Proof. induction a as [|ch a IH]; cbn; [reflexivity|]. rewrite IH. reflexivity. Qed.

Lemma fold_left_append {A} (f : A -> string) (l : list A) (s : string) :
  fold_left (fun acc i => (acc ++ f i)%string) l s = (s ++ flatten (map f l))%string.
Proof.
  revert s. induction l as [|a l IH]; intros s; cbn.
  - rewrite append_empty_r. reflexivity.
  - rewrite IH, append_assoc. reflexivity.
Qed.

Lemma fold_left_ext {A B} (f g : A -> B -> A) (l : list B) (a : A) :
  (forall x y, f x y = g x y) -> fold_left f l a = fold_left g l a.
Proof.
  intros H. revert a. induction l as [|b l IH]; intros a; cbn; [reflexivity|].
  rewrite H. apply IH.
Qed.

Lemma asciiRow_eq (pixels : list Z) (y : nat) (ascii : string) :
  asciiRow pixels y ascii
  = (ascii ++ (flatten (row_cells pixels y) ++ newline))%string.
Proof.
  unfold asciiRow, for_loop, row_cells.
  rewrite fold_left_append, append_assoc. reflexivity.
Qed.

Lemma asciiFromPixels_eq (pixels : list Z) :
  asciiFromPixels pixels
  = flatten (map (fun y => (flatten (row_cells pixels y) ++ newline)%string)
               (seq 0 height)).
Proof.
  unfold asciiFromPixels, for_loop.
  rewrite (fold_left_ext _ (fun acc y =>
             (acc ++ (flatten (row_cells pixels y) ++ newline))%string)).
  - rewrite fold_left_append. reflexivity.
  - intros acc y. apply asciiRow_eq.
Qed.

Lemma length_flatten_uniform (k : nat) (l : list string) :
  Forall (fun c => String.length c = k) l ->
  String.length (flatten l) = (k * length l)%nat.
Proof.
  induction 1 as [|c l Hc _ IH]; [cbn; lia|].
  change (flatten (c :: l)) with (c ++ flatten l)%string.
  rewrite length_append, Hc, IH. cbn [length]. lia.
Qed.

Lemma glyph_length (c : string) : In c asciiChars -> String.length c = 1%nat.
Proof.
  assert (forallb (fun c => Nat.eqb (String.length c) 1) asciiChars = true) as H
    by reflexivity.
  rewrite forallb_forall in H. intros Hc. apply Nat.eqb_eq, H, Hc.
Qed.

Lemma newline_not_glyph : ~ In newline asciiChars.
Proof.
  assert (forallb (fun c => negb (String.eqb c newline)) asciiChars = true) as H
    by reflexivity.
  rewrite forallb_forall in H. intros Hin. specialize (H _ Hin).
  rewrite String.eqb_refl in H. discriminate H.
Qed.

(** Every cell of a grid buffer is drawn with a glyph of the palette. *)
Lemma asciiCell_glyph_In (pixels : list Z) (x y : nat) :
  grid_buffer pixels -> (x < width)%nat -> (y < height)%nat ->
  In (asciiCell pixels x y) asciiChars.
Proof.
  intros [Hlen Hall] Hx Hy. unfold width, height in *.
  set (offset := ((y * 60 + x) * 4)%nat).
  assert (offset + 3 < length pixels)%nat as Hoff by (subst offset; lia).
  destruct (lookup_lt_is_Some_2 pixels offset) as [r Hr]; [lia|].
  destruct (lookup_lt_is_Some_2 pixels (offset + 1)) as [g Hg]; [lia|].
  destruct (lookup_lt_is_Some_2 pixels (offset + 2)) as [b Hb]; [lia|].
  destruct (lookup_lt_is_Some_2 pixels (offset + 3)) as [a Ha]; [lia|].
  rewrite Forall_lookup in Hall.
  destruct (asciiCell_cases pixels x y r g b a Hr Hg Hb Ha
              (Hall _ _ Hr) (Hall _ _ Hg) (Hall _ _ Hb) (Hall _ _ Ha))
    as (Hopaque & Htransparent).
  destruct (Z.lt_ge_cases a 128) as [Hlt|Hge].
  - rewrite (Htransparent Hlt). left. reflexivity.
  - destruct (Hopaque Hge) as (n & glyph & _ & _ & Hglyph & ->).
    apply list_elem_of_In. eapply list_elem_of_lookup_2, Hglyph.
Qed.

Lemma row_cells_glyphs (pixels : list Z) (y : nat) :
  grid_buffer pixels -> (y < height)%nat ->
  length (row_cells pixels y) = width /\
  Forall (fun c => In c asciiChars) (row_cells pixels y).
Proof.
  intros Hbuf Hy. unfold row_cells. split.
  - rewrite length_map, length_seq. reflexivity.
  - apply Forall_forall. intros c Hc.
    apply list_elem_of_In, in_map_iff in Hc as (x & <- & Hx).
    apply in_seq in Hx. apply asciiCell_glyph_In; [assumption|lia|assumption].
Qed.

Lemma length_row_text (pixels : list Z) (y : nat) :
  grid_buffer pixels -> (y < height)%nat ->
  String.length (flatten (row_cells pixels y) ++ newline) = (width + 1)%nat.
Proof.
  intros Hbuf Hy. destruct (row_cells_glyphs pixels y Hbuf Hy) as [Hlen Hall].
  rewrite length_append, (length_flatten_uniform 1), Hlen; [cbn; lia|].
  eapply Forall_impl; [exact Hall|]. intros c Hc. apply glyph_length, Hc.
Qed.

(** C6: for every pixel buffer of the 60 x 40 grid, the text produced by
    the ASCII transform is made of 40 rows, each of exactly 60 palette
    glyphs followed by one newline (2400 glyphs and 40 newlines, 2440
    characters in all; a glyph is one character and never a newline), and
    the same pixels always give the same text. *)
Theorem ascii_grid_shape (pixels : list Z) :
  grid_buffer pixels ->
  let rows := map (row_cells pixels) (seq 0 height) in
  length rows = 40%nat /\
  Forall (fun row => length row = 60%nat /\
                     Forall (fun c => In c asciiChars) row) rows /\
  asciiFromPixels pixels
    = flatten (map (fun row => (flatten row ++ newline)%string) rows) /\
  String.length (asciiFromPixels pixels) = (40 * 60 + 40)%nat /\
  Forall (fun c => String.length c = 1%nat) asciiChars /\
  ~ In newline asciiChars /\
  (forall pixels', pixels' = pixels ->
     asciiFromPixels pixels' = asciiFromPixels pixels).
Proof.
  intros Hbuf rows. subst rows.
  split; [|split; [|split; [|split; [|split; [|split]]]]].
  - rewrite length_map, length_seq. reflexivity.
  - apply Forall_forall. intros row Hrow.
    apply list_elem_of_In, in_map_iff in Hrow as (y & <- & Hy).
    apply in_seq in Hy. apply row_cells_glyphs; [assumption|lia].
  - rewrite asciiFromPixels_eq, map_map. reflexivity.
  - rewrite asciiFromPixels_eq, (length_flatten_uniform (width + 1)).
    + rewrite length_map, length_seq. reflexivity.
    + apply Forall_forall. intros t Ht.
      apply list_elem_of_In, in_map_iff in Ht as (y & <- & Hy).
      apply in_seq in Hy. apply length_row_text; [assumption|lia].
  - apply Forall_forall. intros c Hc. apply glyph_length, list_elem_of_In, Hc.
  - exact newline_not_glyph.
  - intros pixels' ->. reflexivity.
Qed.

Lemma ascii_grid_shape_witness :
  String.length (asciiFromPixels (replicate (width * height * 4) 200))
  = (40 * 60 + 40)%nat.
Proof.
  assert (grid_buffer (replicate (width * height * 4) 200)) as Hbuf.
  { split; [apply length_replicate|].
    apply Forall_replicate. unfold valid_channel. lia. }
  destruct (ascii_grid_shape _ Hbuf) as (_ & _ & _ & Hlen & _).
  exact Hlen.
Defined.

(** ** Grayscale: the loop over the buffer *)

Lemma length_write (data : list Z) (i : nat) (x : float) :
  length (write data i x) = length data.
Proof. apply length_insert. Qed.

Lemma length_grayscaleStep (data : list Z) (i : nat) :
  length (grayscaleStep data i) = length data.
Proof. unfold grayscaleStep. rewrite !length_write. reflexivity. Qed.

(** An iteration only writes the three colour bytes at [i], [i+1], [i+2]. *)
Lemma grayscaleStep_other (data : list Z) (i j : nat) :
  j <> i -> j <> (i + 1)%nat -> j <> (i + 2)%nat ->
  grayscaleStep data i !! j = data !! j.
Proof.
  intros H0 H1 H2. unfold grayscaleStep, write.
  rewrite !list_lookup_insert_ne by lia. reflexivity.
Qed.

Lemma grayscaleStep_colour (data : list Z) (i c : nat) (r g b : Z) :
  data !! i = Some r -> data !! (i + 1)%nat = Some g ->
  data !! (i + 2)%nat = Some b -> (c < 3)%nat ->
  grayscaleStep data i !! (i + c)%nat
  = Some (toUint8Clamp (luminosity (of_Z r) (of_Z g) (of_Z b))).
Proof.
  intros Hr Hg Hb Hc. unfold grayscaleStep.
  rewrite (read_Some _ _ _ Hr), (read_Some _ _ _ Hg), (read_Some _ _ _ Hb).
  apply lookup_lt_Some in Hb. unfold write.
  destruct c as [|[|[|c]]]; [| | |lia].
  - rewrite Nat.add_0_r, !list_lookup_insert_ne by lia.
    apply list_lookup_insert_eq. lia.
  - rewrite list_lookup_insert_ne by lia.
    apply list_lookup_insert_eq. rewrite length_insert. lia.
  - apply list_lookup_insert_eq. rewrite !length_insert. lia.
Qed.

Lemma length_grayscaleLoop (fuel i : nat) (data : list Z) :
  length (grayscaleLoop fuel i data) = length data.
Proof.
  revert i data. induction fuel as [|fuel IH]; intros i data; cbn [grayscaleLoop]; [reflexivity|].
  destruct (i <? length data)%nat; [|reflexivity].
  rewrite IH. apply length_grayscaleStep.
Qed.

(** The loop started at index [i] leaves everything below [i] alone. *)
Lemma grayscaleLoop_below (fuel i j : nat) (data : list Z) :
  (j < i)%nat -> grayscaleLoop fuel i data !! j = data !! j.
Proof.
  revert i data. induction fuel as [|fuel IH]; intros i data Hj; cbn [grayscaleLoop]; [reflexivity|].
  destruct (i <? length data)%nat; [|reflexivity].
  rewrite IH by lia. apply grayscaleStep_other; lia.
Qed.

(** The loop never writes an alpha byte. *)
Lemma grayscaleLoop_alpha (fuel i j : nat) (data : list Z) :
  (i mod 4 = 0)%nat -> (j mod 4 = 3)%nat ->
  grayscaleLoop fuel i data !! j = data !! j.
Proof.
  revert i data. induction fuel as [|fuel IH]; intros i data Hi Hj; cbn [grayscaleLoop]; [reflexivity|].
  destruct (i <? length data)%nat; [|reflexivity].
  rewrite IH; [|rewrite <- Nat.Div0.add_mod_idemp_l, Hi; reflexivity|assumption].
  apply grayscaleStep_other; intros ->.
  - lia.
  - rewrite <- Nat.Div0.add_mod_idemp_l, Hi in Hj. discriminate Hj.
  - rewrite <- Nat.Div0.add_mod_idemp_l, Hi in Hj. discriminate Hj.
Qed.

(** With enough fuel, the loop started at [i] grays every pixel from [i]
    on. *)
Lemma grayscaleLoop_colour (fuel i k c : nat) (data : list Z) (r g b : Z) :
  (i mod 4 = 0)%nat -> (i <= 4 * k)%nat ->
  (length data <= i + 4 * fuel)%nat ->
  data !! (4 * k)%nat = Some r -> data !! (4 * k + 1)%nat = Some g ->
  data !! (4 * k + 2)%nat = Some b -> (c < 3)%nat ->
  grayscaleLoop fuel i data !! (4 * k + c)%nat
  = Some (toUint8Clamp (luminosity (of_Z r) (of_Z g) (of_Z b))).
Proof.
  revert i data.
  induction fuel as [|fuel IH]; intros i data Hi Hik Hfuel Hr Hg Hb Hc.
  - apply lookup_lt_Some in Hb. lia.
  - cbn [grayscaleLoop].
    pose proof (lookup_lt_Some _ _ _ Hb) as Hlen.
    destruct (Nat.ltb_spec i (length data)) as [_|?]; [|lia].
    destruct (Nat.eq_dec i (4 * k)%nat) as [->|Hne].
    + rewrite grayscaleLoop_below by lia.
      apply grayscaleStep_colour; assumption.
    + assert (i + 4 <= 4 * k)%nat as Hnext.
      { assert (i mod 4 = (4 * k) mod 4)%nat as Hm
          by (rewrite Hi, Nat.mul_comm, Nat.Div0.mod_mul; reflexivity).
        pose proof (Nat.div_mod_eq i 4) as Hdi. lia. }
      apply IH.
      * rewrite <- Nat.Div0.add_mod_idemp_l, Hi. reflexivity.
      * exact Hnext.
      * rewrite length_grayscaleStep. lia.
      * rewrite grayscaleStep_other by lia. exact Hr.
      * rewrite grayscaleStep_other by lia. exact Hg.
      * rewrite grayscaleStep_other by lia. exact Hb.
      * exact Hc.
Qed.

(** Once the index has reached the end, more fuel changes nothing. *)
Lemma grayscaleLoop_fuel (fuel extra i : nat) (data : list Z) :
  (length data <= i + 4 * fuel)%nat ->
  grayscaleLoop (fuel + extra) i data = grayscaleLoop fuel i data.
Proof.
  revert i data. induction fuel as [|fuel IH]; intros i data Hfuel.
  - destruct extra as [|extra]; [reflexivity|]. cbn [Nat.add grayscaleLoop].
    destruct (Nat.ltb_spec i (length data)) as [?|_]; [lia|reflexivity].
  - cbn [Nat.add grayscaleLoop].
    destruct (Nat.ltb_spec i (length data)) as [_|_]; [|reflexivity].
    apply IH. rewrite length_grayscaleStep. lia.
Qed.

(** C10: the grayscale transform only rewrites the R, G and B bytes of a
    pixel, all three with the luminosity of the pixel's original colour
    (as stored into the byte array), and leaves the alpha byte of every
    pixel, and the length of the buffer, unchanged; the loop ends by its
    own test (more iterations allowed change nothing). *)
Theorem grayscale_keeps_alpha (data : list Z) :
  (forall extra, grayscaleLoop (length data + extra) 0 data = grayscalePixels data) /\
  length (grayscalePixels data) = length data /\
  (forall j, (j mod 4 = 3)%nat -> grayscalePixels data !! j = data !! j) /\
  (forall k r g b,
     data !! (4 * k)%nat = Some r ->
     data !! (4 * k + 1)%nat = Some g ->
     data !! (4 * k + 2)%nat = Some b ->
     let gray := toUint8Clamp (luminosity (of_Z r) (of_Z g) (of_Z b)) in
     grayscalePixels data !! (4 * k)%nat = Some gray /\
     grayscalePixels data !! (4 * k + 1)%nat = Some gray /\
     grayscalePixels data !! (4 * k + 2)%nat = Some gray).
Proof.
  unfold grayscalePixels. split; [|split; [|split]].
  - intros extra. apply grayscaleLoop_fuel. lia.
  - apply length_grayscaleLoop.
  - intros j Hj. apply grayscaleLoop_alpha; [reflexivity|assumption].
  - intros k r g b Hr Hg Hb. cbv zeta.
    assert (forall c, (c < 3)%nat ->
              grayscaleLoop (length data) 0 data !! (4 * k + c)%nat
              = Some (toUint8Clamp (luminosity (of_Z r) (of_Z g) (of_Z b)))) as H.
    { intros c Hc. apply grayscaleLoop_colour; try assumption; try lia.
      reflexivity. }
    split; [|split].
    + rewrite <- (Nat.add_0_r (4 * k)). apply H. lia.
    + apply H. lia.
    + apply H. lia.
Qed.

End Raster.

(* ===================================================================== *)
(** * The application shell (GitHubWallpaperApp.tsx) *)
(* ===================================================================== *)

Module App.
Import Num.

(** ** Profile data *)

(** A day of the contribution calendar.  [contributionCount] is a JSON
    number; a missing count is [undefined], which every comparison below
    treats as NaN. *)
Record ContributionDay := {
  contributionCount : float;
  date : string
}.

(** A week of the calendar.  The renderer guards against a missing
    [contributionDays] array ([?.]) and against missing entries ([!day]):
    [None] stands for [undefined] in both places. *)
Record Week := {
  contributionDays : option (list (option ContributionDay))
}.

Record ContributionData := {
  totalContributions : float;
  weeks : list Week
}.

(** The fields of [GitHubUser] that the models below read. *)
Record GitHubUser := {
  login : string;
  avatar_url : string;
  followers : float;
  public_repos : float;
  contributions : option ContributionData
}.

(** ** Username normalization

    A JavaScript string is a sequence of UTF-16 code units. *)
Definition code_unit := N.
Definition jsstring := list code_unit.

Definition of_ascii (s : string) : jsstring :=
  map (fun c => N_of_ascii c) (list_ascii_of_string s).

(** White space and line terminators, as [String.prototype.trim] removes
    them. *)
Definition is_white_space (c : code_unit) : bool :=
  ((9 <=? c) && (c <=? 13) || (c =? 32) || (c =? 160) || (c =? 5760)
   || (8192 <=? c) && (c <=? 8202) || (c =? 8232) || (c =? 8233)
   || (c =? 8239) || (c =? 8287) || (c =? 12288) || (c =? 65279))%N.

Fixpoint trimStart (s : jsstring) : jsstring :=
  match s with
  | c :: t => if is_white_space c then trimStart t else s
  | [] => []
  end.

Definition trimEnd (s : jsstring) : jsstring := rev (trimStart (rev s)).

Definition trim (s : jsstring) : jsstring := trimEnd (trimStart s).

Definition at_sign : code_unit := 64%N.

(** [s.replace(/^@/, "")]: drops one leading at-sign. *)
Definition strip_at (s : jsstring) : jsstring :=
  match s with
  | c :: t => if (c =? at_sign)%N then t else s
  | [] => []
  end.

(** [username.replace(/^@/, "").trim()] *)
Definition getCleanUsername (username : jsstring) : jsstring :=
  trim (strip_at username).

(** The request that [fetchGitHubUser] sends for the text of the input
    field: none when the clean name is empty, else the profile URL. *)
Definition profileRequest (username : jsstring) : option jsstring :=
  let cleanUsername := getCleanUsername username in
  match cleanUsername with
  | [] => None
  | _ => Some (of_ascii "https://api.github.com/users/" ++ cleanUsername)
  end.

Definition starts_with_at (s : jsstring) : bool :=
  match s with
  | c :: _ => (c =? at_sign)%N
  | [] => false
  end.

(** ** Examples *)

Example getCleanUsername_examples :
  getCleanUsername (of_ascii "@octocat ") = of_ascii "octocat" /\
  getCleanUsername (of_ascii "  octo cat  ") = of_ascii "octo cat" /\
  getCleanUsername (of_ascii "@@octocat") = of_ascii "@octocat" /\
  profileRequest (of_ascii "@") = None /\
  profileRequest (of_ascii "@octocat")
  = Some (of_ascii "https://api.github.com/users/octocat").
Proof. repeat split; vm_compute; reflexivity. Qed.

(** ** Facts about trimming *)

Lemma trimStart_idem (s : jsstring) : trimStart (trimStart s) = trimStart s.
Proof.
  induction s as [|c t IH]; cbn; [reflexivity|].
  destruct (is_white_space c) eqn:E; [exact IH|].
  cbn. rewrite E. reflexivity.
Qed.

(** Trimming the start of [a ++ b] when [a] keeps a character. *)
Lemma trimStart_app (a b : jsstring) :
  trimStart a <> [] -> trimStart (a ++ b) = trimStart a ++ b.
Proof.
  induction a as [|c t IH]; cbn; [congruence|].
  destruct (is_white_space c); [exact IH|reflexivity].
Qed.

Lemma trimStart_all_space (a : jsstring) :
  trimStart a = [] -> forall b, trimStart (a ++ b) = trimStart b.
Proof.
  induction a as [|c t IH]; cbn; [reflexivity|].
  destruct (is_white_space c); [exact IH|discriminate].
Qed.

Lemma trimEnd_idem (s : jsstring) : trimEnd (trimEnd s) = trimEnd s.
Proof. unfold trimEnd. rewrite rev_involutive, trimStart_idem. reflexivity. Qed.

(** Trimming the end keeps a first character that is not white space. *)
Lemma trimEnd_cons (c : code_unit) (t : jsstring) :
  is_white_space c = false -> trimEnd (c :: t) = c :: trimEnd t.
Proof.
  intros Hc. unfold trimEnd. cbn [rev].
  destruct (trimStart (rev t)) as [|d u] eqn:E.
  - rewrite (trimStart_all_space _ E). cbn. rewrite Hc. reflexivity.
  - rewrite trimStart_app by congruence. rewrite E, rev_app_distr. reflexivity.
Qed.

Lemma trimStart_trimEnd (s : jsstring) :
  trimStart (trimEnd (trimStart s)) = trimEnd (trimStart s).
Proof.
  induction s as [|c t IH]; [reflexivity|]. cbn [trimStart].
  destruct (is_white_space c) eqn:E; [exact IH|].
  rewrite trimEnd_cons by exact E. cbn. rewrite E. reflexivity.
Qed.

Lemma trim_idem (s : jsstring) : trim (trim s) = trim s.
Proof. unfold trim. rewrite trimStart_trimEnd, trimEnd_idem. reflexivity. Qed.

Lemma strip_at_id (s : jsstring) : starts_with_at s = false -> strip_at s = s.
Proof. destruct s as [|c t]; cbn; [reflexivity|]. intros ->. reflexivity. Qed.

(** ** Normalizing twice *)

(** C9, as stated, fails: normalizing ["@@octocat"] gives ["@octocat"],
    and normalizing that again gives ["octocat"], so the two profile
    requests differ. *)
Lemma getCleanUsername_not_idempotent :
  ~ (forall username : jsstring,
       getCleanUsername (getCleanUsername username) = getCleanUsername username /\
       profileRequest (getCleanUsername username) = profileRequest username).
Proof.
  intros H. destruct (H (of_ascii "@@octocat")) as [H1 _].
  vm_compute in H1. discriminate H1.
Qed.

(** C9, amended: when the normalized username does not itself begin with
    an at-sign, normalizing it again changes nothing, and the profile
    request built from the once-normalized name is the one built from the
    input. *)
Theorem getCleanUsername_idempotent (username : jsstring) :
  starts_with_at (getCleanUsername username) = false ->
  getCleanUsername (getCleanUsername username) = getCleanUsername username /\
  profileRequest (getCleanUsername username) = profileRequest username.
Proof.
  intros Hat.
  assert (getCleanUsername (getCleanUsername username)
          = getCleanUsername username) as Hidem.
  { unfold getCleanUsername at 1. rewrite (strip_at_id _ Hat).
    unfold getCleanUsername. apply trim_idem. }
  split; [exact Hidem|].
  unfold profileRequest. cbv zeta. rewrite Hidem. reflexivity.
Qed.

Lemma getCleanUsername_idempotent_witness :
  getCleanUsername (getCleanUsername (of_ascii "@octocat "))
  = getCleanUsername (of_ascii "@octocat ") /\
  profileRequest (getCleanUsername (of_ascii "@octocat "))
  = profileRequest (of_ascii "@octocat ").
Proof.
  apply (getCleanUsername_idempotent (of_ascii "@octocat ")).
  vm_compute. reflexivity.
Defined.

End App.

(* ===================================================================== *)
(** * Devemon card (DevemonCard.tsx) *)
(* ===================================================================== *)

Module Devemon.
Import Num App.

(** The keys of [RARITY_LEVELS], lowest tier first. *)
Inductive Rarity := common | uncommon | rare | epic | legendary | mythical.

Definition rank (r : Rarity) : nat :=
  match r with
  | common => 0
  | uncommon => 1
  | rare => 2
  | epic => 3
  | legendary => 4
  | mythical => 5
  end.

Record ExtendedStats := {
  totalStars : float;
  totalForks : float;
  topLanguages : list string
}.

(** [user.contributions?.totalContributions || 0] *)
Definition contributionTotal (user : GitHubUser) : float :=
  match contributions user with
  | Some c => or_zero (totalContributions c)
  | None => 0%float
  end.

(** The power level computed by [calculateRarity]. *)
Definition powerLevel (user : GitHubUser) (extendedStats : ExtendedStats) : float :=
  (followers user * 2
   + public_repos user * 1
   + contributionTotal user * 0.1
   + totalStars extendedStats * 3
   + totalForks extendedStats * 2)%float.

(** The chain of threshold tests of [calculateRarity];
    [powerLevel >= c] is the comparison [c <= powerLevel]. *)
Definition rarityOf (powerLevel : float) : Rarity :=
  if PrimFloat.leb 5000 powerLevel then mythical
  else if PrimFloat.leb 2000 powerLevel then legendary
  else if PrimFloat.leb 800 powerLevel then epic
  else if PrimFloat.leb 300 powerLevel then rare
  else if PrimFloat.leb 100 powerLevel then uncommon
  else common.

Definition calculateRarity (user : GitHubUser) (extendedStats : ExtendedStats)
  : Rarity :=
  rarityOf (powerLevel user extendedStats).

(** A profile for examples: [f] followers, [r] repositories, [c]
    contributions, no stars and no forks. *)
Definition profile (f r c : Z) : GitHubUser :=
  {| login := "octocat"; avatar_url := "";
     followers := of_Z f; public_repos := of_Z r;
     contributions := Some {| totalContributions := of_Z c; weeks := [] |} |}.

Definition no_stats : ExtendedStats :=
  {| totalStars := 0; totalForks := 0; topLanguages := [] |}.

(** ** Monotonicity of the tiers *)

Lemma rarityOf_monotone (p q : float) :
  PrimFloat.ltb p q = true -> (rank (rarityOf p) <= rank (rarityOf q))%nat.
Proof.
  intros Hlt.
  assert (forall c, PrimFloat.leb c p = true -> PrimFloat.leb c q = true) as Hup.
  { intros c Hc. eapply leb_trans; [exact Hc|]. apply ltb_leb, Hlt. }
  unfold rarityOf.
  destruct (PrimFloat.leb 5000 p) eqn:E5; [rewrite ?(Hup _ E5)|];
  (destruct (PrimFloat.leb 2000 p) eqn:E4; [rewrite ?(Hup _ E4)|]);
  (destruct (PrimFloat.leb 800 p) eqn:E3; [rewrite ?(Hup _ E3)|]);
  (destruct (PrimFloat.leb 300 p) eqn:E2; [rewrite ?(Hup _ E2)|]);
  (destruct (PrimFloat.leb 100 p) eqn:E1; [rewrite ?(Hup _ E1)|]);
  repeat match goal with
         | |- context [PrimFloat.leb ?c q] => destruct (PrimFloat.leb c q)
         end;
  cbn; lia.
Qed.

(** C3: the rarity tier is monotonic in the computed power level: for any
    two profiles, a strictly higher power level never gives a strictly
    lower tier; and a power level exactly on a boundary belongs to the
    tier that starts there: 100 is Uncommon (a profile with 50 followers
    and nothing else scores exactly 100), 300 Rare, 800 Epic, 2000
    Legendary, 5000 Mythical, while scores below 100 are Common. *)
Theorem rarity_monotone_boundaries :
  (forall (u1 u2 : GitHubUser) (s1 s2 : ExtendedStats),
     PrimFloat.ltb (powerLevel u1 s1) (powerLevel u2 s2) = true ->
     (rank (calculateRarity u1 s1) <= rank (calculateRarity u2 s2))%nat) /\
  rarityOf 100 = uncommon /\
  rarityOf 300 = rare /\
  rarityOf 800 = epic /\
  rarityOf 2000 = legendary /\
  rarityOf 5000 = mythical /\
  rarityOf 0 = common /\
  powerLevel (profile 50 0 0) no_stats = 100%float /\
  calculateRarity (profile 50 0 0) no_stats = uncommon /\
  calculateRarity (profile 49 1 9) no_stats = common.
Proof.
  split.
  - intros u1 u2 s1 s2 H. unfold calculateRarity. apply rarityOf_monotone, H.
  - repeat (split; [vm_compute; reflexivity|]). vm_compute. reflexivity.
Qed.

Lemma rarity_monotone_boundaries_witness :
  (rank (calculateRarity (profile 49 1 9) no_stats)
   <= rank (calculateRarity (profile 50 0 0) no_stats))%nat.
Proof.
  destruct rarity_monotone_boundaries as [Hmono _].
  apply Hmono. vm_compute. reflexivity.
Defined.

End Devemon.

(* ===================================================================== *)
(** * Wallpaper generator (WallpaperGenerator.tsx) *)
(* ===================================================================== *)

Module Wallpaper.
Import Num App.

(** ** Sizes and themes *)

Record Size := { width : Z; height : Z }.

Inductive SizeKey := desktop | mobile | small.

(** The table [SIZES] (the labels are kept for reference). *)
Definition SIZES (k : SizeKey) : Size * string :=
  match k with
  | desktop => ({| width := 2560; height := 1440 |}, "Desktop (2560x1440)"%string)
  | mobile => ({| width := 1179; height := 2556 |}, "Mobile (1179x2556)"%string)
  | small => ({| width := 320; height := 240 |}, "Badger (320x240)"%string)
  end.

(** The keys of [BACKGROUND_THEMES]. *)
Inductive ThemeKey :=
  | github_universe_green
  | github_universe_blue
  | universe_octocanvas
  | github_dark.

Definition is_blue (t : ThemeKey) : bool :=
  match t with github_universe_blue => true | _ => false end.

Definition is_universe (t : ThemeKey) : bool :=
  match t with universe_octocanvas => true | _ => false end.

(** ** The contribution graph of [generateSVG]

    Each [<rect .../>] appended to [contributionSquares] is kept as a
    record of its attributes (numbers are not printed). *)
Record Rect := {
  rect_class : option string;
  rect_x : float;
  rect_y : float;
  rect_width : float;
  rect_height : float;
  rect_fill : string;
  rect_opacity : option string;
  rect_rx : Z
}.

(** [Math.min] of two numbers. *)
Definition Math_min (a b : float) : float :=
  if PrimFloat.is_nan a then a
  else if PrimFloat.is_nan b then b
  else if PrimFloat.ltb b a then b
  else if PrimFloat.ltb a b then a
  else if PrimFloat.get_sign a then a else b.

(** Fill colour and opacity attribute of a day's square. *)
Definition squareColor (selectedTheme : ThemeKey) (count : float)
  : string * option string :=
  if is_blue selectedTheme then
    if PrimFloat.eqb count 0 then ("#FFFFFF"%string, Some "0.5"%string)
    else if PrimFloat.leb 10 count then ("#0527FC"%string, None)
    else if PrimFloat.leb 5 count then ("#3094FF"%string, None)
    else ("#9EECFF"%string, None)
  else
    if PrimFloat.ltb 0 count then
      if PrimFloat.leb 15 count then ("#5fed83"%string, None)
      else if PrimFloat.leb 10 count then ("#5fed83"%string, None)
      else if PrimFloat.leb 5 count then ("#8cf2a6"%string, None)
      else if PrimFloat.leb 2 count then ("#bfffd1"%string, None)
      else ("#dcff96"%string, None)
    else ("#000000"%string, Some "0.2"%string).

(** The placement of the graph, computed before the loops. *)
Record Layout := {
  isUniverseTheme : bool;
  graphX : float;
  graphY : float;
  adjustedCellSize : float;
  adjustedCellGap : float
}.

Definition layout (selectedTheme : ThemeKey) (w h : float) (totalWeeks : nat)
  : Layout :=
  let scale := (Math_min w h / 1000)%float in
  let centerX := (w / 2)%float in
  let cellSize := (12 * scale)%float in
  let cellGap := (3 * scale)%float in
  let graphY := (h - 300 * scale)%float in
  let universeGraphScale := 0.5%float in
  let adjustedCellSize :=
    if is_universe selectedTheme then (cellSize * universeGraphScale)%float
    else cellSize in
  let adjustedCellGap :=
    if is_universe selectedTheme then (cellGap * universeGraphScale)%float
    else cellGap in
  let actualGraphWidth :=
    (of_nat totalWeeks * adjustedCellSize
     + (of_nat totalWeeks - 1) * adjustedCellGap)%float in
  {| isUniverseTheme := is_universe selectedTheme;
     graphX := (centerX - actualGraphWidth / 2)%float;
     graphY := graphY;
     adjustedCellSize := adjustedCellSize;
     adjustedCellGap := adjustedCellGap |}.

(** The square drawn for [day], entry [dayIdx] of week [weekIdx]. *)
Definition squareRect (selectedTheme : ThemeKey) (isStatic : bool) (L : Layout)
    (weekIdx dayIdx : nat) (day : ContributionDay) : Rect :=
  let pitch := (adjustedCellSize L + adjustedCellGap L)%float in
  let x :=
    if isUniverseTheme L then (of_nat weekIdx * pitch)%float
    else (graphX L + of_nat weekIdx * pitch)%float in
  let y :=
    if isUniverseTheme L then (of_nat dayIdx * pitch)%float
    else (graphY L + of_nat dayIdx * pitch)%float in
  let colour := squareColor selectedTheme (contributionCount day) in
  {| rect_class := if isStatic then None else Some "contribution-square"%string;
     rect_x := x; rect_y := y;
     rect_width := adjustedCellSize L; rect_height := adjustedCellSize L;
     rect_fill := fst colour; rect_opacity := snd colour; rect_rx := 2 |}.

(** *** Effects of the loops

    The loops append squares, read arrays by index and may throw a
    TypeError when a property of [undefined] is read.  The state records
    the squares drawn so far and how many array reads fell outside the
    bounds of their array. *)
Record Trace := {
  squares : list Rect;
  out_of_bounds : nat
}.

Inductive Outcome (A : Type) :=
  | Ok (a : A)
  | Throw (error : string).
Arguments Ok {A} a.
Arguments Throw {A} error.

Definition M (A : Type) : Type := Trace -> Outcome (A * Trace).

Definition ret {A} (a : A) : M A := fun t => Ok (a, t).

Definition bind {A B} (c : M A) (k : A -> M B) : M B :=
  fun t =>
    match c t with
    | Ok (a, t') => k a t'
    | Throw e => Throw e
    end.

Notation "x <- c ;; k" := (bind c (fun x => k))
  (at level 100, c at next level, right associativity).

Definition throw {A} (error : string) : M A := fun _ => Throw error.

(** [contributionSquares += rect] *)
Definition emit (r : Rect) : M unit :=
  fun t => Ok (tt, {| squares := squares t ++ [r];
                      out_of_bounds := out_of_bounds t |}).

(** [arr[i]]: [None] is [undefined], and the read is counted when [i] is
    not an index of [arr]. *)
Definition index {A} (arr : list A) (i : nat) : M (option A) :=
  fun t =>
    match arr !! i with
    | Some a => Ok (Some a, t)
    | None => Ok (None, {| squares := squares t;
                           out_of_bounds := S (out_of_bounds t) |})
    end.

(** [for (let i = from; i < from + n; i++) body(i)] *)
Fixpoint for_range (from n : nat) (body : nat -> M unit) : M unit :=
  match n with
  | O => ret tt
  | S n' => _ <- body from ;; for_range (S from) n' body
  end.

(** The body of the inner loop, for entry [dayIdx] of [week]. *)
Definition dayBody (selectedTheme : ThemeKey) (isStatic : bool) (L : Layout)
    (week : Week) (weekIdx dayIdx : nat) : M unit :=
  match contributionDays week with
  | None => throw "TypeError: week.contributionDays is undefined"
  | Some days =>
      day <- index days dayIdx ;;
      match day with
      | Some (Some d) => emit (squareRect selectedTheme isStatic L weekIdx dayIdx d)
      | _ => ret tt
      end
  end.

(** [week.contributionDays?.length || 0] *)
Definition daysInWeek (week : Week) : nat :=
  match contributionDays week with
  | Some days => length days
  | None => 0
  end.

(** The body of the outer loop, for week [weekIdx] of [recentWeeks]. *)
Definition weekBody (selectedTheme : ThemeKey) (isStatic : bool) (L : Layout)
    (recentWeeks : list Week) (weekIdx : nat) : M unit :=
  week <- index recentWeeks weekIdx ;;
  match week with
  | None => throw "TypeError: week is undefined"
  | Some week =>
      for_range 0 (daysInWeek week)
        (dayBody selectedTheme isStatic L week weekIdx)
  end.

(** [contributions.weeks.slice(-53)] *)
Definition recent (weeks : list Week) : list Week :=
  drop (length weeks - 53) weeks.

(** The part of [generateSVG] that builds [contributionSquares]. *)
Definition contributionSquares (selectedTheme : ThemeKey) (isStatic : bool)
    (w h : float) (contributions : option ContributionData) : M unit :=
  match contributions with
  | None => ret tt
  | Some c =>
      if (0 <? length (weeks c))%nat then
        let recentWeeks := recent (weeks c) in
        let totalWeeks := length recentWeeks in
        let L := layout selectedTheme w h totalWeeks in
        for_range 0 totalWeeks (weekBody selectedTheme isStatic L recentWeeks)
      else ret tt
  end.

Definition start : Trace := {| squares := []; out_of_bounds := 0 |}.

(** ** What the loops draw *)

(** The squares of the present entries of [days], from entry [dayIdx] on. *)
Fixpoint daySquares (selectedTheme : ThemeKey) (isStatic : bool) (L : Layout)
    (weekIdx dayIdx : nat) (days : list (option ContributionDay)) : list Rect :=
  match days with
  | [] => []
  | Some d :: rest =>
      squareRect selectedTheme isStatic L weekIdx dayIdx d
        :: daySquares selectedTheme isStatic L weekIdx (S dayIdx) rest
  | None :: rest => daySquares selectedTheme isStatic L weekIdx (S dayIdx) rest
  end.

Definition weekDays (week : Week) : list (option ContributionDay) :=
  match contributionDays week with
  | Some days => days
  | None => []
  end.

(** The squares of the weeks [ws], the first of which has index [weekIdx]. *)
Fixpoint weekSquares (selectedTheme : ThemeKey) (isStatic : bool) (L : Layout)
    (weekIdx : nat) (ws : list Week) : list Rect :=
  match ws with
  | [] => []
  | week :: rest =>
      daySquares selectedTheme isStatic L weekIdx 0 (weekDays week)
        ++ weekSquares selectedTheme isStatic L (S weekIdx) rest
  end.

(** A series made of a full week followed by a week of three entries. *)
Definition day_of (n : Z) : option ContributionDay :=
  Some {| contributionCount := of_Z n; date := "" |}.

Definition short_series : ContributionData :=
  {| totalContributions := 32;
     weeks := [ {| contributionDays :=
                     Some [day_of 0; day_of 1; day_of 2; day_of 5;
                           day_of 10; day_of 3; day_of 0] |};
                {| contributionDays := Some [day_of 4; day_of 0; day_of 7] |} ] |}.

(** ** The loops never read out of bounds and never throw *)

Section Loops.
Variable selectedTheme : ThemeKey.
Variable isStatic : bool.
Variable L : Layout.

Lemma dayLoop_run (week : Week) (weekIdx : nat)
    (before rest : list (option ContributionDay)) (t : Trace) :
  contributionDays week = Some (before ++ rest) ->
  for_range (length before) (length rest)
    (dayBody selectedTheme isStatic L week weekIdx) t
  = Ok (tt, {| squares := squares t
                 ++ daySquares selectedTheme isStatic L weekIdx (length before) rest;
               out_of_bounds := out_of_bounds t |}).
Proof.
  revert before t. induction rest as [|d rest IH]; intros before t Hdays.
  - cbn. rewrite app_nil_r. destruct t; reflexivity.
  - cbn [for_range length]. unfold bind at 1.
    assert ((before ++ d :: rest) !! length before = Some d) as Hd.
    { rewrite lookup_app_r by lia. rewrite Nat.sub_diag. reflexivity. }
    assert (before ++ d :: rest = (before ++ [d]) ++ rest) as Hsplit
      by (rewrite <- app_assoc; reflexivity).
    assert (S (length before) = length (before ++ [d])) as Hlen
      by (rewrite length_app; cbn; lia).
    unfold dayBody at 1. rewrite Hdays. unfold bind at 1, index. rewrite Hd.
    destruct d as [d|].
    + unfold emit. rewrite Hlen, IH by (rewrite Hdays, Hsplit; reflexivity).
      cbn [squares out_of_bounds daySquares].
      rewrite <- app_assoc, <- Hlen. reflexivity.
    + unfold ret. rewrite Hlen, IH by (rewrite Hdays, Hsplit; reflexivity).
      cbn [daySquares]. rewrite <- Hlen. reflexivity.
Qed.

Lemma weekLoop_run (before rest : list Week) (t : Trace) :
  for_range (length before) (length rest)
    (weekBody selectedTheme isStatic L (before ++ rest)) t
  = Ok (tt, {| squares := squares t
                 ++ weekSquares selectedTheme isStatic L (length before) rest;
               out_of_bounds := out_of_bounds t |}).
Proof.
  revert before t. induction rest as [|week rest IH]; intros before t.
  - cbn. rewrite app_nil_r. destruct t; reflexivity.
  - cbn [for_range length]. unfold bind at 1.
    assert ((before ++ week :: rest) !! length before = Some week) as Hw.
    { rewrite lookup_app_r by lia. rewrite Nat.sub_diag. reflexivity. }
    assert (before ++ week :: rest = (before ++ [week]) ++ rest) as Hsplit
      by (rewrite <- app_assoc; reflexivity).
    assert (S (length before) = length (before ++ [week])) as Hlen
      by (rewrite length_app; cbn; lia).
    unfold weekBody at 1, bind at 1, index. rewrite Hw.
    assert (for_range 0 (daysInWeek week)
              (dayBody selectedTheme isStatic L week (length before)) t
            = Ok (tt, {| squares := squares t
                           ++ daySquares selectedTheme isStatic L (length before) 0
                                (weekDays week);
                         out_of_bounds := out_of_bounds t |})) as Hdays.
    { unfold daysInWeek, weekDays.
      destruct (contributionDays week) as [days|] eqn:E.
      - apply (dayLoop_run week (length before) [] days t). exact E.
      - cbn. rewrite app_nil_r. destruct t; reflexivity. }
    rewrite Hdays, Hsplit, Hlen, IH.
    cbn [squares out_of_bounds weekSquares].
    rewrite <- app_assoc, <- Hlen. reflexivity.
Qed.

Lemma daySquares_length (weekIdx dayIdx : nat)
    (days : list (option ContributionDay)) :
  (length (daySquares selectedTheme isStatic L weekIdx dayIdx days)
   <= length days)%nat.
Proof.
  revert dayIdx. induction days as [|[d|] days IH]; intros dayIdx; cbn.
  - lia.
  - specialize (IH (S dayIdx)). lia.
  - specialize (IH (S dayIdx)). lia.
Qed.

End Loops.

(** C7: rendering the contribution graph reads no array out of bounds and
    does not throw, whatever the number of day entries of each week: the
    loops draw exactly one square for each present day entry of each of
    the last 53 weeks, so a week with fewer than 7 entries (for example 3)
    gets one square for each of its entries, in rows 0, 1, 2, and nothing
    in the remaining rows. *)
Theorem contribution_graph_safe (selectedTheme : ThemeKey) (isStatic : bool)
    (w h : float) (contributions : option ContributionData) :
  let recentWeeks :=
    match contributions with
    | Some c => recent (weeks c)
    | None => []
    end in
  let L := layout selectedTheme w h (length recentWeeks) in
  (exists t : Trace,
     contributionSquares selectedTheme isStatic w h contributions start
       = Ok (tt, t) /\
     out_of_bounds t = 0%nat /\
     squares t = weekSquares selectedTheme isStatic L 0 recentWeeks) /\
  (forall weekIdx days,
     (length (daySquares selectedTheme isStatic L weekIdx 0 days)
      <= length days)%nat) /\
  (forall weekIdx d0 d1 d2,
     daySquares selectedTheme isStatic L weekIdx 0 [Some d0; Some d1; Some d2]
     = [ squareRect selectedTheme isStatic L weekIdx 0 d0;
         squareRect selectedTheme isStatic L weekIdx 1 d1;
         squareRect selectedTheme isStatic L weekIdx 2 d2 ]).
Proof.
  intros recentWeeks L. split; [|split].
  - unfold contributionSquares.
    destruct contributions as [c|]; [|exists start; repeat split; reflexivity].
    destruct (Nat.ltb_spec 0 (length (weeks c))) as [Hpos|Hzero].
    + cbv zeta.
      pose proof (weekLoop_run selectedTheme isStatic L [] (recent (weeks c)) start)
        as Hrun.
      eexists. split; [exact Hrun|]. split; reflexivity.
    + exists start. subst recentWeeks.
      destruct (weeks c); [|cbn in Hzero; lia].
      repeat split; reflexivity.
  - intros weekIdx days. apply daySquares_length.
  - intros weekIdx d0 d1 d2. reflexivity.
Qed.

Lemma contribution_graph_safe_witness :
  exists t : Trace,
    contributionSquares github_dark true 2560 1440 (Some short_series) start
      = Ok (tt, t) /\
    out_of_bounds t = 0%nat /\
    length (squares t) = 10%nat.
Proof.
  destruct (contribution_graph_safe github_dark true 2560 1440 (Some short_series))
    as ((t & Hrun & Hoob & Hsq) & _).
  exists t. split; [exact Hrun|]. split; [exact Hoob|].
  rewrite Hsq. reflexivity.
Defined.

End Wallpaper.

(* ===================================================================== *)
(** * README banner (ReadmeBanner.tsx) *)
(* ===================================================================== *)

Module Banner.
Import Num Raster App.

(** The [artType] property of the banner, as the style selector sets it. *)
Inductive ArtType := none | ascii | pixel | grayscale | color.

(** ** The avatar transforms as promises

    Each transform creates an image element and returns a promise that is
    settled by one of the two handlers of the image.  The 2D context of
    the scratch canvas is the browser's: [drawn smoothing w h] is the
    RGBA data of the [w] x [h] canvas after
    [drawImage(img, 0, 0, w, h)], and [toDataURL] encodes the canvas. *)
Record Context2D := {
  drawn : bool -> nat -> nat -> list Z;
  toDataURL : list Z -> string
}.

(** What happens to the image: it loads, and [getContext("2d")] gives a
    context or [null]; or it fails to load. *)
Inductive ImageEvent :=
  | onload (ctx : option Context2D)
  | onerror.

Inductive Settled (A : Type) :=
  | Resolved (value : A)
  | Rejected (reason : string).
Arguments Resolved {A} value.
Arguments Rejected {A} reason.

Definition generateAsciiArt (ev : ImageEvent) : Settled string :=
  match ev with
  | onload None => Resolved ""%string
  | onload (Some ctx) => Resolved (asciiFromPixels (drawn ctx true 60 40))
  | onerror => Resolved ""%string
  end.

Definition generatePixelArt (ev : ImageEvent) : Settled string :=
  match ev with
  | onload None => Resolved ""%string
  | onload (Some ctx) => Resolved (toDataURL ctx (drawn ctx false 64 64))
  | onerror => Resolved ""%string
  end.

Definition generateGrayscaleArt (ev : ImageEvent) : Settled string :=
  match ev with
  | onload None => Resolved ""%string
  | onload (Some ctx) =>
      Resolved (toDataURL ctx (grayscalePixels (drawn ctx true 256 256)))
  | onerror => Resolved ""%string
  end.

Definition generateColorArt (ev : ImageEvent) : Settled string :=
  match ev with
  | onload None => Resolved ""%string
  | onload (Some ctx) => Resolved (toDataURL ctx (drawn ctx true 256 256))
  | onerror => Resolved ""%string
  end.

(** ** The caller: [loadArt] and the art column of the banner *)

Record ArtState := {
  asciiArt : string;
  pixelArtData : string;
  grayscaleArtData : string;
  colorArtData : string
}.

(** [Promise.all] of two settled promises. *)
Definition both {A B} (a : Settled A) (b : Settled B) : Settled (A * B) :=
  match a, b with
  | Resolved x, Resolved y => Resolved (x, y)
  | Rejected r, _ => Rejected r
  | _, Rejected r => Rejected r
  end.

(** [loadArt]: the four transforms each load the avatar on their own, and
    the four state variables are set once all four promises are
    resolved. *)
Definition loadArt (e1 e2 e3 e4 : ImageEvent) : Settled ArtState :=
  match both (both (generateAsciiArt e1) (generatePixelArt e2))
             (both (generateGrayscaleArt e3) (generateColorArt e4)) with
  | Resolved ((art, pixelData), (grayscaleData, colorData)) =>
      Resolved {| asciiArt := art; pixelArtData := pixelData;
                  grayscaleArtData := grayscaleData;
                  colorArtData := colorData |}
  | Rejected r => Rejected r
  end.

(** The left column of the banner. *)
Inductive ArtColumn :=
  | AsciiColumn (text : string)
  | ImageColumn (src alt : string).

(** A string is truthy when it is not empty. *)
Definition truthy (s : string) : bool :=
  match s with
  | EmptyString => false
  | _ => true
  end.

(** [artType === "ascii" && asciiArt && (...)] and its three siblings: at
    most one column is rendered. *)
Definition artColumn (artType : ArtType) (st : ArtState) : option ArtColumn :=
  match artType with
  | ascii =>
      if truthy (asciiArt st) then Some (AsciiColumn (asciiArt st)) else None
  | pixel =>
      if truthy (pixelArtData st)
      then Some (ImageColumn (pixelArtData st) "Pixel Art Avatar") else None
  | grayscale =>
      if truthy (grayscaleArtData st)
      then Some (ImageColumn (grayscaleArtData st) "Grayscale Avatar") else None
  | color =>
      if truthy (colorArtData st)
      then Some (ImageColumn (colorArtData st) "Color Avatar") else None
  | none => None
  end.

(** ** What a style exports

    The transforms hand the pixels of their canvas to the encoder
    [toDataURL] of the browser, and the banner shows the resulting URL.
    To tell which pixels a style exports, the encoder is made a
    parameter. *)

(** The context [ctx] with the encoder [enc] in place of its own. *)
Definition with_encoder (ctx : Context2D) (enc : list Z -> string) : Context2D :=
  {| drawn := drawn ctx; toDataURL := enc |}.

(** The art column of the banner for [artType] when the avatar has loaded
    in each of the four transforms, on a canvas that draws like [ctx] and
    encodes with [enc]. *)
Definition shown (artType : ArtType) (ctx : Context2D) (enc : list Z -> string)
  : option ArtColumn :=
  let ev := onload (Some (with_encoder ctx enc)) in
  match loadArt ev ev ev ev with
  | Resolved st => artColumn artType st
  | Rejected _ => None
  end.

(** The style [artType] exports the raster [pixels]: whatever the encoder
    is, the banner shows the image that the encoder makes of [pixels]
    (and no column when that URL is empty). *)
Definition exports (artType : ArtType) (ctx : Context2D) (pixels : list Z)
  : Prop :=
  exists alt, forall enc,
    shown artType ctx enc
    = if truthy (enc pixels) then Some (ImageColumn (enc pixels) alt) else None.

(** A style quantizes to [levels] levels when it exports an image and
    some [levels] values contain every colour byte of every image it
    exports. *)
Definition quantizes (levels : nat) (artType : ArtType) : Prop :=
  (exists ctx pixels, exports artType ctx pixels) /\
  exists palette : list Z,
    (length palette <= levels)%nat /\
    forall ctx pixels i v,
      exports artType ctx pixels ->
      (i mod 4 <> 3)%nat -> pixels !! i = Some v -> In v palette.

(** A browser context whose canvas always holds one opaque gray pixel. *)
Definition gray_context (v : Z) : Context2D :=
  {| drawn := fun _ _ _ => [v; v; v; 255]; toDataURL := fun _ => "data:"%string |}.

(** Two encoders that tell a raster from all others, or nothing at all. *)
Definition marks (pixels : list Z) (l : list Z) : string :=
  if decide (l = pixels) then "data:"%string else ""%string.

Definition blind (l : list Z) : string := "data:"%string.

(** ** Failure to load the avatar *)

(** C8: when the avatar image fails to load, each of the four transforms
    resolves to the empty string (no transform ever rejects, whatever
    happens to the image), [loadArt] stores four empty strings, and the
    banner is then rendered without an art column for every art type. *)
Theorem art_failure_is_empty :
  generateAsciiArt onerror = Resolved ""%string /\
  generatePixelArt onerror = Resolved ""%string /\
  generateGrayscaleArt onerror = Resolved ""%string /\
  generateColorArt onerror = Resolved ""%string /\
  (forall ev, exists s1 s2 s3 s4,
     generateAsciiArt ev = Resolved s1 /\ generatePixelArt ev = Resolved s2 /\
     generateGrayscaleArt ev = Resolved s3 /\ generateColorArt ev = Resolved s4) /\
  (exists st,
     loadArt onerror onerror onerror onerror = Resolved st /\
     asciiArt st = ""%string /\ pixelArtData st = ""%string /\
     grayscaleArtData st = ""%string /\ colorArtData st = ""%string /\
     forall artType, artColumn artType st = None).
Proof.
  repeat (split; [reflexivity|]). split.
  - intros [[ctx|]|]; repeat eexists.
  - eexists. split; [reflexivity|]. repeat (split; [reflexivity|]).
    intros []; reflexivity.
Qed.

(** ** The rasters of the five styles *)

(** What the banner shows once the four transforms have resolved. *)
Lemma shown_eq (artType : ArtType) (ctx : Context2D) (enc : list Z -> string) :
  shown artType ctx enc
  = artColumn artType
      {| asciiArt := asciiFromPixels (drawn ctx true 60 40);
         pixelArtData := enc (drawn ctx false 64 64);
         grayscaleArtData := enc (grayscalePixels (drawn ctx true 256 256));
         colorArtData := enc (drawn ctx true 256 256) |}.
Proof. reflexivity. Qed.

Lemma exports_pixel (ctx : Context2D) : exports pixel ctx (drawn ctx false 64 64).
Proof.
  exists "Pixel Art Avatar"%string. intros enc. rewrite shown_eq. reflexivity.
Qed.

Lemma exports_color (ctx : Context2D) : exports color ctx (drawn ctx true 256 256).
Proof.
  exists "Color Avatar"%string. intros enc. rewrite shown_eq. reflexivity.
Qed.

Lemma exports_grayscale (ctx : Context2D) :
  exports grayscale ctx (grayscalePixels (drawn ctx true 256 256)).
Proof.
  exists "Grayscale Avatar"%string. intros enc. rewrite shown_eq. reflexivity.
Qed.

(** A style exports at most one raster from a canvas. *)
Lemma exports_unique (artType : ArtType) (ctx : Context2D)
    (pixels pixels' : list Z) :
  exports artType ctx pixels -> exports artType ctx pixels' -> pixels = pixels'.
Proof.
  intros [alt H] [alt' H']. specialize (H (marks pixels)).
  specialize (H' (marks pixels)). rewrite H in H'. unfold marks in H'.
  destruct (decide (pixels = pixels)) as [_|Hne]; [|congruence].
  destruct (decide (pixels' = pixels)) as [->|_]; [reflexivity|].
  discriminate H'.
Qed.

(** The styles none and ASCII export no raster. *)
Lemma no_image_style (artType : ArtType) (ctx : Context2D) (pixels : list Z) :
  artType = none \/ artType = ascii -> ~ exports artType ctx pixels.
Proof.
  intros Ht [alt H]. specialize (H blind). rewrite shown_eq in H.
  destruct Ht as [-> | ->];
    cbv beta iota delta [artColumn asciiArt blind truthy] in H.
  - discriminate H.
  - destruct (asciiFromPixels (drawn ctx true 60 40)); discriminate H.
Qed.

(** The luminosity of a gray colour is its level. *)
Lemma gray_is_fixed (v : Z) :
  valid_channel v ->
  toUint8Clamp (luminosity (of_Z v) (of_Z v) (of_Z v)) = v.
Proof.
  intros Hv.
  assert (forallb
            (fun u => toUint8Clamp (luminosity (of_Z u) (of_Z u) (of_Z u)) =? u)
            (seqZ 0 256) = true) as H by (vm_compute; reflexivity).
  rewrite forallb_forall in H. apply Z.eqb_eq, H.
  apply list_elem_of_In, elem_of_seqZ. unfold valid_channel in Hv. lia.
Qed.

(** The colour bytes of pixel [k] after the grayscale loop. *)
Lemma gray_pixel (data : list Z) (k c : nat) (r g b : Z) :
  data !! (4 * k)%nat = Some r -> data !! (4 * k + 1)%nat = Some g ->
  data !! (4 * k + 2)%nat = Some b -> (c < 3)%nat ->
  grayscalePixels data !! (4 * k + c)%nat
  = Some (toUint8Clamp (luminosity (of_Z r) (of_Z g) (of_Z b))).
Proof.
  intros Hr Hg Hb Hc. unfold grayscalePixels.
  apply grayscaleLoop_colour; try assumption; try lia. reflexivity.
Qed.

Lemma gray_raster (artType : ArtType) (v : Z) :
  artType = pixel \/ artType = grayscale \/ artType = color ->
  valid_channel v ->
  exists pixels,
    exports artType (gray_context v) pixels /\ pixels !! 0%nat = Some v.
Proof.
  intros Ht Hv. destruct Ht as [-> | [-> | ->]].
  - eexists. split; [apply exports_pixel|]. reflexivity.
  - exists (grayscalePixels [v; v; v; 255]).
    split; [apply (exports_grayscale (gray_context v))|].
    pose proof (gray_pixel [v; v; v; 255] 0 0 v v v eq_refl eq_refl eq_refl)
      as H.
    rewrite (gray_is_fixed v Hv) in H. apply H. lia.
  - eexists. split; [apply exports_color|]. reflexivity.
Qed.

(** ** No style posterizes *)

(** C2, as stated, fails: no art style of the banner quantizes colour
    channels to four levels (there is no posterize or cartoon style).
    Every style that exports an image can export the five levels 0..4. *)
Lemma no_posterize_style : ~ (exists artType : ArtType, quantizes 4 artType).
Proof.
  intros (artType & (ctx & pixels & Hexports) & palette & Hlen & Hpal).
  assert (artType = pixel \/ artType = grayscale \/ artType = color) as Ht.
  { destruct artType; auto;
      exfalso; apply (no_image_style _ ctx pixels) in Hexports; auto. }
  assert (incl [0; 1; 2; 3; 4] palette) as Hincl.
  { intros v Hv.
    assert (valid_channel v) as Hvalid.
    { unfold valid_channel. cbn in Hv. lia. }
    destruct (gray_raster artType v Ht Hvalid) as (pixels' & Hp & H0).
    apply (Hpal (gray_context v) pixels' 0%nat v Hp); [|exact H0].
    cbn. lia. }
  assert (List.NoDup [0; 1; 2; 3; 4]) as Hnd.
  { repeat (apply List.NoDup_cons; [cbn; lia|]). apply List.NoDup_nil. }
  pose proof (NoDup_incl_length Hnd Hincl) as Hle. cbn in Hle. lia.
Qed.

(** C2, amended: the banner has exactly five art styles, none, ASCII,
    pixel, grayscale and color.  None and ASCII export no image; pixel and
    color export the pixels drawn on their canvas unchanged; grayscale
    replaces each colour by its luminosity: the raster keeps its length
    and every alpha byte, and the three colour bytes of each pixel become
    the luminosity of that pixel as a byte.  No style applies edge
    detection or contrast scaling: each exported pixel is determined by
    the canvas pixel at the same position (two canvases that agree on a
    pixel give the same exported pixel), and a gray pixel is exported as
    it is.  No style quantizes the colour channels: each image style can
    export every channel level from 0 to 255. *)
Theorem art_styles_not_quantized :
  (forall artType : ArtType,
     artType = none \/ artType = ascii \/ artType = pixel \/
     artType = grayscale \/ artType = color) /\
  (forall ctx pixels,
     ~ exports none ctx pixels /\ ~ exports ascii ctx pixels) /\
  (forall ctx pixels,
     (exports pixel ctx pixels <-> pixels = drawn ctx false 64 64) /\
     (exports color ctx pixels <-> pixels = drawn ctx true 256 256)) /\
  (forall ctx pixels,
     exports grayscale ctx pixels ->
     let canvas := drawn ctx true 256 256 in
     length pixels = length canvas /\
     (forall j, (j mod 4 = 3)%nat -> pixels !! j = canvas !! j) /\
     (forall k r g b c,
        canvas !! (4 * k)%nat = Some r ->
        canvas !! (4 * k + 1)%nat = Some g ->
        canvas !! (4 * k + 2)%nat = Some b -> (c < 3)%nat ->
        pixels !! (4 * k + c)%nat
        = Some (toUint8Clamp (luminosity (of_Z r) (of_Z g) (of_Z b)))) /\
     (forall k v c,
        valid_channel v ->
        canvas !! (4 * k)%nat = Some v ->
        canvas !! (4 * k + 1)%nat = Some v ->
        canvas !! (4 * k + 2)%nat = Some v -> (c < 4)%nat ->
        pixels !! (4 * k + c)%nat = canvas !! (4 * k + c)%nat)) /\
  (forall ctx ctx' pixels pixels' k,
     exports grayscale ctx pixels -> exports grayscale ctx' pixels' ->
     (4 * k + 3 < length (drawn ctx true 256 256))%nat ->
     (forall c, (c < 4)%nat ->
        drawn ctx true 256 256 !! (4 * k + c)%nat
        = drawn ctx' true 256 256 !! (4 * k + c)%nat) ->
     forall c, (c < 4)%nat ->
       pixels !! (4 * k + c)%nat = pixels' !! (4 * k + c)%nat) /\
  (forall artType v,
     artType = pixel \/ artType = grayscale \/ artType = color ->
     valid_channel v ->
     exists ctx pixels,
       exports artType ctx pixels /\ pixels !! 0%nat = Some v).
Proof.
  assert (forall ctx pixels,
            exports grayscale ctx pixels ->
            pixels = grayscalePixels (drawn ctx true 256 256)) as Hgray.
  { intros ctx pixels H.
    apply (exports_unique grayscale ctx _ _ H (exports_grayscale ctx)). }
  assert (forall data j, (j mod 4 = 3)%nat ->
            grayscalePixels data !! j = data !! j) as Halpha.
  { intros data j Hj. unfold grayscalePixels.
    apply grayscaleLoop_alpha; [reflexivity|exact Hj]. }
  assert (forall k, ((4 * k + 3) mod 4 = 3)%nat) as Hmod.
  { intros k. rewrite Nat.add_comm, Nat.mul_comm, Nat.Div0.mod_add.
    reflexivity. }
  split; [|split; [|split; [|split; [|split]]]].
  - intros []; auto 6.
  - intros ctx pixels. split; apply no_image_style; auto.
  - intros ctx pixels. split; split.
    + intros H. apply (exports_unique pixel ctx _ _ H (exports_pixel ctx)).
    + intros ->. apply exports_pixel.
    + intros H. apply (exports_unique color ctx _ _ H (exports_color ctx)).
    + intros ->. apply exports_color.
  - intros ctx pixels H canvas. subst canvas. rewrite (Hgray _ _ H).
    split; [|split; [|split]].
    + unfold grayscalePixels. apply length_grayscaleLoop.
    + apply Halpha.
    + intros k r g b c Hr Hg Hb Hc. apply gray_pixel; assumption.
    + intros k v c Hv H0 H1 H2 Hc.
      destruct (Nat.eq_dec c 3%nat) as [->|Hne]; [apply Halpha, Hmod|].
      rewrite (gray_pixel _ k c v v v H0 H1 H2) by lia.
      rewrite (gray_is_fixed v Hv).
      assert (c = 0 \/ c = 1 \/ c = 2)%nat as [-> | [-> | ->]] by lia.
      * rewrite Nat.add_0_r. symmetry. exact H0.
      * symmetry. exact H1.
      * symmetry. exact H2.
  - intros ctx ctx' pixels pixels' k H H' Hin Hsame c Hc.
    rewrite (Hgray _ _ H), (Hgray _ _ H').
    destruct (lookup_lt_is_Some_2 (drawn ctx true 256 256) (4 * k))
      as [r Hr]; [lia|].
    destruct (lookup_lt_is_Some_2 (drawn ctx true 256 256) (4 * k + 1))
      as [g Hg]; [lia|].
    destruct (lookup_lt_is_Some_2 (drawn ctx true 256 256) (4 * k + 2))
      as [b Hb]; [lia|].
    pose proof (Hsame 0%nat ltac:(lia)) as Hr'.
    rewrite Nat.add_0_r, Hr in Hr'.
    pose proof (Hsame 1%nat ltac:(lia)) as Hg'. rewrite Hg in Hg'.
    pose proof (Hsame 2%nat ltac:(lia)) as Hb'. rewrite Hb in Hb'.
    destruct (Nat.eq_dec c 3%nat) as [->|Hne].
    + rewrite !Halpha by apply Hmod. apply Hsame. lia.
    + rewrite (gray_pixel _ k c r g b Hr Hg Hb) by lia.
      rewrite (gray_pixel _ k c r g b) by (congruence || lia). reflexivity.
  - intros artType v Ht Hv. exists (gray_context v).
    apply gray_raster; assumption.
Qed.

End Banner.

(* ===================================================================== *)
(** * Exported images *)
(* ===================================================================== *)

Module Exports.
Import App Wallpaper.

(** The artifacts that can be downloaded: a wallpaper in one of the three
    sizes, the card, the badge and the banner. *)
Inductive Artifact :=
  | WallpaperArt (sizeKey : SizeKey)
  | CardArt
  | BadgeArt
  | BannerArt.

(** The sizes stated in the documentation of the components (the header
    comments of WallpaperGenerator.tsx and ReadmeBanner.tsx, the badge
    comment of DevemonCard.tsx and the README for the card). *)
Definition documented (a : Artifact) : Size :=
  match a with
  | WallpaperArt desktop => {| width := 2560; height := 1440 |}
  | WallpaperArt mobile => {| width := 1179; height := 2556 |}
  | WallpaperArt small => {| width := 320; height := 240 |}
  | CardArt => {| width := 350; height := 550 |}
  | BadgeArt => {| width := 320; height := 240 |}
  | BannerArt => {| width := 1280; height := 320 |}
  end.

(** ** Wallpaper: [copyToClipboard] and [downloadWallpaper] *)

(** What [generateSVG(width, height, true)] draws from: its arguments and
    the component state it reads. *)
Record SvgInput := {
  svg_width : Z;
  svg_height : Z;
  svg_static : bool;
  svg_user : GitHubUser;
  svg_theme : ThemeKey;
  svg_avatar : string
}.

(** A PNG blob: the size of its bitmap and what was drawn on it. *)
Record Png := {
  png_size : Size;
  png_of : SvgInput
}.

(** The answers of the browser during one export. *)
Record Browser := {
  has_context : bool;
  image_loads : bool;
  blob_created : bool
}.

Definition copyToClipboard (user : GitHubUser) (selectedTheme : ThemeKey)
    (avatarBase64 : string) (sizeKey : SizeKey) (b : Browser) : Outcome Png :=
  let size := fst (SIZES sizeKey) in
  if negb (Banner.truthy avatarBase64) then Throw "Avatar not loaded yet"
  else
    let svgString :=
      {| svg_width := width size; svg_height := height size;
         svg_static := true; svg_user := user; svg_theme := selectedTheme;
         svg_avatar := avatarBase64 |} in
    let canvas := {| width := width size; height := height size |} in
    if negb (has_context b) then Throw "Failed to get canvas context"
    else if negb (image_loads b) then Throw "Failed to load SVG image"
    else if negb (blob_created b) then Throw "Failed to create blob from canvas"
    else Ok {| png_size := canvas; png_of := svgString |}.

(** [downloadWallpaper]: the size of the downloaded file, if any. *)
Definition downloadWallpaper (user : GitHubUser) (selectedTheme : ThemeKey)
    (avatarBase64 : string) (sizeKey : SizeKey) (b : Browser) : option Size :=
  match copyToClipboard user selectedTheme avatarBase64 sizeKey b with
  | Ok blob => Some (png_size blob)
  | Throw _ => None
  end.

(** ** Banner, card and badge: html2canvas

    [html2canvas(element, { scale })] is a third-party library: it renders
    the box of the element on a canvas of [scale] pixels per CSS pixel. *)
Definition html2canvas (box : Size) (scale : Z) : Size :=
  {| width := width box * scale; height := height box * scale |}.

(** The banner element: [style={{ width: "1280px", height: "320px" }}]. *)
Definition bannerBox : Size := {| width := 1280; height := 320 |}.

(** The hidden badge element: [w-[320px] h-[240px]]. *)
Definition badgeBox : Size := {| width := 320; height := 240 |}.

(** [downloadBanner]: nothing without the element or without a blob. *)
Definition downloadBanner (attached blob_ok : bool) : option Size :=
  if negb attached then None
  else
    let canvas := html2canvas bannerBox 2 in
    if negb blob_ok then None else Some canvas.

Inductive CardFormat := card | badge.

(** [downloadCard(format)]; [cardBox] is the box of the card element,
    which the stylesheet of the component sets. *)
Definition downloadCard (cardBox : Size) (format : CardFormat)
    (attached blob_ok : bool) : option Size :=
  let target := match format with badge => badgeBox | card => cardBox end in
  if negb attached then None
  else
    let canvas := html2canvas target 3 in
    if blob_ok then Some canvas else None.

(** ** All artifacts *)

(** The inputs of one export: the profile, the settings, and what the
    browser answers. *)
Record Inputs := {
  user : GitHubUser;
  theme : ThemeKey;
  avatar : string;
  browser : Browser;
  attached : bool
}.

Definition exported (cardBox : Size) (a : Artifact) (i : Inputs) : option Size :=
  match a with
  | WallpaperArt k => downloadWallpaper (user i) (theme i) (avatar i) k (browser i)
  | CardArt => downloadCard cardBox card (attached i) (blob_created (browser i))
  | BadgeArt => downloadCard cardBox badge (attached i) (blob_created (browser i))
  | BannerArt => downloadBanner (attached i) (blob_created (browser i))
  end.

(** The box each artifact is rendered from, and the scale of its export. *)
Definition box (cardBox : Size) (a : Artifact) : Size :=
  match a with
  | WallpaperArt k => fst (SIZES k)
  | CardArt => cardBox
  | BadgeArt => badgeBox
  | BannerArt => bannerBox
  end.

Definition exportScale (a : Artifact) : Z :=
  match a with
  | WallpaperArt _ => 1
  | CardArt => 3
  | BadgeArt => 3
  | BannerArt => 2
  end.

Definition octocat : GitHubUser :=
  {| login := "octocat"; avatar_url := "https://example.org/a.png";
     followers := 10; public_repos := 8; contributions := None |}.

Definition working : Inputs :=
  {| user := octocat; theme := github_dark; avatar := "data:image/png;base64,AAAA";
     browser := {| has_context := true; image_loads := true; blob_created := true |};
     attached := true |}.

(** C1, as stated, fails: the banner is documented as 1280 x 320, and the
    image exported from it is 2560 x 640. *)
Lemma banner_export_is_scaled :
  ~ (forall (cardBox : Size) (a : Artifact) (i : Inputs) (size : Size),
       exported cardBox a i = Some size -> size = documented a).
Proof.
  intros H.
  specialize (H (documented CardArt) BannerArt working
                {| width := 2560; height := 640 |} eq_refl).
  discriminate H.
Qed.

(** C1, amended: every exported image has the size of the box it is
    rendered from times the scale of its export path, whatever the profile
    data and the avatar: the three wallpapers are exported at scale 1 and
    have exactly the sizes of [SIZES], which are the documented ones
    (2560 x 1440, 1179 x 2556, 320 x 240); the banner is exported at scale
    2 (2560 x 640) and the badge at scale 3 (960 x 720), as is the card. *)
Theorem exported_size_fixed (cardBox : Size) (a : Artifact) (i : Inputs)
    (size : Size) :
  exported cardBox a i = Some size ->
  size = html2canvas (box cardBox a) (exportScale a) /\
  (forall k, a = WallpaperArt k -> size = documented a) /\
  (a = BannerArt -> size = {| width := 2560; height := 640 |}) /\
  (a = BadgeArt -> size = {| width := 960; height := 720 |}) /\
  (forall i', exported cardBox a i' = Some size \/ exported cardBox a i' = None).
Proof.
  intros Hexp.
  assert (forall i' s', exported cardBox a i' = Some s' ->
            s' = html2canvas (box cardBox a) (exportScale a)) as Hsize.
  { intros i' s' H. destruct a as [k| | |]; cbn in H.
    - unfold downloadWallpaper, copyToClipboard in H. cbv zeta in H.
      destruct (negb (Banner.truthy (avatar i'))); [discriminate H|].
      destruct (negb (has_context (browser i'))); [discriminate H|].
      destruct (negb (image_loads (browser i'))); [discriminate H|].
      destruct (negb (blob_created (browser i'))); [discriminate H|].
      injection H as <-. destruct k; reflexivity.
    - unfold downloadCard in H. cbv zeta in H.
      destruct (negb (attached i')); [discriminate H|].
      destruct (blob_created (browser i')); [|discriminate H].
      injection H as <-. reflexivity.
    - unfold downloadCard in H. cbv zeta in H.
      destruct (negb (attached i')); [discriminate H|].
      destruct (blob_created (browser i')); [|discriminate H].
      injection H as <-. reflexivity.
    - unfold downloadBanner in H. cbv zeta in H.
      destruct (negb (attached i')); [discriminate H|].
      destruct (negb (blob_created (browser i'))); [discriminate H|].
      injection H as <-. reflexivity. }
  pose proof (Hsize _ _ Hexp) as ->.
  split; [reflexivity|]. split; [|split; [|split]].
  - intros k ->. destruct k; reflexivity.
  - intros ->. reflexivity.
  - intros ->. reflexivity.
  - intros i'. destruct (exported cardBox a i') as [s'|] eqn:E; [left|right; reflexivity].
    rewrite (Hsize _ _ E). reflexivity.
Qed.

Lemma exported_size_fixed_witness :
  (forall k, WallpaperArt desktop = WallpaperArt k ->
     {| width := 2560; height := 1440 |} = documented (WallpaperArt desktop)) /\
  {| width := 2560; height := 1440 |}
  = html2canvas (box (documented CardArt) (WallpaperArt desktop))
      (exportScale (WallpaperArt desktop)).
Proof.
  destruct (exported_size_fixed (documented CardArt) (WallpaperArt desktop)
              working {| width := 2560; height := 1440 |} eq_refl)
    as (Hsize & Hdoc & _).
  split; [exact Hdoc|exact Hsize].
Defined.

End Exports.

(* ===================================================================== *)
(** * Further properties of the code

    The modules below cover code next to the parts above: the keyboard
    handler of the tabs, the submission of the form and the conversion of
    the contribution calendar, the language statistics, the share
    handlers, the profile details of the banner, the decorations of the
    Universe theme, and more facts about the raster filters and the
    contribution graph. *)
(* ===================================================================== *)

From Stdlib Require Import Sorted.

(* ===================================================================== *)
(** * Keyboard navigation of the tabs (GitHubWallpaperApp.tsx) *)
(* ===================================================================== *)

Module Tabs.
Import Wallpaper.

(** A DOM element, by identity. *)
Definition Element := nat.

Inductive Key := ArrowLeft | ArrowRight | OtherKey.

(** What [handleKeyDown] reads and changes: the focused element and the
    state [selectedTab]. *)
Record State := {
  activeElement : Element;
  selectedTab : Z
}.

(** [arr.indexOf(x)]: the first position of [x], [-1] when it is absent. *)
Fixpoint indexOf (arr : list Element) (x : Element) : Z :=
  match arr with
  | [] => -1
  | y :: rest =>
      if (y =? x)%nat then 0
      else let i := indexOf rest x in if i <? 0 then -1 else i + 1
  end.

(** [arr[i]] for an integer [i]; [None] is [undefined]. *)
Definition at_index (arr : list Element) (i : Z) : option Element :=
  if i <? 0 then None else arr !! Z.to_nat i.

(** The index computed by the two branches on [event.key]. *)
Definition newTabIndex (len currentTabIndex : Z) (key : Key) : Z :=
  match key with
  | ArrowLeft =>
      if currentTabIndex =? 0 then len - 1 else currentTabIndex - 1
  | ArrowRight =>
      if currentTabIndex =? len - 1 then 0 else currentTabIndex + 1
  | OtherKey => currentTabIndex
  end.

(** [handleKeyDown], for a key pressed on a tab of the list [tabElements]:
    the tab at the new index receives the focus and becomes the selected
    one; calling [focus] on [undefined] throws. *)
Definition handleKeyDown (tabElements : list Element) (key : Key) (st : State)
  : Outcome State :=
  let currentTabIndex := indexOf tabElements (activeElement st) in
  let newTabIndex :=
    newTabIndex (Z.of_nat (length tabElements)) currentTabIndex key in
  if newTabIndex =? currentTabIndex then Ok st
  else
    match at_index tabElements newTabIndex with
    | Some tab => Ok {| activeElement := tab; selectedTab := newTabIndex |}
    | None => Throw "TypeError: tabElements[newTabIndex] is undefined"
    end.

(** The three tabs of the application, as elements 0, 1 and 2. *)
Definition tabs : list Element := [0; 1; 2]%nat.

Example handleKeyDown_examples :
  handleKeyDown tabs ArrowRight {| activeElement := 2%nat; selectedTab := 2 |}
  = Ok {| activeElement := 0%nat; selectedTab := 0 |} /\
  handleKeyDown tabs ArrowLeft {| activeElement := 0%nat; selectedTab := 0 |}
  = Ok {| activeElement := 2%nat; selectedTab := 2 |} /\
  handleKeyDown tabs ArrowLeft {| activeElement := 7%nat; selectedTab := 0 |}
  = Throw "TypeError: tabElements[newTabIndex] is undefined".
Proof. repeat split. Qed.

(** ** Facts *)

Lemma indexOf_range (arr : list Element) (x : Element) :
  -1 <= indexOf arr x < Z.of_nat (length arr).
Proof.
  induction arr as [|y rest IH]; cbn [indexOf length]; [lia|].
  destruct (y =? x)%nat; [lia|].
  destruct (Z.ltb_spec (indexOf rest x) 0); lia.
Qed.

(** In a list without repetition the element at position [i] is found at
    position [i]. *)
Lemma indexOf_lookup (arr : list Element) (i : nat) (x : Element) :
  List.NoDup arr -> arr !! i = Some x -> indexOf arr x = Z.of_nat i.
Proof.
  intros Hnd. revert i. induction Hnd as [|y rest Hnotin Hnd IH]; intros i Hi.
  - destruct i; discriminate Hi.
  - cbn [indexOf]. destruct i as [|i]; cbn in Hi.
    + injection Hi as ->. rewrite Nat.eqb_refl. reflexivity.
    + destruct (Nat.eqb_spec y x) as [->|Hne].
      * exfalso. apply Hnotin. apply list_elem_of_In.
        apply (list_elem_of_lookup_2 _ _ _ Hi).
      * rewrite (IH _ Hi).
        destruct (Z.ltb_spec (Z.of_nat i) 0); lia.
Qed.

Lemma at_index_nat (arr : list Element) (i : nat) :
  at_index arr (Z.of_nat i) = arr !! i.
Proof.
  unfold at_index. destruct (Z.ltb_spec (Z.of_nat i) 0); [lia|].
  rewrite Nat2Z.id. reflexivity.
Qed.

(** One key press on the tab at position [i] of a list of at least two
    distinct tabs. *)
Lemma handleKeyDown_step (tabElements : list Element) (i : nat) (tab : Element)
    (s : Z) (key : Key) :
  List.NoDup tabElements ->
  (2 <= length tabElements)%nat ->
  tabElements !! i = Some tab ->
  key <> OtherKey ->
  let len := Z.of_nat (length tabElements) in
  let j := match key with
           | ArrowLeft => (Z.of_nat i - 1) mod len
           | _ => (Z.of_nat i + 1) mod len
           end in
  exists tab',
    tabElements !! Z.to_nat j = Some tab' /\
    0 <= j < len /\
    handleKeyDown tabElements key {| activeElement := tab; selectedTab := s |}
    = Ok {| activeElement := tab'; selectedTab := j |}.
Proof.
  intros Hnd Hlen Hi Hkey len j.
  assert (i < length tabElements)%nat as Hlt
    by (apply lookup_lt_is_Some_1; eexists; exact Hi).
  assert (0 <= j < len) as Hj.
  { subst j. destruct key; apply Z.mod_pos_bound; lia. }
  destruct (lookup_lt_is_Some_2 tabElements (Z.to_nat j)) as [tab' Htab']; [lia|].
  exists tab'. split; [exact Htab'|]. split; [exact Hj|].
  unfold handleKeyDown. cbv zeta. cbn [activeElement].
  rewrite (indexOf_lookup _ _ _ Hnd Hi). fold len.
  assert (newTabIndex len (Z.of_nat i) key = j) as ->.
  { subst j. destruct key; cbn [newTabIndex]; [| |congruence].
    - destruct (Z.eqb_spec (Z.of_nat i) 0) as [E|E].
      + rewrite E. replace (0 - 1) with (-1) by lia.
        rewrite <- (Z.mod_add (-1) 1 len) by lia.
        rewrite Z.mod_small by lia. lia.
      + rewrite Z.mod_small by lia. reflexivity.
    - destruct (Z.eqb_spec (Z.of_nat i) (len - 1)) as [E|E].
      + rewrite E. replace (len - 1 + 1) with (0 + 1 * len) by lia.
        rewrite Z.mod_add by lia. reflexivity.
      + rewrite Z.mod_small by lia. reflexivity. }
  assert (j <> Z.of_nat i) as Hmove.
  { subst j. destruct key; [| |congruence].
    - destruct (Z.eq_dec (Z.of_nat i) 0) as [E|E].
      + rewrite E. replace (0 - 1) with (-1) by lia.
        rewrite <- (Z.mod_add (-1) 1 len) by lia.
        rewrite Z.mod_small by lia. lia.
      + rewrite Z.mod_small by lia. lia.
    - destruct (Z.eq_dec (Z.of_nat i) (len - 1)) as [E|E].
      + rewrite E. replace (len - 1 + 1) with (0 + 1 * len) by lia.
        rewrite Z.mod_add by lia. rewrite Z.mod_0_l by lia. lia.
      + rewrite Z.mod_small by lia. lia. }
  destruct (Z.eqb_spec j (Z.of_nat i)) as [E|_]; [contradiction|].
  rewrite <- (Z2Nat.id j) at 1 by lia. rewrite at_index_nat, Htab'.
  reflexivity.
Qed.

(** X1: arrow keys move the focus and the selection cyclically.  On a tab
    list of at least two distinct tabs, a press of ArrowRight on the tab at
    position [i] focuses and selects the tab at position [(i + 1) mod len],
    ArrowLeft the tab at [(i - 1) mod len]: the handler never throws, the
    new position is a position of the list, focus and selection agree
    afterwards, and ArrowLeft undoes ArrowRight (and conversely). *)
Theorem arrow_keys_cycle (tabElements : list Element) (i : nat) (tab : Element)
    (s : Z) :
  List.NoDup tabElements ->
  (2 <= length tabElements)%nat ->
  tabElements !! i = Some tab ->
  let len := Z.of_nat (length tabElements) in
  let here := {| activeElement := tab; selectedTab := Z.of_nat i |} in
  (exists next prev,
     tabElements !! Z.to_nat ((Z.of_nat i + 1) mod len) = Some next /\
     tabElements !! Z.to_nat ((Z.of_nat i - 1) mod len) = Some prev /\
     handleKeyDown tabElements ArrowRight
       {| activeElement := tab; selectedTab := s |}
     = Ok {| activeElement := next; selectedTab := (Z.of_nat i + 1) mod len |} /\
     handleKeyDown tabElements ArrowLeft
       {| activeElement := tab; selectedTab := s |}
     = Ok {| activeElement := prev; selectedTab := (Z.of_nat i - 1) mod len |} /\
     handleKeyDown tabElements ArrowLeft
       {| activeElement := next; selectedTab := (Z.of_nat i + 1) mod len |}
     = Ok here /\
     handleKeyDown tabElements ArrowRight
       {| activeElement := prev; selectedTab := (Z.of_nat i - 1) mod len |}
     = Ok here).
Proof.
  intros Hnd Hlen Hi len here.
  assert (i < length tabElements)%nat as Hlt
    by (apply lookup_lt_is_Some_1; eexists; exact Hi).
  assert (0 <= Z.of_nat i < len) as Hrange by (subst len; lia).
  assert (ArrowRight <> OtherKey) as Hr by discriminate.
  assert (ArrowLeft <> OtherKey) as Hl by discriminate.
  pose proof (handleKeyDown_step tabElements i tab s ArrowRight Hnd Hlen Hi Hr)
    as Hstep.
  cbv beta iota zeta in Hstep. destruct Hstep as (next & Hnext & Hjr & Hright).
  pose proof (handleKeyDown_step tabElements i tab s ArrowLeft Hnd Hlen Hi Hl)
    as Hstep.
  cbv beta iota zeta in Hstep. destruct Hstep as (prev & Hprev & Hjl & Hleft).
  fold len in Hnext, Hprev, Hjr, Hjl, Hright, Hleft.
  exists next, prev.
  split; [exact Hnext|]. split; [exact Hprev|].
  split; [exact Hright|]. split; [exact Hleft|].
  assert (forall a b, (a mod len + b) mod len = (a + b) mod len) as Hmod.
  { intros a b. rewrite Zplus_mod_idemp_l. reflexivity. }
  split.
  - pose proof (handleKeyDown_step tabElements _ next ((Z.of_nat i + 1) mod len)
                  ArrowLeft Hnd Hlen Hnext Hl) as Hstep.
    cbv beta iota zeta in Hstep. destruct Hstep as (back & Hback & _ & Hrun).
    fold len in Hback, Hrun. rewrite Z2Nat.id in Hback, Hrun by lia.
    replace ((Z.of_nat i + 1) mod len - 1)
      with ((Z.of_nat i + 1) mod len + (-1)) in Hback, Hrun by lia.
    rewrite Hmod in Hback, Hrun.
    replace (Z.of_nat i + 1 + -1) with (Z.of_nat i) in Hback, Hrun by lia.
    rewrite (Z.mod_small (Z.of_nat i)) in Hback, Hrun by lia.
    rewrite Nat2Z.id in Hback. rewrite Hi in Hback. injection Hback as <-.
    exact Hrun.
  - pose proof (handleKeyDown_step tabElements _ prev ((Z.of_nat i - 1) mod len)
                  ArrowRight Hnd Hlen Hprev Hr) as Hstep.
    cbv beta iota zeta in Hstep. destruct Hstep as (back & Hback & _ & Hrun).
    fold len in Hback, Hrun. rewrite Z2Nat.id in Hback, Hrun by lia.
    rewrite Hmod in Hback, Hrun.
    replace (Z.of_nat i - 1 + 1) with (Z.of_nat i) in Hback, Hrun by lia.
    rewrite (Z.mod_small (Z.of_nat i)) in Hback, Hrun by lia.
    rewrite Nat2Z.id in Hback. rewrite Hi in Hback. injection Hback as <-.
    exact Hrun.
Qed.

Lemma arrow_keys_cycle_witness :
  exists next prev,
    tabs !! Z.to_nat ((Z.of_nat 2 + 1) mod 3) = Some next /\
    tabs !! Z.to_nat ((Z.of_nat 2 - 1) mod 3) = Some prev /\
    handleKeyDown tabs ArrowRight {| activeElement := 2%nat; selectedTab := 0 |}
    = Ok {| activeElement := next; selectedTab := (Z.of_nat 2 + 1) mod 3 |} /\
    handleKeyDown tabs ArrowLeft {| activeElement := 2%nat; selectedTab := 0 |}
    = Ok {| activeElement := prev; selectedTab := (Z.of_nat 2 - 1) mod 3 |} /\
    handleKeyDown tabs ArrowLeft
      {| activeElement := next; selectedTab := (Z.of_nat 2 + 1) mod 3 |}
    = Ok {| activeElement := 2%nat; selectedTab := Z.of_nat 2 |} /\
    handleKeyDown tabs ArrowRight
      {| activeElement := prev; selectedTab := (Z.of_nat 2 - 1) mod 3 |}
    = Ok {| activeElement := 2%nat; selectedTab := Z.of_nat 2 |}.
Proof.
  apply (arrow_keys_cycle tabs 2%nat 2%nat 0).
  - repeat constructor; cbn; intuition lia.
  - cbn. lia.
  - reflexivity.
Defined.

(** X2: a key press while the focus is on an element that is not one of
    the tabs.  [indexOf] answers [-1]; ArrowLeft then computes index
    [-2], reads [undefined] from the array and throws on [focus] before
    any state is set; ArrowRight focuses and selects the first tab. *)
Theorem arrow_key_outside_tabs (tabElements : list Element) (x : Element)
    (s : Z) :
  ~ List.In x tabElements ->
  handleKeyDown tabElements ArrowLeft {| activeElement := x; selectedTab := s |}
  = Throw "TypeError: tabElements[newTabIndex] is undefined" /\
  (forall first rest, tabElements = first :: rest ->
     handleKeyDown tabElements ArrowRight
       {| activeElement := x; selectedTab := s |}
     = Ok {| activeElement := first; selectedTab := 0 |}).
Proof.
  intros Hnotin.
  assert (indexOf tabElements x = -1) as Hidx.
  { induction tabElements as [|y rest IH]; [reflexivity|].
    cbn [indexOf]. destruct (Nat.eqb_spec y x) as [->|Hne].
    - exfalso. apply Hnotin. left. reflexivity.
    - rewrite IH by (intros H; apply Hnotin; right; exact H). reflexivity. }
  split.
  - unfold handleKeyDown. cbv zeta. cbn [activeElement]. rewrite Hidx.
    reflexivity.
  - intros first rest ->. unfold handleKeyDown. cbv zeta.
    cbn [activeElement]. rewrite Hidx. cbn [newTabIndex length].
    destruct (Z.eqb_spec (-1) (Z.of_nat (S (length rest)) - 1)); [lia|].
    reflexivity.
Qed.

Lemma arrow_key_outside_tabs_witness :
  handleKeyDown tabs ArrowLeft {| activeElement := 7%nat; selectedTab := 1 |}
  = Throw "TypeError: tabElements[newTabIndex] is undefined".
Proof.
  apply (arrow_key_outside_tabs tabs 7%nat 1).
  cbn. intuition lia.
Defined.

End Tabs.
(* ===================================================================== *)
(** * Loading a profile (GitHubWallpaperApp.tsx) *)
(* ===================================================================== *)

Module Submit.
Import Num App Wallpaper.

(** ** What the network answers *)

(** A value caught by a [catch] clause: an [Error] with its message, or
    anything else. *)
Inductive Thrown :=
  | ErrorObject (message : string)
  | OtherValue.

(** The body of a response: [await response.json()] rejects with [e]
    ([Unreadable]); or it parses to [null] or to a primitive value, on
    which writing a property throws [e] ([NotAnObject]); or it is an
    object. *)
Inductive Body (A : Type) :=
  | Unreadable (e : Thrown)
  | NotAnObject (e : Thrown)
  | Json (a : A).
Arguments Unreadable {A} e.
Arguments NotAnObject {A} e.
Arguments Json {A} a.

(** The result of [await fetch(url)]: the promise rejects, or a response
    with a status arrives. *)
Inductive Reply (A : Type) :=
  | NoResponse (e : Thrown)
  | Response (status : Z) (body : Body A).
Arguments NoResponse {A} e.
Arguments Response {A} status body.

(** [response.ok] *)
Definition ok (status : Z) : bool := (200 <=? status) && (status <=? 299).

(** ** The contributions endpoint

    The JSON of [<user>.contribs], as the conversion reads it.  Numbers
    that are missing are [undefined] (NaN in every use downstream).
    [None] is a value on which the conversion throws a TypeError: [null]
    for a day or a week, anything but an array for [contribution_days]. *)
Record ApiDay := { count : float }.

Record ApiWeek := { contribution_days : option (list (option ApiDay)) }.

Inductive ApiWeeks :=
  | NoWeeks                                (* missing or falsy: [|| []] *)
  | NotAnArray                             (* truthy, without [forEach] *)
  | WeeksArray (ws : list (option ApiWeek)).

Record ApiData := {
  total_contributions : float;
  api_weeks : ApiWeeks
}.

(** [arr.map(f)] and [arr.forEach(x => out.push(f(x)))] for a callback
    that may throw: the first exception ends the traversal. *)
Fixpoint traverse {A B} (f : A -> Outcome B) (arr : list A) : Outcome (list B) :=
  match arr with
  | [] => Ok []
  | x :: rest =>
      match f x with
      | Ok y =>
          match traverse f rest with
          | Ok ys => Ok (y :: ys)
          | Throw e => Throw e
          end
      | Throw e => Throw e
      end
  end.

(** [day => ({ contributionCount: day.count, date: "" })] *)
Definition convertDay (day : option ApiDay) : Outcome (option ContributionDay) :=
  match day with
  | Some d => Ok (Some {| contributionCount := count d; date := "" |})
  | None => Throw "TypeError: day is null"
  end.

(** The callback of [apiWeeks.forEach]. *)
Definition convertWeek (week : option ApiWeek) : Outcome Week :=
  match week with
  | None => Throw "TypeError: week is null"
  | Some w =>
      match contribution_days w with
      | None => Throw "TypeError: week.contribution_days.map is not a function"
      | Some days =>
          match traverse convertDay days with
          | Ok contributionDays => Ok {| contributionDays := Some contributionDays |}
          | Throw e => Throw e
          end
      end
  end.

(** The conversion of the API format, inside the [try] block. *)
Definition convert (data : ApiData) : Outcome ContributionData :=
  let totalContributions := or_zero (total_contributions data) in
  match api_weeks data with
  | NoWeeks => Ok {| totalContributions := totalContributions; weeks := [] |}
  | NotAnArray => Throw "TypeError: apiWeeks.forEach is not a function"
  | WeeksArray apiWeeks =>
      match traverse convertWeek apiWeeks with
      | Ok weeks => Ok {| totalContributions := totalContributions; weeks := weeks |}
      | Throw e => Throw e
      end
  end.

(** The value returned when the fetch fails. *)
Definition emptyContributions : ContributionData :=
  {| totalContributions := 0; weeks := [] |}.

(** [encodeURIComponent] throws a URIError on a string with a lone
    surrogate; [encodable] tells the strings it accepts. *)
Definition is_high_surrogate (c : code_unit) : bool :=
  ((55296 <=? c) && (c <=? 56319))%N.

Definition is_low_surrogate (c : code_unit) : bool :=
  ((56320 <=? c) && (c <=? 57343))%N.

Fixpoint encodable (s : jsstring) : bool :=
  match s with
  | [] => true
  | c :: rest =>
      if is_high_surrogate c then
        match rest with
        | d :: rest' => is_low_surrogate d && encodable rest'
        | [] => false
        end
      else if is_low_surrogate c then false
      else encodable rest
  end.

(** The name for which [fetchContributionData] sends its request (the
    name is normalized once more and then URI-encoded): none when the
    encoding throws. *)
Definition contributionsRequest (username : jsstring) : option jsstring :=
  let cleanUsername := getCleanUsername username in
  if encodable cleanUsername then Some cleanUsername else None.

(** [fetchContributionData]: the [try] block returns the converted data,
    falls through (status not ok) or throws; in the last two cases the
    function returns the empty data.  On the body [null] the read of
    [data.total_contributions] throws; a primitive body has neither
    property and is converted to the same empty data. *)
Definition fetchContributionData (username : jsstring) (reply : Reply ApiData)
  : ContributionData :=
  let attempt : Outcome (option ContributionData) :=
    match contributionsRequest username with
    | None => Throw "URIError: URI malformed"
    | Some _ =>
        match reply with
        | NoResponse _ => Throw "fetch failed"
        | Response status body =>
            if ok status then
              match body with
              | Unreadable _ => Throw "response.json() failed"
              | NotAnObject _ => Throw "TypeError: data is null"
              | Json data =>
                  match convert data with
                  | Ok c => Ok (Some c)
                  | Throw e => Throw e
                  end
              end
            else Ok None
        end
    end in
  match attempt with
  | Ok (Some c) => c
  | Ok None | Throw _ => emptyContributions
  end.

(** A week of the API that the conversion accepts. *)
Definition well_formed_week (week : option ApiWeek) : bool :=
  match week with
  | Some {| contribution_days := Some days |} =>
      forallb (fun day => match day with Some _ => true | None => false end) days
  | _ => false
  end.

(** The converted form of an accepted week. *)
Definition converted_day (day : option ApiDay) : option ContributionDay :=
  match day with
  | Some d => Some {| contributionCount := count d; date := "" |}
  | None => None
  end.

Definition converted_week (week : option ApiWeek) : Week :=
  match week with
  | Some {| contribution_days := Some days |} =>
      {| contributionDays := Some (map converted_day days) |}
  | _ => {| contributionDays := None |}
  end.

(** Data that the renderer can draw without meeting [undefined]. *)
Definition complete_week (week : Week) : bool :=
  match contributionDays week with
  | Some days =>
      forallb (fun day => match day with Some _ => true | None => false end) days
  | None => false
  end.

(** ** The form *)

Record Form := {
  username : jsstring;
  userData : option GitHubUser;
  loading : bool;
  error : string;
  hasSubmitted : bool
}.

(** The handler of the text input. *)
Definition onChange (value : jsstring) (st : Form) : Form :=
  {| username := value;
     userData := userData st;
     loading := loading st;
     error := error st;
     hasSubmitted := if hasSubmitted st then false else hasSubmitted st |}.

(** [(!hasSubmitted || loading) && <PrimaryButton ...>] *)
Definition showGenerate (st : Form) : bool :=
  negb (hasSubmitted st) || loading st.

(** [err instanceof Error ? err.message : "An error occurred"] *)
Definition errorMessage (e : Thrown) : string :=
  match e with
  | ErrorObject message => message
  | OtherValue => "An error occurred"
  end.

(** [data.contributions = contributions] *)
Definition with_contributions (data : GitHubUser) (c : ContributionData)
  : GitHubUser :=
  {| login := login data;
     avatar_url := avatar_url data;
     followers := followers data;
     public_repos := public_repos data;
     contributions := Some c |}.

(** The requests of a submission, by the user name they are made for. *)
Inductive Request :=
  | ProfileRequest (name : jsstring)
  | ContributionsRequest (name : jsstring).

(** One run of [fetchGitHubUser] with no other event in between: the
    state rendered while the requests are in flight (none when nothing is
    sent), the state when the handler has finished and the requests sent. *)
Record Run := {
  pending : option Form;
  settled : Form;
  requests : list Request
}.

Definition fetchGitHubUser (profile : Reply GitHubUser) (contribs : Reply ApiData)
    (st : Form) : Run :=
  let cleanUsername := getCleanUsername (username st) in
  match cleanUsername with
  | [] =>
      {| pending := None;
         settled := {| username := username st;
                       userData := userData st;
                       loading := loading st;
                       error := "Please enter a valid GitHub username";
                       hasSubmitted := hasSubmitted st |};
         requests := [] |}
  | _ =>
      let started :=
        {| username := username st; userData := None; loading := true;
           error := ""; hasSubmitted := true |} in
      let attempt : (Thrown + GitHubUser) * list Request :=
        match profile with
        | NoResponse e => (inl e, [ProfileRequest cleanUsername])
        | Response status body =>
            if negb (ok status) then
              if status =? 404 then
                (inl (ErrorObject "User not found"),
                 [ProfileRequest cleanUsername])
              else
                (inl (ErrorObject "Failed to fetch user data"),
                 [ProfileRequest cleanUsername])
            else
              match body with
              | Unreadable e => (inl e, [ProfileRequest cleanUsername])
              | NotAnObject e =>
                  (inl e,
                   ProfileRequest cleanUsername
                     :: match contributionsRequest cleanUsername with
                        | Some name => [ContributionsRequest name]
                        | None => []
                        end)
              | Json data =>
                  let contributions :=
                    fetchContributionData cleanUsername contribs in
                  (inr (with_contributions data contributions),
                   ProfileRequest cleanUsername
                     :: match contributionsRequest cleanUsername with
                        | Some name => [ContributionsRequest name]
                        | None => []
                        end)
              end
        end in
      {| pending := Some started;
         settled :=
           match fst attempt with
           | inr data =>
               {| username := username st; userData := Some data;
                  loading := false; error := ""; hasSubmitted := true |}
           | inl err =>
               {| username := username st; userData := None;
                  loading := false; error := errorMessage err;
                  hasSubmitted := true |}
           end;
         requests := snd attempt |}
  end.

(** The profile of the examples. *)
Definition mona : GitHubUser :=
  {| login := "octocat"; avatar_url := "https://avatars.githubusercontent.com/u/583231";
     followers := 100; public_repos := 8; contributions := None |}.

Definition typed (name : string) : Form :=
  {| username := of_ascii name; userData := None; loading := false;
     error := ""; hasSubmitted := false |}.

(** A calendar of two weeks, the second one short. *)
Definition two_weeks : ApiData :=
  {| total_contributions := 9;
     api_weeks := WeeksArray
       [ Some {| contribution_days :=
                   Some [Some {| count := 1 |}; Some {| count := 0 |};
                         Some {| count := 2 |}; Some {| count := 0 |};
                         Some {| count := 3 |}; Some {| count := 0 |};
                         Some {| count := 1 |}] |};
         Some {| contribution_days :=
                   Some [Some {| count := 2 |}; Some {| count := 0 |}] |} ] |}.

Example fetchGitHubUser_examples :
  requests (fetchGitHubUser (Response 200 (Json mona))
              (Response 200 (Json two_weeks)) (typed "@@octocat"))
  = [ProfileRequest (of_ascii "@octocat");
     ContributionsRequest (of_ascii "octocat")] /\
  error (settled (fetchGitHubUser (Response 404 (Unreadable OtherValue))
                    (NoResponse OtherValue) (typed "nobody")))
  = "User not found"%string /\
  error (settled (fetchGitHubUser (Response 403 (Unreadable OtherValue))
                    (NoResponse OtherValue) (typed "octocat")))
  = "Failed to fetch user data"%string.
Proof. repeat split. Qed.

(** ** Facts about the conversion *)

Lemma traverse_convertDay (days : list (option ApiDay)) :
  traverse convertDay days
  = if forallb (fun day => match day with Some _ => true | None => false end) days
    then Ok (map converted_day days)
    else Throw "TypeError: day is null".
Proof.
  induction days as [|[d|] days IH]; cbn; [reflexivity| |reflexivity].
  rewrite IH. destruct (forallb _ days); reflexivity.
Qed.

Lemma convertWeek_well_formed (week : option ApiWeek) :
  well_formed_week week = true -> convertWeek week = Ok (converted_week week).
Proof.
  destruct week as [[[days|]]|]; cbn; try discriminate.
  intros H. rewrite traverse_convertDay, H. reflexivity.
Qed.

Lemma convertWeek_malformed (week : option ApiWeek) :
  well_formed_week week = false -> exists e, convertWeek week = Throw e.
Proof.
  destruct week as [[[days|]]|]; cbn; intros H; try (eexists; reflexivity).
  rewrite traverse_convertDay, H. eexists; reflexivity.
Qed.

Lemma traverse_convertWeek (ws : list (option ApiWeek)) :
  if forallb well_formed_week ws
  then traverse convertWeek ws = Ok (map converted_week ws)
  else exists e, traverse convertWeek ws = Throw e.
Proof.
  induction ws as [|w ws IH]; cbn [forallb traverse map]; [reflexivity|].
  destruct (well_formed_week w) eqn:Hw; cbn [andb].
  - rewrite (convertWeek_well_formed _ Hw).
    destruct (forallb well_formed_week ws).
    + rewrite IH. reflexivity.
    + destruct IH as [e ->]. exists e. reflexivity.
  - destruct (convertWeek_malformed _ Hw) as [e ->]. exists e. reflexivity.
Qed.

Lemma complete_converted_week (week : option ApiWeek) :
  well_formed_week week = true -> complete_week (converted_week week) = true.
Proof.
  destruct week as [[[days|]]|]; cbn; try discriminate.
  unfold complete_week. cbn. intros H.
  induction days as [|[d|] days IH]; cbn in *; [reflexivity| |discriminate].
  apply IH, H.
Qed.

(** Whatever the answer of the endpoint, the data returned is complete. *)
Lemma fetchContributionData_complete (username : jsstring)
    (reply : Reply ApiData) :
  forallb complete_week (weeks (fetchContributionData username reply)) = true.
Proof.
  unfold fetchContributionData. cbv zeta.
  destruct (contributionsRequest username); [|reflexivity].
  destruct reply as [e|status [e|e|data]]; try reflexivity;
    destruct (ok status); try reflexivity.
  unfold convert. cbv zeta.
  destruct (api_weeks data) as [| |ws]; try reflexivity.
  pose proof (traverse_convertWeek ws) as Hws.
  destruct (forallb well_formed_week ws) eqn:Hwf.
  - rewrite Hws. cbn [weeks].
    clear Hws. induction ws as [|w ws IH]; [reflexivity|].
    cbn [forallb map] in *. apply andb_prop in Hwf as [Hw Hwf].
    rewrite (complete_converted_week _ Hw), (IH Hwf). reflexivity.
  - destruct Hws as [e ->]. reflexivity.
Qed.

(** ** Facts about the renderer on complete data *)

Lemma daySquares_complete (selectedTheme : ThemeKey) (isStatic : bool)
    (L : Layout) (weekIdx dayIdx : nat) (days : list (option ContributionDay)) :
  forallb (fun day => match day with Some _ => true | None => false end) days
  = true ->
  length (daySquares selectedTheme isStatic L weekIdx dayIdx days) = length days.
Proof.
  revert dayIdx. induction days as [|[d|] days IH]; intros dayIdx H; cbn in *.
  - reflexivity.
  - rewrite (IH (S dayIdx) H). reflexivity.
  - discriminate H.
Qed.

Lemma weekSquares_complete (selectedTheme : ThemeKey) (isStatic : bool)
    (L : Layout) (weekIdx : nat) (ws : list Week) :
  forallb complete_week ws = true ->
  length (weekSquares selectedTheme isStatic L weekIdx ws)
  = list_sum (map daysInWeek ws).
Proof.
  revert weekIdx. induction ws as [|w ws IH]; intros weekIdx H; [reflexivity|].
  cbn [forallb] in H. apply andb_prop in H as [Hw H].
  cbn [weekSquares map]. rewrite length_app, (IH (S weekIdx) H).
  change (list_sum (daysInWeek w :: map daysInWeek ws))
    with (daysInWeek w + list_sum (map daysInWeek ws))%nat.
  unfold complete_week in Hw. unfold weekDays, daysInWeek at 2.
  destruct (contributionDays w) as [days|]; [|discriminate Hw].
  rewrite (daySquares_complete _ _ _ _ _ _ Hw). reflexivity.
Qed.

Lemma forallb_drop {A} (p : A -> bool) (n : nat) (l : list A) :
  forallb p l = true -> forallb p (drop n l) = true.
Proof.
  revert n. induction l as [|x l IH]; intros [|n] H; cbn in *; try reflexivity.
  - exact H.
  - apply andb_prop in H as [_ H]. apply IH, H.
Qed.

Lemma trimStart_nil (s : jsstring) :
  trimStart s = [] <-> forallb is_white_space s = true.
Proof.
  induction s as [|c t IH]; cbn; [tauto|].
  destruct (is_white_space c); cbn; [exact IH|].
  split; discriminate.
Qed.

Lemma trim_nil (s : jsstring) :
  trim s = [] <-> forallb is_white_space s = true.
Proof.
  rewrite <- trimStart_nil. unfold trim. split.
  - intros H. destruct (trimStart s) as [|c t] eqn:E; [reflexivity|].
    assert (is_white_space c = false) as Hc.
    { destruct (is_white_space c) eqn:Hc; [|reflexivity].
      pose proof (trimStart_idem s) as Hidem. rewrite E in Hidem.
      cbn in Hidem. rewrite Hc in Hidem.
      assert (length (trimStart t) <= length t)%nat as Hle.
      { clear. induction t as [|d t IH]; cbn; [lia|].
        destruct (is_white_space d); cbn; lia. }
      rewrite Hidem in Hle. cbn in Hle. lia. }
    rewrite (trimEnd_cons _ _ Hc) in H. discriminate H.
  - intros ->. reflexivity.
Qed.

(** X3: whatever the contributions endpoint answers (no answer, an error
    status, a body that is not JSON, JSON of any shape), the data that
    [fetchContributionData] returns can be drawn: every week has its array
    of days and no entry is missing, so the contribution graph is rendered
    without an exception and without an out-of-bounds read, with exactly
    one square for each day of the last 53 weeks. *)
Theorem fetched_contributions_render (username : jsstring)
    (reply : Reply ApiData) (selectedTheme : ThemeKey) (isStatic : bool)
    (w h : float) :
  let data := fetchContributionData username reply in
  forallb complete_week (weeks data) = true /\
  exists t : Trace,
    contributionSquares selectedTheme isStatic w h (Some data) start
    = Ok (tt, t) /\
    out_of_bounds t = 0%nat /\
    length (squares t) = list_sum (map daysInWeek (recent (weeks data))).
Proof.
  intros data.
  pose proof (fetchContributionData_complete username reply) as Hcomplete.
  fold data in Hcomplete. split; [exact Hcomplete|].
  unfold contributionSquares.
  destruct (Nat.ltb_spec 0 (length (weeks data))) as [Hpos|Hzero].
  - cbv zeta.
    pose proof (weekLoop_run selectedTheme isStatic
                  (layout selectedTheme w h (length (recent (weeks data))))
                  [] (recent (weeks data)) start) as Hrun.
    eexists. split; [exact Hrun|]. split; [reflexivity|].
    cbn [squares start app length].
    apply weekSquares_complete. unfold recent. apply forallb_drop, Hcomplete.
  - exists start. destruct (weeks data); [|cbn in Hzero; lia].
    repeat split; reflexivity.
Qed.

(** X4: the conversion of the calendar is all or nothing.  For a
    successful answer whose [weeks] is an array, either every week is an
    object with an array [contribution_days] without [null] entries, and
    then the result has the total of the answer and one week per week of
    the answer with one day per day and the same counts; or the whole
    answer is dropped: no weeks and total 0, even when the total and all
    other weeks were usable. *)
Theorem contributions_all_or_nothing (username : jsstring) (status : Z)
    (data : ApiData) (ws : list (option ApiWeek)) :
  contributionsRequest username <> None ->
  ok status = true ->
  api_weeks data = WeeksArray ws ->
  let result := fetchContributionData username (Response status (Json data)) in
  (forallb well_formed_week ws = true ->
     result = {| totalContributions := or_zero (total_contributions data);
                 weeks := map converted_week ws |}) /\
  (forallb well_formed_week ws = false -> result = emptyContributions).
Proof.
  intros Hreq Hok Hweeks result. subst result.
  unfold fetchContributionData. cbv zeta.
  destruct (contributionsRequest username); [|congruence].
  rewrite Hok. unfold convert. cbv zeta. rewrite Hweeks.
  pose proof (traverse_convertWeek ws) as Hws.
  split; intros Hwf; rewrite Hwf in Hws.
  - rewrite Hws. reflexivity.
  - destruct Hws as [e ->]. reflexivity.
Qed.

Lemma contributions_all_or_nothing_witness :
  fetchContributionData (of_ascii "octocat") (Response 200 (Json two_weeks))
  = {| totalContributions := or_zero 9;
       weeks := map converted_week
                  [ Some {| contribution_days :=
                              Some [Some {| count := 1 |}; Some {| count := 0 |};
                                    Some {| count := 2 |}; Some {| count := 0 |};
                                    Some {| count := 3 |}; Some {| count := 0 |};
                                    Some {| count := 1 |}] |};
                    Some {| contribution_days :=
                              Some [Some {| count := 2 |};
                                    Some {| count := 0 |}] |} ] |}.
Proof.
  apply (contributions_all_or_nothing (of_ascii "octocat") 200 two_weeks).
  - vm_compute. discriminate.
  - reflexivity.
  - reflexivity.
  - reflexivity.
Defined.

(** X5: the life cycle of a submission.  When the normalized name is not
    empty, the form first shows the loading state (no profile, no error,
    the button shown with its loading label); when the handler has
    finished, whatever the two requests answered, loading is off, the text
    of the input is untouched, the Generate button is hidden, and a
    profile and an error message are never shown together.  Typing in the
    input afterwards brings the button back and keeps the profile. *)
Theorem submit_lifecycle (profile : Reply GitHubUser) (contribs : Reply ApiData)
    (st : Form) :
  getCleanUsername (username st) <> [] ->
  let run := fetchGitHubUser profile contribs st in
  (exists started,
     pending run = Some started /\ loading started = true /\
     userData started = None /\ error started = ""%string /\
     showGenerate started = true) /\
  loading (settled run) = false /\
  hasSubmitted (settled run) = true /\
  username (settled run) = username st /\
  showGenerate (settled run) = false /\
  (userData (settled run) <> None -> error (settled run) = ""%string) /\
  (forall value,
     showGenerate (onChange value (settled run)) = true /\
     userData (onChange value (settled run)) = userData (settled run)).
Proof.
  intros Hname run. subst run. unfold fetchGitHubUser. cbv zeta.
  destruct (getCleanUsername (username st)) as [|c name]; [congruence|].
  cbn [pending settled].
  split; [eexists; repeat split; reflexivity|].
  match goal with
  | |- context [match fst ?a with _ => _ end] => destruct (fst a) as [err|data]
  end; cbn; repeat split; try reflexivity; congruence.
Qed.

Lemma submit_lifecycle_witness :
  loading (settled (fetchGitHubUser (Response 200 (Json mona))
                      (Response 200 (Json two_weeks)) (typed "@octocat")))
  = false /\
  showGenerate (settled (fetchGitHubUser (Response 200 (Json mona))
                           (Response 200 (Json two_weeks)) (typed "@octocat")))
  = false.
Proof.
  destruct (submit_lifecycle (Response 200 (Json mona))
              (Response 200 (Json two_weeks)) (typed "@octocat"))
    as (_ & Hloading & _ & _ & Hbutton & _).
  - vm_compute. discriminate.
  - split; [exact Hloading|exact Hbutton].
Defined.

(** X6: what a submission ends with.  A profile is stored exactly when the
    profile request is answered with a success status and a readable
    body; the profile stored carries the contributions fetched for the
    normalized name, which are always complete.  Status 404 gives the
    message "User not found", any other failure status "Failed to fetch
    user data", and a rejected request, an unreadable body or a body
    that is not an object the message of the error caught. *)
Theorem submit_outcome (profile : Reply GitHubUser) (contribs : Reply ApiData)
    (st : Form) :
  getCleanUsername (username st) <> [] ->
  let final := settled (fetchGitHubUser profile contribs st) in
  (userData final <> None <->
   exists status data,
     profile = Response status (Json data) /\ ok status = true) /\
  (forall data, userData final = Some data ->
     exists c,
       contributions data = Some c /\
       c = fetchContributionData (getCleanUsername (username st)) contribs /\
       forallb complete_week (weeks c) = true) /\
  (forall status body, profile = Response status body -> ok status = false ->
     error final = if status =? 404 then "User not found"%string
                   else "Failed to fetch user data"%string) /\
  (forall e,
     profile = NoResponse e \/
     (exists status, profile = Response status (Unreadable e) /\ ok status = true) ->
     error final = errorMessage e) /\
  (forall e status,
     profile = Response status (NotAnObject e) -> ok status = true ->
     error final = errorMessage e).
Proof.
  intros Hname final. subst final. unfold fetchGitHubUser. cbv zeta.
  destruct (getCleanUsername (username st)) as [|c name] eqn:Hclean;
    [congruence|].
  cbn [settled].
  assert (forall status,
            ok status = false ->
            (if status =? 404
             then (inl (ErrorObject "User not found"),
                   [ProfileRequest (c :: name)])
             else (inl (ErrorObject "Failed to fetch user data"),
                   [ProfileRequest (c :: name)]))
            = (inl (ErrorObject (if status =? 404 then "User not found"
                                 else "Failed to fetch user data")),
               [ProfileRequest (c :: name)]) :> (Thrown + GitHubUser) * list Request)
    as Hfail.
  { intros status _. destruct (status =? 404); reflexivity. }
  destruct profile as [e|status body].
  - cbn [fst userData error]. split; [|split; [|split; [|split]]].
    + split; [congruence|]. intros (status & data & H & _). discriminate H.
    + intros data H. discriminate H.
    + intros status body H. discriminate H.
    + intros e' [H|(status & H & _)]; [|discriminate H].
      injection H as <-. reflexivity.
    + intros e' status H. discriminate H.
  - destruct (ok status) eqn:Hok; cbn [negb].
    + destruct body as [e|e|data]; cbn [fst userData error];
        (split; [|split; [|split; [|split]]]).
      * split; [congruence|]. intros (status' & data & H & _). discriminate H.
      * intros data H. discriminate H.
      * intros status' body H Hok'. injection H as <- _. congruence.
      * intros e' [H|(status' & H & _)]; [discriminate H|].
        injection H as _ <-. reflexivity.
      * intros e' status' H. discriminate H.
      * split; [congruence|]. intros (status' & data & H & _). discriminate H.
      * intros data H. discriminate H.
      * intros status' body H Hok'. injection H as <- _. congruence.
      * intros e' [H|(status' & H & _)]; discriminate H.
      * intros e' status' H _. injection H as _ <-. reflexivity.
      * split; [|congruence]. intros _. exists status, data.
        split; [reflexivity|exact Hok].
      * intros data' H. injection H as <-.
        eexists. split; [reflexivity|]. split; [reflexivity|].
        apply fetchContributionData_complete.
      * intros status' body H Hok'. injection H as <- _. congruence.
      * intros e' [H|(status' & H & _)]; discriminate H.
      * intros e' status' H. discriminate H.
    + rewrite (Hfail status Hok). cbn [fst userData error].
      split; [|split; [|split; [|split]]].
      * split; [congruence|]. intros (status' & data & H & Hok').
        injection H as <- _. congruence.
      * intros data H. discriminate H.
      * intros status' body' H _. injection H as <- _.
        destruct (status =? 404); reflexivity.
      * intros e' [H|(status' & H & Hok')]; [discriminate H|].
        injection H as <- _. congruence.
      * intros e' status' H Hok'. injection H as <- _. congruence.
Qed.

Lemma submit_outcome_witness :
  error (settled (fetchGitHubUser (Response 404 (Unreadable OtherValue))
                    (NoResponse OtherValue) (typed "nobody")))
  = (if 404 =? 404 then "User not found"%string
     else "Failed to fetch user data"%string).
Proof.
  destruct (submit_outcome (Response 404 (Unreadable OtherValue))
              (NoResponse OtherValue) (typed "nobody"))
    as (_ & _ & Hstatus & _).
  - vm_compute. discriminate.
  - apply (Hstatus 404 (Unreadable OtherValue)); reflexivity.
Defined.

(** X7: a submission sends requests exactly when the text of the input,
    after one optional leading at-sign, contains a character that is not
    white space.  Otherwise nothing is sent and only the error message
    changes: a profile loaded before stays on screen next to the message,
    and the loading and submitted flags keep their values. *)
Theorem blank_submit_sends_nothing (profile : Reply GitHubUser)
    (contribs : Reply ApiData) (st : Form) :
  let run := fetchGitHubUser profile contribs st in
  (requests run = [] <-> forallb is_white_space (strip_at (username st)) = true) /\
  (forallb is_white_space (strip_at (username st)) = true ->
     pending run = None /\
     error (settled run) = "Please enter a valid GitHub username"%string /\
     userData (settled run) = userData st /\
     username (settled run) = username st /\
     loading (settled run) = loading st /\
     hasSubmitted (settled run) = hasSubmitted st).
Proof.
  intros run. subst run.
  pose proof (trim_nil (strip_at (username st))) as Hnil.
  fold (getCleanUsername (username st)) in Hnil.
  unfold fetchGitHubUser. cbv zeta.
  destruct (getCleanUsername (username st)) as [|c name].
  - split; [split; [intros _; apply Hnil; reflexivity|reflexivity]|].
    intros _. repeat split; reflexivity.
  - assert (forallb is_white_space (strip_at (username st)) <> true) as Hne.
    { intros H. apply Hnil in H. discriminate H. }
    split; [|intros H; contradiction].
    split; [|intros H; contradiction].
    cbn [requests]. intros H. exfalso.
    destruct profile as [e|status body]; [discriminate H|].
    destruct (negb (ok status)); [destruct (status =? 404); discriminate H|].
    destruct body as [e|e|data]; discriminate H.
Qed.



End Submit.
(* ===================================================================== *)
(** * Repository statistics (ReadmeBanner.tsx, DevemonCard.tsx) *)
(* ===================================================================== *)

Module Stats.
Import Num App.

(** The fields of a repository that [fetchExtendedStats] reads.  Missing
    numbers are [undefined] (NaN); [language] is [None] for [null]. *)
Record Repo := {
  stargazers_count : float;
  forks_count : float;
  language : option jsstring
}.

(** [languageCount]: the properties of the object in insertion order,
    which is the order of [Object.entries] for keys that are not array
    indices.  The object is created by [{}], so a name that
    [Object.prototype] defines would be read from the prototype; the
    model is the code for the names accepted by [ordinary_key]. *)
Definition Counts := list (jsstring * nat).

(** The property names of [Object.prototype]. *)
Definition prototype_keys : list jsstring :=
  map of_ascii
    [ "constructor"; "__defineGetter__"; "__defineSetter__"; "hasOwnProperty";
      "__lookupGetter__"; "__lookupSetter__"; "isPrototypeOf";
      "propertyIsEnumerable"; "toString"; "valueOf"; "__proto__";
      "toLocaleString" ]%string.

(** An array index is written with decimal digits only; names made of
    digits only are not accepted, nor are the names of the prototype. *)
Definition is_digit (c : code_unit) : bool := ((48 <=? c) && (c <=? 57))%N.

Definition ordinary_key (name : jsstring) : bool :=
  negb (forallb is_digit name)
  && negb (existsb (fun k => bool_decide (k = name)) prototype_keys).

Fixpoint count_of (name : jsstring) (counts : Counts) : nat :=
  match counts with
  | [] => 0
  | (k, v) :: rest => if decide (k = name) then v else count_of name rest
  end.

Fixpoint has_key (name : jsstring) (counts : Counts) : bool :=
  match counts with
  | [] => false
  | (k, _) :: rest => if decide (k = name) then true else has_key name rest
  end.

Fixpoint set_key (name : jsstring) (v : nat) (counts : Counts) : Counts :=
  match counts with
  | [] => [(name, v)]
  | (k, w) :: rest =>
      if decide (k = name) then (k, v) :: rest
      else (k, w) :: set_key name v rest
  end.

(** [languageCount[name] = (languageCount[name] || 0) + 1] *)
Definition bump (name : jsstring) (counts : Counts) : Counts :=
  set_key name (count_of name counts + 1) counts.

(** The language of a repository when [if (repo.language)] holds. *)
Definition spoken (repo : Repo) : option jsstring :=
  match language repo with
  | Some (c :: s) => Some (c :: s)
  | _ => None
  end.

(** The three accumulators of [repos.forEach]. *)
Definition tally (repos : list Repo) : float * float * Counts :=
  fold_left
    (fun '(totalStars, totalForks, languageCount) repo =>
       ((totalStars + or_zero (stargazers_count repo))%float,
        (totalForks + or_zero (forks_count repo))%float,
        match spoken repo with
        | Some name => bump name languageCount
        | None => languageCount
        end))
    repos (0%float, 0%float, []).

(** [entries.sort(([, a], [, b]) => b - a)]: the sort is stable, so the
    result is the one of any stable sort by decreasing count; here by
    insertion. *)
Fixpoint insert_sorted (x : jsstring * nat) (sorted : Counts) : Counts :=
  match sorted with
  | [] => [x]
  | y :: rest =>
      if (snd x <? snd y)%nat then y :: insert_sorted x rest
      else x :: y :: rest
  end.

Fixpoint sort (entries : Counts) : Counts :=
  match entries with
  | [] => []
  | x :: rest => insert_sorted x (sort rest)
  end.

(** The banner keeps five languages with their counts. *)
Record BannerStats := {
  totalStars : float;
  totalForks : float;
  topLanguages : list (jsstring * nat)
}.

(** The card keeps the names of three. *)
Record CardStats := {
  cardStars : float;
  cardForks : float;
  cardLanguages : list jsstring
}.

Definition bannerStats (repos : list Repo) : BannerStats :=
  let '(totalStars, totalForks, languageCount) := tally repos in
  {| totalStars := totalStars; totalForks := totalForks;
     topLanguages := take 5 (sort languageCount) |}.

Definition cardStats (repos : list Repo) : CardStats :=
  let '(totalStars, totalForks, languageCount) := tally repos in
  {| cardStars := totalStars; cardForks := totalForks;
     cardLanguages := map fst (take 3 (sort languageCount)) |}.

(** The languages of the repositories that have one, in order. *)
Fixpoint languages (repos : list Repo) : list jsstring :=
  match repos with
  | [] => []
  | repo :: rest =>
      match spoken repo with
      | Some name => name :: languages rest
      | None => languages rest
      end
  end.

(** The number of repositories written in [name]. *)
Fixpoint repos_in (name : jsstring) (repos : list Repo) : nat :=
  match repos with
  | [] => 0
  | repo :: rest =>
      (if decide (spoken repo = Some name) then 1 else 0) + repos_in name rest
  end.

(** Entries in decreasing order of their counts. *)
Definition by_count (a b : jsstring * nat) : Prop := (snd b <= snd a)%nat.

Definition repo_in (name : string) (stars : Z) : Repo :=
  {| stargazers_count := of_Z stars; forks_count := 0;
     language := Some (of_ascii name) |}.

Definition sample_repos : list Repo :=
  [ repo_in "Go" 3; repo_in "Rust" 1; repo_in "Go" 0; repo_in "C" 2;
    {| stargazers_count := 5; forks_count := 1; language := None |};
    repo_in "Rust" 0; repo_in "Go" 7; repo_in "TypeScript" 0;
    repo_in "Shell" 0; repo_in "Ruby" 1 ].

Example bannerStats_example :
  topLanguages (bannerStats sample_repos)
  = [ (of_ascii "Go", 3%nat); (of_ascii "Rust", 2%nat); (of_ascii "C", 1%nat);
      (of_ascii "TypeScript", 1%nat); (of_ascii "Shell", 1%nat) ] /\
  cardLanguages (cardStats sample_repos)
  = [ of_ascii "Go"; of_ascii "Rust"; of_ascii "C" ].
Proof. split; vm_compute; reflexivity. Qed.

(** ** Facts about the counters *)

Lemma count_of_set_key (n m : jsstring) (v : nat) (counts : Counts) :
  count_of n (set_key m v counts)
  = if decide (m = n) then v else count_of n counts.
Proof.
  induction counts as [|[k w] rest IH]; cbn.
  - destruct (decide (m = n)); reflexivity.
  - destruct (decide (k = m)) as [->|Hkm]; cbn.
    + destruct (decide (m = n)); reflexivity.
    + destruct (decide (k = n)) as [->|Hkn].
      * destruct (decide (m = n)); [congruence|reflexivity].
      * exact IH.
Qed.

Lemma keys_set_key (m : jsstring) (v : nat) (counts : Counts) :
  map fst (set_key m v counts)
  = if has_key m counts then map fst counts else map fst counts ++ [m].
Proof.
  induction counts as [|[k w] rest IH]; cbn; [reflexivity|].
  destruct (decide (k = m)) as [->|Hkm]; cbn; [reflexivity|].
  rewrite IH. destruct (has_key m rest); reflexivity.
Qed.

Lemma has_key_In (m : jsstring) (counts : Counts) :
  has_key m counts = true <-> In m (map fst counts).
Proof.
  induction counts as [|[k w] rest IH]; cbn; [split; [discriminate|tauto]|].
  destruct (decide (k = m)) as [->|Hkm]; [tauto|].
  rewrite IH. split; [tauto|]. intros [H|H]; [contradiction|exact H].
Qed.

Lemma count_of_no_key (m : jsstring) (counts : Counts) :
  has_key m counts = false -> count_of m counts = 0%nat.
Proof.
  induction counts as [|[k w] rest IH]; cbn; [reflexivity|].
  destruct (decide (k = m)); [discriminate|exact IH].
Qed.

Lemma count_of_In (n : jsstring) (k : nat) (counts : Counts) :
  List.NoDup (map fst counts) -> In (n, k) counts -> count_of n counts = k.
Proof.
  induction counts as [|[m w] rest IH]; cbn; [tauto|].
  intros Hnd [Heq|Hin].
  - injection Heq as -> ->. destruct (decide (n = n)); [reflexivity|congruence].
  - apply List.NoDup_cons_iff in Hnd as [Hnotin Hnd].
    destruct (decide (m = n)) as [->|Hne]; [|exact (IH Hnd Hin)].
    exfalso. apply Hnotin. apply (in_map fst) in Hin. exact Hin.
Qed.

Lemma In_count_of (n : jsstring) (counts : Counts) :
  has_key n counts = true -> In (n, count_of n counts) counts.
Proof.
  induction counts as [|[m w] rest IH]; cbn; [discriminate|].
  destruct (decide (m = n)) as [->|Hne]; [left; reflexivity|].
  intros H. right. exact (IH H).
Qed.

(** The counters after the languages [names] have been counted. *)
Definition counted (names : list jsstring) (counts : Counts) : Counts :=
  fold_left (fun c name => bump name c) names counts.

Fixpoint occurrences (n : jsstring) (names : list jsstring) : nat :=
  match names with
  | [] => 0
  | m :: rest => (if decide (m = n) then 1 else 0) + occurrences n rest
  end.

Lemma counted_count (names : list jsstring) (counts : Counts) (n : jsstring) :
  count_of n (counted names counts)
  = (count_of n counts + occurrences n names)%nat.
Proof.
  revert counts. induction names as [|m rest IH]; intros counts; cbn.
  - lia.
  - unfold counted in IH. rewrite IH. unfold bump.
    rewrite count_of_set_key.
    destruct (decide (m = n)) as [->|Hne]; lia.
Qed.

Lemma counted_NoDup (names : list jsstring) (counts : Counts) :
  List.NoDup (map fst counts) -> List.NoDup (map fst (counted names counts)).
Proof.
  revert counts. induction names as [|m rest IH]; intros counts Hnd; cbn.
  - exact Hnd.
  - apply IH. unfold bump. rewrite keys_set_key.
    destruct (has_key m counts) eqn:Hkey; [exact Hnd|].
    apply List.NoDup_app; [exact Hnd|repeat constructor; intros []|].
    intros x Hx [<-|[]]. apply has_key_In in Hx. congruence.
Qed.

Lemma counted_positive (names : list jsstring) (counts : Counts) :
  Forall (fun e => 1 <= snd e)%nat counts ->
  Forall (fun e => 1 <= snd e)%nat (counted names counts).
Proof.
  revert counts. induction names as [|m rest IH]; intros counts Hpos; cbn.
  - exact Hpos.
  - apply IH. unfold bump. generalize (count_of m counts). intros v.
    induction Hpos as [|[k w] tl Hk Htl IHtl]; cbn.
    + constructor; [cbn; lia|constructor].
    + destruct (decide (k = m)); constructor; cbn in *; try lia; assumption.
Qed.

Lemma tally_counted (repos : list Repo) :
  snd (tally repos) = counted (languages repos) [].
Proof.
  unfold tally.
  assert (forall stars forks counts,
            snd (fold_left
                   (fun '(totalStars, totalForks, languageCount) repo =>
                      ((totalStars + or_zero (stargazers_count repo))%float,
                       (totalForks + or_zero (forks_count repo))%float,
                       match spoken repo with
                       | Some name => bump name languageCount
                       | None => languageCount
                       end))
                   repos (stars, forks, counts))
            = counted (languages repos) counts) as H.
  { induction repos as [|repo rest IH]; intros stars forks counts;
      [reflexivity|].
    cbn [fold_left languages]. rewrite IH.
    destruct (spoken repo) as [name|]; reflexivity. }
  apply H.
Qed.

Lemma occurrences_languages (n : jsstring) (repos : list Repo) :
  occurrences n (languages repos) = repos_in n repos.
Proof.
  induction repos as [|repo rest IH]; [reflexivity|].
  cbn [languages repos_in].
  destruct (spoken repo) as [m|]; cbn [occurrences].
  - rewrite IH. destruct (decide (m = n)) as [->|Hne].
    + destruct (decide (Some n = Some n)); [reflexivity|congruence].
    + destruct (decide (Some m = Some n)); [congruence|reflexivity].
  - rewrite IH. destruct (decide (None = Some n)); [discriminate|reflexivity].
Qed.

(** ** Facts about the sort *)

Lemma insert_sorted_perm (x : jsstring * nat) (l : Counts) :
  Permutation (insert_sorted x l) (x :: l).
Proof.
  induction l as [|y rest IH]; cbn [insert_sorted]; [reflexivity|].
  destruct (snd x <? snd y)%nat; [|reflexivity].
  rewrite IH. apply perm_swap.
Qed.

Lemma sort_perm (l : Counts) : Permutation (sort l) l.
Proof.
  induction l as [|x rest IH]; cbn [sort]; [reflexivity|].
  rewrite insert_sorted_perm, IH. reflexivity.
Qed.

Lemma insert_sorted_sorted (x : jsstring * nat) (l : Counts) :
  StronglySorted by_count l -> StronglySorted by_count (insert_sorted x l).
Proof.
  induction 1 as [|y rest Hsorted IH Hall]; cbn [insert_sorted].
  - constructor; constructor.
  - destruct (Nat.ltb_spec (snd x) (snd y)) as [Hlt|Hge].
    + constructor; [exact IH|].
      apply Forall_forall. intros z Hz. apply list_elem_of_In in Hz.
      apply (Permutation_in _ (insert_sorted_perm x rest)) in Hz.
      destruct Hz as [<-|Hz]; [unfold by_count; lia|].
      rewrite Forall_forall in Hall. apply Hall, list_elem_of_In, Hz.
    + constructor; [constructor; assumption|].
      constructor; [exact Hge|].
      eapply Forall_impl; [exact Hall|].
      intros z Hz. unfold by_count in *. lia.
Qed.

Lemma sort_sorted (l : Counts) : StronglySorted by_count (sort l).
Proof.
  induction l as [|x rest IH]; cbn [sort]; [constructor|].
  apply insert_sorted_sorted, IH.
Qed.

Lemma sorted_app (l1 l2 : Counts) :
  StronglySorted by_count (l1 ++ l2) ->
  StronglySorted by_count l1 /\
  (forall a b, In a l1 -> In b l2 -> by_count a b).
Proof.
  induction l1 as [|x l1 IH]; cbn; intros H.
  - split; [constructor|]. intros a b [].
  - apply StronglySorted_inv in H as [Hs Hall].
    destruct (IH Hs) as [Hs1 Hcross]. split.
    + constructor; [exact Hs1|].
      apply Forall_app in Hall as [Hall _]. exact Hall.
    + intros a b [<-|Ha] Hb; [|exact (Hcross a b Ha Hb)].
      rewrite Forall_forall in Hall. apply Hall, list_elem_of_In.
      apply in_or_app. right. exact Hb.
Qed.

Lemma sorted_lookup (l : Counts) (i j : nat) (a b : jsstring * nat) :
  StronglySorted by_count l -> (i < j)%nat ->
  l !! i = Some a -> l !! j = Some b -> by_count a b.
Proof.
  intros Hs. revert i j. induction Hs as [|x rest Hs IH Hall];
    intros i j Hij Hi Hj; [destruct i; discriminate Hi|].
  destruct j as [|j]; [lia|]. cbn in Hj. destruct i as [|i]; cbn in Hi.
  - injection Hi as <-. rewrite Forall_forall in Hall.
    apply Hall. apply (list_elem_of_lookup_2 _ _ _ Hj).
  - apply (IH i j); [lia|exact Hi|exact Hj].
Qed.

(** ** The ranking *)

(** The first [n] entries of the sorted counters of [repos]. *)
Lemma ranking (n : nat) (repos : list Repo) :
  let top := take n (sort (snd (tally repos))) in
  (length top <= n)%nat /\
  List.NoDup (map fst top) /\
  (forall name k, In (name, k) top ->
     k = repos_in name repos /\ (1 <= k)%nat) /\
  (forall i j a b, (i < j)%nat -> top !! i = Some a -> top !! j = Some b ->
     (snd b <= snd a)%nat) /\
  (forall name, (1 <= repos_in name repos)%nat -> ~ In name (map fst top) ->
     length top = n /\
     forall e, In e top -> (repos_in name repos <= snd e)%nat).
Proof.
  intros top. subst top. rewrite tally_counted.
  set (counts := counted (languages repos) []).
  assert (List.NoDup (map fst counts)) as Hnd
    by (apply counted_NoDup; constructor).
  assert (Forall (fun e => 1 <= snd e)%nat counts) as Hpos
    by (apply counted_positive; constructor).
  assert (forall name, count_of name counts = repos_in name repos) as Hcount.
  { intros name. unfold counts. rewrite counted_count, occurrences_languages.
    reflexivity. }
  pose proof (sort_perm counts) as Hperm.
  pose proof (sort_sorted counts) as Hsorted.
  rewrite <- (take_drop n (sort counts)) in Hsorted, Hperm.
  apply sorted_app in Hsorted as [Htop Hcross].
  assert (forall e, In e (take n (sort counts)) -> In e counts) as Hsub.
  { intros e He. apply (Permutation_in _ Hperm). apply in_or_app. left. exact He. }
  split; [rewrite length_take; lia|]. split; [|split; [|split]].
  - assert (List.NoDup (map fst (take n (sort counts) ++ drop n (sort counts))))
      as Hnd'.
    { eapply Permutation_NoDup; [|exact Hnd].
      apply Permutation_map. symmetry. exact Hperm. }
    rewrite map_app in Hnd'. apply NoDup_app_remove_r in Hnd'.
    exact Hnd'.
  - intros name k Hin. apply Hsub in Hin.
    rewrite <- Hcount. rewrite (count_of_In _ _ _ Hnd Hin). split; [reflexivity|].
    rewrite Forall_forall in Hpos.
    apply (Hpos (name, k)), list_elem_of_In, Hin.
  - intros i j a b Hij Hi Hj. apply (sorted_lookup _ i j a b Htop Hij Hi Hj).
  - intros name Hname Hnotin.
    assert (has_key name counts = true) as Hkey.
    { destruct (has_key name counts) eqn:E; [reflexivity|].
      apply count_of_no_key in E. rewrite Hcount in E. lia. }
    apply In_count_of in Hkey. rewrite Hcount in Hkey.
    apply (Permutation_in _ (Permutation_sym Hperm)) in Hkey.
    apply in_app_or in Hkey as [Hkey|Hkey].
    { exfalso. apply Hnotin. apply (in_map fst) in Hkey. exact Hkey. }
    split.
    + rewrite length_take.
      assert (n < length (sort counts))%nat; [|lia].
      destruct (Nat.lt_ge_cases n (length (sort counts))) as [H|H]; [exact H|].
      rewrite drop_ge in Hkey by exact H. destruct Hkey.
    + intros e He. apply (Hcross e _ He Hkey).
Qed.

(** X9: the languages of the banner are a ranking of the repositories
    (for language names that are ordinary property keys).  The list has
    at most five entries with distinct names, which are the keys of the
    rendered items; the count of an entry is the number of repositories
    written in that language (at least one); the entries are in
    decreasing order of their counts; and a language that is used but not
    listed is used by no more repositories than any listed one (the list
    is then full). *)
Theorem top_languages_ranked (repos : list Repo) :
  forallb ordinary_key (languages repos) = true ->
  let top := topLanguages (bannerStats repos) in
  (length top <= 5)%nat /\
  List.NoDup (map fst top) /\
  (forall name k, In (name, k) top ->
     k = repos_in name repos /\ (1 <= k)%nat) /\
  (forall i j a b, (i < j)%nat -> top !! i = Some a -> top !! j = Some b ->
     (snd b <= snd a)%nat) /\
  (forall name, (1 <= repos_in name repos)%nat -> ~ In name (map fst top) ->
     length top = 5%nat /\
     forall e, In e top -> (repos_in name repos <= snd e)%nat).
Proof.
  intros _. pose proof (ranking 5 repos) as H. unfold bannerStats.
  destruct (tally repos) as [[stars forks] counts]. exact H.
Qed.

Lemma top_languages_ranked_witness :
  (length (topLanguages (bannerStats sample_repos)) <= 5)%nat /\
  List.NoDup (map fst (topLanguages (bannerStats sample_repos))).
Proof.
  destruct (top_languages_ranked sample_repos) as (Hlen & Hnd & _).
  - vm_compute. reflexivity.
  - split; [exact Hlen|exact Hnd].
Defined.

(** X10: the card and the banner rank the languages alike.  For the same
    repositories (with language names that are ordinary property keys)
    the three languages of the card are the names of the first three
    languages of the banner, so they are distinct, each used by at least
    one repository, and in decreasing order of use. *)
Theorem card_languages_prefix (repos : list Repo) :
  forallb ordinary_key (languages repos) = true ->
  cardLanguages (cardStats repos)
  = take 3 (map fst (topLanguages (bannerStats repos))) /\
  List.NoDup (cardLanguages (cardStats repos)) /\
  (forall name, In name (cardLanguages (cardStats repos)) ->
     (1 <= repos_in name repos)%nat) /\
  (forall i j a b, (i < j)%nat ->
     cardLanguages (cardStats repos) !! i = Some a ->
     cardLanguages (cardStats repos) !! j = Some b ->
     (repos_in b repos <= repos_in a repos)%nat).
Proof.
  intros _. pose proof (ranking 3 repos) as (_ & Hnd & Hcount & Hdesc & _).
  unfold cardStats, bannerStats.
  destruct (tally repos) as [[stars forks] counts].
  cbn [cardLanguages topLanguages snd] in *.
  split; [|split; [exact Hnd|split]].
  - rewrite <- fmap_take, take_take. reflexivity.
  - intros name Hin. apply in_map_iff in Hin as ([name' k] & <- & Hin).
    cbn [fst]. destruct (Hcount _ _ Hin) as [Hk Hpos]. lia.
  - intros i j a b Hij Hi Hj.
    apply list_lookup_fmap_Some in Hi as ([a' ka] & -> & Hi).
    apply list_lookup_fmap_Some in Hj as ([b' kb] & -> & Hj).
    pose proof (Hdesc i j _ _ Hij Hi Hj) as Hle. cbn [fst snd] in Hle |- *.
    destruct (Hcount a' ka) as [Ha _];
      [apply list_elem_of_In, (list_elem_of_lookup_2 _ _ _ Hi)|].
    destruct (Hcount b' kb) as [Hb _];
      [apply list_elem_of_In, (list_elem_of_lookup_2 _ _ _ Hj)|].
    lia.
Qed.

Lemma card_languages_prefix_witness :
  cardLanguages (cardStats sample_repos)
  = take 3 (map fst (topLanguages (bannerStats sample_repos))).
Proof.
  apply (card_languages_prefix sample_repos).
  vm_compute. reflexivity.
Defined.

End Stats.
(* ===================================================================== *)
(** * Sharing (WallpaperGenerator.tsx, ReadmeBanner.tsx, DevemonCard.tsx) *)
(* ===================================================================== *)

Module Share.
Import App Wallpaper Exports.

Inductive Network := Twitter | Bluesky | Threads | Instagram.

(** The four kinds of message that the handlers show with [alert]. *)
Inductive Notice := StillLoading | Copied | CopyFailed | RenderFailed.

(** What a share handler does, in order.  A clipboard write is recorded
    when it succeeds, with the size of the PNG and, for a wallpaper, what
    it was drawn from; a window is recorded with the delay of its
    [setTimeout], 0 when it is opened at once. *)
Inductive Effect :=
  | Alert (notice : Notice)
  | ConsoleError
  | ClipboardWrite (size : Size) (source : option SvgInput)
  | Navigate (url : string)
  | WindowOpen (network : Network) (name features : string) (delay : Z).

Definition windowName (n : Network) : string :=
  match n with
  | Twitter => "twitter-share-dialog"
  | Bluesky => "bluesky-share-dialog"
  | Threads => "threads-share-dialog"
  | Instagram => "instagram-share"
  end.

Definition dimensions (n : Network) : string :=
  match n with
  | Twitter => "width=626,height=436"
  | _ => "width=626,height=600"
  end.

Definition chrome : string := ",toolbar=0,menubar=0,location=0,status=0".

(** The last statements of both branches of a handler: the composer of
    the network, or for Instagram the application link followed, 1500 ms
    later, by the web site. *)
Definition openComposer (n : Network) (features : string) : list Effect :=
  match n with
  | Instagram =>
      [ Navigate "instagram://library";
        WindowOpen Instagram "instagram-share" "width=626,height=600" 1500 ]
  | _ => [ WindowOpen n (windowName n) features 0 ]
  end.

(** The share handlers of the wallpaper ([handleTwitterShare],
    [handleBlueskyShare], [handleThreadsShare], [handleInstagramShare]);
    [clipboard_ok] tells whether [navigator.clipboard.write] succeeds. *)
Definition shareWallpaper (n : Network) (user : GitHubUser)
    (selectedTheme : ThemeKey) (avatarBase64 : string) (b : Browser)
    (clipboard_ok : bool) : list Effect :=
  if negb (Banner.truthy avatarBase64) then [Alert StillLoading]
  else
    let attempt :=
      match copyToClipboard user selectedTheme avatarBase64 desktop b with
      | Ok blob =>
          if clipboard_ok then Ok blob
          else Throw "NotAllowedError: write permission denied"
      | Throw e => Throw e
      end in
    match attempt with
    | Ok blob =>
        [ClipboardWrite (png_size blob) (Some (png_of blob)); Alert Copied]
          ++ openComposer n (dimensions n ++ chrome)
    | Throw _ =>
        [ConsoleError; Alert CopyFailed] ++ openComposer n (dimensions n)
    end.

(** The elements that the other two components share. *)
Inductive Shareable := BannerElement | CardElement.

Definition artifact (e : Shareable) : Artifact :=
  match e with
  | BannerElement => BannerArt
  | CardElement => CardArt
  end.

(** The share handlers of the banner and of the card: [attached] tells
    whether the ref holds the element, [renders] whether html2canvas
    resolves, [blob_ok] whether [toBlob] passes a blob and not [null]. *)
Definition shareElement (e : Shareable) (cardBox : Size) (n : Network)
    (attached renders blob_ok clipboard_ok : bool) : list Effect :=
  if negb attached then []
  else if negb renders then [ConsoleError; Alert RenderFailed]
  else
    let canvas :=
      html2canvas (box cardBox (artifact e)) (exportScale (artifact e)) in
    if blob_ok then
      if clipboard_ok then
        [ClipboardWrite canvas None; Alert Copied]
          ++ openComposer n (dimensions n)
      else [ConsoleError; Alert CopyFailed]
    else [].

(** The networks for which a window is opened, the messages shown and the
    images put on the clipboard. *)
Definition opened (effects : list Effect) : list Network :=
  flat_map (fun e => match e with WindowOpen n _ _ _ => [n] | _ => [] end)
    effects.

Definition notices (effects : list Effect) : list Notice :=
  flat_map (fun e => match e with Alert m => [m] | _ => [] end) effects.

Definition copied (effects : list Effect) : list (Size * option SvgInput) :=
  flat_map
    (fun e => match e with ClipboardWrite s i => [(s, i)] | _ => [] end)
    effects.

Lemma opened_openComposer (n : Network) (features : string) :
  opened (openComposer n features) = [n].
Proof. destruct n; reflexivity. Qed.

Lemma notices_openComposer (n : Network) (features : string) :
  notices (openComposer n features) = [].
Proof. destruct n; reflexivity. Qed.

Lemma copied_openComposer (n : Network) (features : string) :
  copied (openComposer n features) = [].
Proof. destruct n; reflexivity. Qed.

(** X11: sharing a wallpaper.  While the avatar is not loaded the handler
    only shows a message.  Once it is loaded, the composer of the chosen
    network is opened exactly once and exactly one message is shown,
    whether or not the image could be produced and copied; what is copied,
    if anything, is always the static desktop wallpaper of 2560 x 1440
    drawn with the current avatar, and it is copied exactly when the
    canvas, the image, the blob and the clipboard all work. *)
Theorem wallpaper_share_opens_composer (n : Network) (user : GitHubUser)
    (selectedTheme : ThemeKey) (avatarBase64 : string) (b : Browser)
    (clipboard_ok : bool) :
  let effects := shareWallpaper n user selectedTheme avatarBase64 b clipboard_ok in
  let works :=
    has_context b && image_loads b && blob_created b && clipboard_ok in
  if Banner.truthy avatarBase64 then
    opened effects = [n] /\
    notices effects = [if works then Copied else CopyFailed] /\
    copied effects
    = (if works then
         [({| width := 2560; height := 1440 |},
           Some {| svg_width := 2560; svg_height := 1440; svg_static := true;
                   svg_user := user; svg_theme := selectedTheme;
                   svg_avatar := avatarBase64 |})]
       else [])
  else effects = [Alert StillLoading].
Proof.
  intros effects works. subst effects works. unfold shareWallpaper.
  destruct (Banner.truthy avatarBase64) eqn:Havatar; cbn [negb];
    [|reflexivity].
  unfold copyToClipboard. cbv zeta. rewrite Havatar. cbn [negb].
  destruct (has_context b), (image_loads b), (blob_created b), clipboard_ok;
    cbn [negb andb];
    unfold opened, notices, copied; rewrite !flat_map_app;
    fold (opened (openComposer n (dimensions n ++ chrome)));
    fold (opened (openComposer n (dimensions n)));
    fold (notices (openComposer n (dimensions n ++ chrome)));
    fold (notices (openComposer n (dimensions n)));
    fold (copied (openComposer n (dimensions n ++ chrome)));
    fold (copied (openComposer n (dimensions n)));
    rewrite ?opened_openComposer, ?notices_openComposer, ?copied_openComposer;
    repeat split.
Qed.

(** X12: sharing the banner or the card.  The composer is opened only
    after the image has been copied: exactly when the element is mounted,
    html2canvas renders it, [toBlob] yields a blob and the clipboard
    accepts it; the image copied is the box of the element at the export
    scale (2560 x 640 for the banner).  When the element is missing or
    [toBlob] yields [null] the handler does nothing at all, not even a
    message; in the two other failures it shows one message and opens
    nothing. *)
Theorem element_share_needs_copy (e : Shareable) (cardBox : Size) (n : Network)
    (attached renders blob_ok clipboard_ok : bool) :
  let effects :=
    shareElement e cardBox n attached renders blob_ok clipboard_ok in
  let works := attached && renders && blob_ok && clipboard_ok in
  opened effects = (if works then [n] else []) /\
  copied effects
  = (if works then
       [(html2canvas (box cardBox (artifact e)) (exportScale (artifact e)), None)]
     else []) /\
  (e = BannerElement -> works = true ->
   copied effects = [({| width := 2560; height := 640 |}, None)]) /\
  (attached = false \/ (renders = true /\ blob_ok = false) -> effects = []) /\
  (attached = true -> renders = false -> notices effects = [RenderFailed]) /\
  (attached = true -> renders = true -> blob_ok = true ->
   notices effects = [if clipboard_ok then Copied else CopyFailed]).
Proof.
  intros effects works. subst effects works. unfold shareElement. cbv zeta.
  destruct attached, renders, blob_ok, clipboard_ok; cbn [negb andb];
    unfold opened, notices, copied; rewrite ?flat_map_app;
    fold (opened (openComposer n (dimensions n)));
    fold (notices (openComposer n (dimensions n)));
    fold (copied (openComposer n (dimensions n)));
    rewrite ?opened_openComposer, ?notices_openComposer, ?copied_openComposer;
    (split; [reflexivity|]); (split; [reflexivity|]);
    (split; [try (intros -> _; reflexivity); intros _ H; discriminate H|]);
    (split; [intros [H|[H1 H2]]; try discriminate; reflexivity|]);
    (split; [intros H1 H2; try discriminate; reflexivity|]);
    intros H1 H2 H3; try discriminate; reflexivity.
Qed.

End Share.

(* ===================================================================== *)
(** * Profile details of the banner (ReadmeBanner.tsx) *)
(* ===================================================================== *)

Module Details.
Import App Submit.

(** [s.startsWith(prefix)] *)
Fixpoint startsWith (prefix s : jsstring) : bool :=
  match prefix, s with
  | [], _ => true
  | p :: prefix', c :: s' => (p =? c)%N && startsWith prefix' s'
  | _ :: _, [] => false
  end.

(** The [href] of the website link. *)
Definition websiteHref (blog : jsstring) : jsstring :=
  if startsWith (of_ascii "http") blog then blog
  else of_ascii "https://" ++ blog.

(** [s.replace(/^https?:\/\//, "")] *)
Definition stripScheme (s : jsstring) : jsstring :=
  if startsWith (of_ascii "https://") s then drop 8 s
  else if startsWith (of_ascii "http://") s then drop 7 s
  else s.

Definition slash : code_unit := 47%N.

(** [s.replace(/\/$/, "")] *)
Definition stripSlash (s : jsstring) : jsstring :=
  match rev s with
  | c :: before => if (c =? slash)%N then rev before else s
  | [] => s
  end.

(** The text of the website link. *)
Definition websiteText (blog : jsstring) : jsstring :=
  stripSlash (stripScheme blog).

(** The text between the quotation marks of the bio:
    [bio.length > 120 ? bio.substring(0, 120) + "..." : bio]. *)
Definition shownBio (bio : jsstring) : jsstring :=
  if (120 <? length bio)%nat then take 120 bio ++ of_ascii "..." else bio.

(** A bio of 119 letters followed by an emoji (two code units). *)
Definition bio_with_emoji : jsstring :=
  replicate 119 97%N ++ [55357%N; 56832%N].

Example website_examples :
  websiteHref (of_ascii "octo.cat") = of_ascii "https://octo.cat" /\
  websiteHref (of_ascii "http://octo.cat/") = of_ascii "http://octo.cat/" /\
  websiteText (of_ascii "https://octo.cat/") = of_ascii "octo.cat" /\
  websiteText (of_ascii "octo.cat/blog") = of_ascii "octo.cat/blog" /\
  websiteHref (of_ascii "httpbin.org") = of_ascii "httpbin.org".
Proof. repeat split. Qed.

Lemma startsWith_app (prefix s : jsstring) :
  startsWith prefix (prefix ++ s) = true.
Proof.
  induction prefix as [|p prefix IH]; [reflexivity|].
  cbn. rewrite N.eqb_refl. exact IH.
Qed.

Lemma startsWith_split (prefix s : jsstring) :
  startsWith prefix s = true -> s = prefix ++ drop (length prefix) s.
Proof.
  revert s. induction prefix as [|p prefix IH]; intros s H; [reflexivity|].
  destruct s as [|c s]; [discriminate H|]. cbn in H.
  apply andb_prop in H as [Hp H]. apply N.eqb_eq in Hp as ->.
  cbn. f_equal. apply IH, H.
Qed.

Lemma startsWith_shorter (prefix more s : jsstring) :
  startsWith (prefix ++ more) s = true -> startsWith prefix s = true.
Proof.
  revert s. induction prefix as [|p prefix IH]; intros s H; [reflexivity|].
  destruct s as [|c s]; [discriminate H|]. cbn in H |- *.
  apply andb_prop in H as [Hp H]. rewrite Hp. exact (IH _ H).
Qed.

(** X13: the website link of the banner.  The target of the link always
    begins with "http" and linking is idempotent; the text shown is the
    same for a site given with or without its scheme; and the text is the
    site as entered except for at most one scheme in front ("http://" or
    "https://") and one slash at the end. *)
Theorem website_link (blog : jsstring) :
  startsWith (of_ascii "http") (websiteHref blog) = true /\
  websiteHref (websiteHref blog) = websiteHref blog /\
  websiteText (websiteHref blog) = websiteText blog /\
  exists scheme ending,
    blog = scheme ++ websiteText blog ++ ending /\
    In scheme [[]; of_ascii "http://"; of_ascii "https://"] /\
    In ending [[]; [slash]].
Proof.
  assert (startsWith (of_ascii "http") (websiteHref blog) = true) as Hhttp.
  { unfold websiteHref.
    destruct (startsWith (of_ascii "http") blog) eqn:E; [exact E|reflexivity]. }
  split; [exact Hhttp|]. split; [|split].
  - unfold websiteHref at 1. rewrite Hhttp. reflexivity.
  - unfold websiteHref.
    destruct (startsWith (of_ascii "http") blog) eqn:E; [reflexivity|].
    unfold websiteText. f_equal. unfold stripScheme.
    rewrite startsWith_app.
    change (drop 8 (of_ascii "https://" ++ blog)) with blog.
    destruct (startsWith (of_ascii "https://") blog) eqn:E1.
    { apply (startsWith_shorter (of_ascii "http") (of_ascii "s://")) in E1.
      congruence. }
    destruct (startsWith (of_ascii "http://") blog) eqn:E2.
    { apply (startsWith_shorter (of_ascii "http") (of_ascii "://")) in E2.
      congruence. }
    reflexivity.
  - assert (exists scheme,
              blog = scheme ++ stripScheme blog /\
              In scheme [[]; of_ascii "http://"; of_ascii "https://"])
      as (scheme & Hscheme & Hin).
    { unfold stripScheme.
      destruct (startsWith (of_ascii "https://") blog) eqn:E1.
      - exists (of_ascii "https://"). split; [|right; right; left; reflexivity].
        apply (startsWith_split _ _ E1).
      - destruct (startsWith (of_ascii "http://") blog) eqn:E2.
        + exists (of_ascii "http://"). split; [|right; left; reflexivity].
          apply (startsWith_split _ _ E2).
        + exists []. split; [reflexivity|left; reflexivity]. }
    assert (exists ending,
              stripScheme blog = websiteText blog ++ ending /\
              In ending [[]; [slash]]) as (ending & Hending & Hin').
    { unfold websiteText, stripSlash. generalize (stripScheme blog). intros s.
      destruct (rev s) as [|c before] eqn:E.
      - exists []. rewrite app_nil_r. split; [reflexivity|left; reflexivity].
      - destruct (N.eqb_spec c slash) as [->|Hne].
        + exists [slash]. split; [|right; left; reflexivity].
          rewrite <- (rev_involutive s), E. reflexivity.
        + exists []. rewrite app_nil_r. split; [reflexivity|left; reflexivity]. }
    exists scheme, ending. split; [|split; assumption].
    rewrite <- Hending. exact Hscheme.
Qed.

(** X14: the bio of the banner.  At most 123 code units are shown; a bio
    of at most 120 code units is shown as it is, a longer one is cut after
    120 code units and followed by three dots.  The cut counts UTF-16 code
    units, so it can fall inside a surrogate pair: there are well-formed
    bios that are shown with a lone surrogate. *)
Theorem bio_is_cut (bio : jsstring) :
  (length (shownBio bio) <= 123)%nat /\
  take 120 (shownBio bio) = take 120 bio /\
  ((length bio <= 120)%nat -> shownBio bio = bio) /\
  ((120 < length bio)%nat ->
   shownBio bio = take 120 bio ++ of_ascii "..." /\
   length (shownBio bio) = 123%nat) /\
  (exists emoji_bio,
     encodable emoji_bio = true /\ encodable (shownBio emoji_bio) = false).
Proof.
  assert (exists emoji_bio,
            encodable emoji_bio = true /\
            encodable (shownBio emoji_bio) = false) as Hcut.
  { exists bio_with_emoji. split; vm_compute; reflexivity. }
  unfold shownBio.
  destruct (Nat.ltb_spec 120 (length bio)) as [Hlong|Hshort].
  - assert (length (take 120 bio ++ of_ascii "...") = 123%nat) as Hlen.
    { rewrite length_app, length_take, Nat.min_l by lia. reflexivity. }
    split; [lia|]. split; [|split; [|split]].
    + rewrite take_app_le by (rewrite length_take; lia).
      rewrite take_take. reflexivity.
    + lia.
    + intros _. split; [reflexivity|exact Hlen].
    + exact Hcut.
  - split; [lia|]. split; [reflexivity|]. split; [reflexivity|].
    split; [lia|exact Hcut].
Qed.

End Details.
(* ===================================================================== *)
(** * More on the raster filters (ReadmeBanner.tsx) *)
(* ===================================================================== *)

Module Filters.
Import Num Raster.

(** A row of the grid without any ink. *)
Definition blank_row : string :=
  (flatten (replicate width " "%string) ++ newline)%string.

(** A buffer of whole pixels. *)
Definition whole_pixels (data : list Z) : Prop :=
  (length data mod 4 = 0)%nat /\ Forall valid_channel data.

(** ** Bytes stored in a Uint8ClampedArray *)

(** The finite positive values below 255, by exponent and mantissa. *)
Lemma SFleb_255_finite (m : positive) (e : Z) :
  SFleb (S754_finite false 8972014882652160 (-45))
        (S754_finite false m e) = false ->
  e < -45 \/ (e = -45 /\ Z.pos m < 8972014882652160).
Proof.
  cbv beta iota delta [SFleb SFcompare].
  destruct (Z.compare_spec (-45) e) as [He|He|He]; intros H.
  - right. split; [lia|].
    apply Pos2Z.pos_lt_pos, Pos.gt_lt. unfold Pos.gt, Pos.compare.
    destruct (Pos.compare_cont Eq 8972014882652160 m);
      [discriminate H|discriminate H|reflexivity].
  - discriminate H.
  - left. lia.
Qed.

Lemma array_index_of_Z_byte (n : Z) :
  0 <= n < 256 -> array_index (of_Z n) = Some n.
Proof.
  intros Hn.
  assert (forallb (fun k => option_Z_eqb (array_index (of_Z k)) (Some k))
            (seqZ 0 256) = true) as H by (vm_compute; reflexivity).
  rewrite forallb_forall in H.
  apply option_Z_eqb_eq, H, list_elem_of_In, elem_of_seqZ. lia.
Qed.

(** [Math.floor] of a number strictly between 0 and 255. *)
Lemma floor_index_below_255 (x : float) :
  PrimFloat.is_nan x = false ->
  PrimFloat.leb x 0 = false ->
  PrimFloat.leb 255 x = false ->
  exists n, 0 <= n < 255 /\ array_index (Math_floor x) = Some n.
Proof.
  unfold PrimFloat.is_nan.
  rewrite FloatAxioms.eqb_spec, !FloatAxioms.leb_spec.
  change (Prim2SF 0) with (S754_zero false).
  change (Prim2SF 255) with (S754_finite false 8972014882652160 (-45)).
  unfold Math_floor.
  destruct (Prim2SF x) as [s|s| |s m e] eqn:E; intros Hnan H0 H255.
  - discriminate H0.
  - destruct s; [discriminate H0|discriminate H255].
  - discriminate Hnan.
  - destruct s; [discriminate H0|].
    apply SFleb_255_finite in H255.
    pose proof (valid_mantissa_bound x _ _ _ E) as Hm.
    assert (e <= -45 /\ Z.pos m / 2 ^ (- e) < 255) as [He Hq].
    { destruct H255 as [He|[He Hlt]].
      - split; [lia|]. apply Z.div_lt_upper_bound; [lia|].
        assert (2 ^ 46 <= 2 ^ (- e)) by (apply Z.pow_le_mono_r; lia). lia.
      - assert (2 ^ (- e) = 35184372088832) as -> by (rewrite He; reflexivity).
        split; [lia|]. apply Z.div_lt_upper_bound; lia. }
    destruct (Z.leb_spec 0 e); [lia|].
    cbn [signed]. rewrite Z.shiftl_div_pow2 by lia.
    assert (0 <= Z.pos m / 2 ^ (- e)) by (apply Z.div_pos; lia).
    exists (Z.pos m / 2 ^ (- e)). split; [lia|].
    apply array_index_of_Z_byte. lia.
Qed.

(** Whatever number is stored, the byte kept is in the range 0..255. *)
Lemma toUint8Clamp_range (x : float) : valid_channel (toUint8Clamp x).
Proof.
  unfold valid_channel, toUint8Clamp.
  destruct (PrimFloat.is_nan x) eqn:Hnan; [lia|].
  destruct (PrimFloat.leb x 0) eqn:H0; [lia|].
  destruct (PrimFloat.leb 255 x) eqn:H255; [lia|].
  destruct (floor_index_below_255 x Hnan H0 H255) as (n & Hn & ->).
  cbv zeta.
  destruct (PrimFloat.ltb x (Math_floor x + 0.5)); [lia|].
  destruct (PrimFloat.ltb (Math_floor x + 0.5) x); [lia|].
  destruct (Z.even n); lia.
Qed.

(** The luminosity of a gray colour is its level. *)
Lemma luminosity_gray (v : Z) :
  valid_channel v ->
  toUint8Clamp (luminosity (of_Z v) (of_Z v) (of_Z v)) = v.
Proof.
  intros Hv.
  assert (forallb
            (fun u => toUint8Clamp (luminosity (of_Z u) (of_Z u) (of_Z u)) =? u)
            (seqZ 0 256) = true) as H by (vm_compute; reflexivity).
  rewrite forallb_forall in H. apply Z.eqb_eq, H.
  apply list_elem_of_In, elem_of_seqZ. unfold valid_channel in Hv. lia.
Qed.

(** The bytes of the pixel that contains position [i] of a buffer of
    whole pixels. *)
Lemma pixel_of (data : list Z) (i : nat) :
  (length data mod 4 = 0)%nat -> (i < length data)%nat ->
  exists k c r g b a,
    i = (4 * k + c)%nat /\ (c < 4)%nat /\
    data !! (4 * k)%nat = Some r /\ data !! (4 * k + 1)%nat = Some g /\
    data !! (4 * k + 2)%nat = Some b /\ data !! (4 * k + 3)%nat = Some a.
Proof.
  intros Hlen Hi.
  pose proof (Nat.div_mod_eq i 4) as Hdiv.
  pose proof (Nat.mod_upper_bound i 4) as Hc.
  pose proof (Nat.div_mod_eq (length data) 4) as Hdata.
  rewrite Hlen in Hdata.
  assert (4 * (i / 4) + 3 < length data)%nat as Hend by lia.
  destruct (lookup_lt_is_Some_2 data (4 * (i / 4))) as [r Hr]; [lia|].
  destruct (lookup_lt_is_Some_2 data (4 * (i / 4) + 1)) as [g Hg]; [lia|].
  destruct (lookup_lt_is_Some_2 data (4 * (i / 4) + 2)) as [b Hb]; [lia|].
  destruct (lookup_lt_is_Some_2 data (4 * (i / 4) + 3)) as [a Ha]; [lia|].
  exists (i / 4)%nat, (i mod 4)%nat, r, g, b, a.
  repeat split; try assumption; lia.
Qed.

(** Positions of the colour bytes of pixel [k] after the filter. *)
Lemma grayscalePixels_colour (data : list Z) (k c : nat) (r g b : Z) :
  data !! (4 * k)%nat = Some r -> data !! (4 * k + 1)%nat = Some g ->
  data !! (4 * k + 2)%nat = Some b -> (c < 3)%nat ->
  grayscalePixels data !! (4 * k + c)%nat
  = Some (toUint8Clamp (luminosity (of_Z r) (of_Z g) (of_Z b))).
Proof.
  intros Hr Hg Hb Hc. unfold grayscalePixels.
  apply grayscaleLoop_colour; try assumption; try lia. reflexivity.
Qed.

Lemma grayscalePixels_alpha (data : list Z) (j : nat) :
  (j mod 4 = 3)%nat -> grayscalePixels data !! j = data !! j.
Proof.
  intros Hj. unfold grayscalePixels.
  apply grayscaleLoop_alpha; [reflexivity|exact Hj].
Qed.

Lemma grayscalePixels_valid (data : list Z) :
  whole_pixels data -> Forall valid_channel (grayscalePixels data).
Proof.
  intros [Hlen Hvalid]. apply Forall_lookup. intros i v Hi.
  assert (i < length data)%nat as Hlt.
  { apply lookup_lt_Some in Hi. unfold grayscalePixels in Hi.
    rewrite length_grayscaleLoop in Hi. exact Hi. }
  destruct (pixel_of data i Hlen Hlt)
    as (k & c & r & g & b & a & -> & Hc & Hr & Hg & Hb & Ha).
  destruct (Nat.eq_dec c 3%nat) as [->|Hne].
  - rewrite grayscalePixels_alpha in Hi
      by (rewrite Nat.add_comm, Nat.mul_comm, Nat.Div0.mod_add; reflexivity).
    rewrite Forall_lookup in Hvalid. apply (Hvalid _ _ Hi).
  - rewrite (grayscalePixels_colour data k c r g b Hr Hg Hb) in Hi by lia.
    injection Hi as <-. apply toUint8Clamp_range.
Qed.

(** X15: the grayscale filter on a buffer of whole pixels.  Every byte of
    the result is in the range 0..255; each pixel is gray (its three
    colour bytes are equal) and keeps its alpha byte; a pixel that is
    already gray is not changed; and filtering a second time changes
    nothing. *)
Theorem grayscale_idempotent (data : list Z) :
  whole_pixels data ->
  whole_pixels (grayscalePixels data) /\
  (forall k, (4 * k < length data)%nat ->
     exists v a,
       grayscalePixels data !! (4 * k)%nat = Some v /\
       grayscalePixels data !! (4 * k + 1)%nat = Some v /\
       grayscalePixels data !! (4 * k + 2)%nat = Some v /\
       grayscalePixels data !! (4 * k + 3)%nat = Some a /\
       data !! (4 * k + 3)%nat = Some a) /\
  (forall k v,
     data !! (4 * k)%nat = Some v -> data !! (4 * k + 1)%nat = Some v ->
     data !! (4 * k + 2)%nat = Some v ->
     forall c, (c < 4)%nat ->
       grayscalePixels data !! (4 * k + c)%nat = data !! (4 * k + c)%nat) /\
  grayscalePixels (grayscalePixels data) = grayscalePixels data.
Proof.
  intros Hwhole. pose proof Hwhole as [Hlen Hvalid].
  assert (length (grayscalePixels data) = length data) as Hlength
    by (unfold grayscalePixels; apply length_grayscaleLoop).
  assert (whole_pixels (grayscalePixels data)) as Hwhole'.
  { split; [rewrite Hlength; exact Hlen|].
    apply grayscalePixels_valid, Hwhole. }
  assert (forall k v,
            valid_channel v ->
            data !! (4 * k)%nat = Some v -> data !! (4 * k + 1)%nat = Some v ->
            data !! (4 * k + 2)%nat = Some v ->
            forall c, (c < 4)%nat ->
              grayscalePixels data !! (4 * k + c)%nat = data !! (4 * k + c)%nat)
    as Hgray.
  { intros k v Hv H0 H1 H2 c Hc.
    destruct (Nat.eq_dec c 3%nat) as [->|Hne].
    - apply grayscalePixels_alpha.
      rewrite Nat.add_comm, Nat.mul_comm, Nat.Div0.mod_add. reflexivity.
    - rewrite (grayscalePixels_colour data k c v v v H0 H1 H2) by lia.
      rewrite (luminosity_gray v Hv).
      assert (c = 0 \/ c = 1 \/ c = 2)%nat as [-> | [-> | ->]] by lia.
      + rewrite Nat.add_0_r. symmetry. exact H0.
      + symmetry. exact H1.
      + symmetry. exact H2. }
  split; [exact Hwhole'|]. split; [|split].
  - intros k Hk.
    destruct (pixel_of data (4 * k) Hlen Hk)
      as (k' & c & r & g & b & a & Hkc & Hc & Hr & Hg & Hb & Ha).
    assert (k' = k) as -> by lia.
    exists (toUint8Clamp (luminosity (of_Z r) (of_Z g) (of_Z b))), a.
    pose proof (grayscalePixels_colour data k 0 r g b Hr Hg Hb) as H0.
    rewrite Nat.add_0_r in H0.
    split; [apply H0; lia|].
    split; [apply (grayscalePixels_colour data k 1 r g b Hr Hg Hb); lia|].
    split; [apply (grayscalePixels_colour data k 2 r g b Hr Hg Hb); lia|].
    split; [|exact Ha].
    rewrite grayscalePixels_alpha; [exact Ha|].
    rewrite Nat.add_comm, Nat.mul_comm, Nat.Div0.mod_add. reflexivity.
  - intros k v H0 H1 H2 c Hc. apply (Hgray k v); try assumption.
    rewrite Forall_lookup in Hvalid. apply (Hvalid _ _ H0).
  - apply list_eq. intros i.
    destruct (Nat.lt_ge_cases i (length data)) as [Hi|Hi].
    + destruct (pixel_of data i Hlen Hi)
        as (k & c & r & g & b & a & -> & Hc & Hr & Hg & Hb & Ha).
      set (v := toUint8Clamp (luminosity (of_Z r) (of_Z g) (of_Z b))).
      pose proof (grayscalePixels_colour data k 0 r g b Hr Hg Hb) as H0.
      rewrite Nat.add_0_r in H0. specialize (H0 ltac:(lia)).
      pose proof (grayscalePixels_colour data k 1 r g b Hr Hg Hb ltac:(lia))
        as H1.
      pose proof (grayscalePixels_colour data k 2 r g b Hr Hg Hb ltac:(lia))
        as H2.
      fold v in H0, H1, H2.
      destruct (Nat.eq_dec c 3%nat) as [->|Hne].
      * apply grayscalePixels_alpha.
        rewrite Nat.add_comm, Nat.mul_comm, Nat.Div0.mod_add. reflexivity.
      * rewrite (grayscalePixels_colour _ k c v v v H0 H1 H2) by lia.
        rewrite (luminosity_gray v) by apply toUint8Clamp_range.
        assert (c = 0 \/ c = 1 \/ c = 2)%nat as [-> | [-> | ->]] by lia.
        -- rewrite Nat.add_0_r. symmetry. exact H0.
        -- symmetry. exact H1.
        -- symmetry. exact H2.
    + rewrite !lookup_ge_None_2; [reflexivity|lia|].
      unfold grayscalePixels at 1. rewrite length_grayscaleLoop. lia.
Qed.

Lemma grayscale_idempotent_witness :
  grayscalePixels (grayscalePixels [10; 20; 30; 40; 255; 0; 0; 7])
  = grayscalePixels [10; 20; 30; 40; 255; 0; 0; 7].
Proof.
  apply (grayscale_idempotent [10; 20; 30; 40; 255; 0; 0; 7]).
  split; [reflexivity|].
  repeat constructor; unfold valid_channel; lia.
Defined.

(** ** A transparent image *)

Lemma flatten_replicate_map {A} (f : A -> string) (t : string) (l : list A) :
  (forall x, In x l -> f x = t) -> map f l = replicate (length l) t.
Proof.
  intros H. induction l as [|x l IH]; [reflexivity|].
  cbn. rewrite (H x) by (left; reflexivity).
  rewrite IH by (intros y Hy; apply H; right; exact Hy). reflexivity.
Qed.

(** X16: an image without opaque pixels gives an empty drawing.  When the
    alpha byte of every pixel of the 60 x 40 canvas is below 128, the
    ASCII art is 40 rows of 60 spaces, whatever the colours of the
    pixels. *)
Theorem transparent_image_is_blank (pixels : list Z) :
  grid_buffer pixels ->
  (forall k a, pixels !! (4 * k + 3)%nat = Some a -> a < 128) ->
  asciiFromPixels pixels = flatten (replicate height blank_row) /\
  forall x y, (x < width)%nat -> (y < height)%nat ->
    asciiCell pixels x y = " "%string.
Proof.
  intros [Hlen Hvalid] Halpha.
  assert (forall x y, (x < width)%nat -> (y < height)%nat ->
            asciiCell pixels x y = " "%string) as Hcell.
  { intros x y Hx Hy. unfold width, height in *.
    assert ((y * 60 + x) * 4 + 3 < length pixels)%nat as Hin
      by (rewrite Hlen; unfold width, height; lia).
    destruct (lookup_lt_is_Some_2 pixels ((y * 60 + x) * 4)) as [r Hr]; [lia|].
    destruct (lookup_lt_is_Some_2 pixels ((y * 60 + x) * 4 + 1)) as [g Hg];
      [lia|].
    destruct (lookup_lt_is_Some_2 pixels ((y * 60 + x) * 4 + 2)) as [b Hb];
      [lia|].
    destruct (lookup_lt_is_Some_2 pixels ((y * 60 + x) * 4 + 3)) as [a Ha];
      [lia|].
    rewrite Forall_lookup in Hvalid.
    apply (asciiCell_cases pixels x y r g b a Hr Hg Hb Ha
             (Hvalid _ _ Hr) (Hvalid _ _ Hg) (Hvalid _ _ Hb) (Hvalid _ _ Ha)).
    apply (Halpha (y * 60 + x)%nat).
    replace (4 * (y * 60 + x) + 3)%nat with ((y * 60 + x) * 4 + 3)%nat by lia.
    exact Ha. }
  split; [|exact Hcell].
  rewrite asciiFromPixels_eq. f_equal.
  rewrite (flatten_replicate_map _ blank_row).
  - rewrite length_seq. reflexivity.
  - intros y Hy. apply in_seq in Hy. unfold blank_row. f_equal. f_equal.
    unfold row_cells. rewrite (flatten_replicate_map _ " "%string).
    + rewrite length_seq. reflexivity.
    + intros x Hx. apply in_seq in Hx. apply Hcell; lia.
Qed.

Lemma transparent_image_is_blank_witness :
  asciiFromPixels (replicate (width * height * 4) 0)
  = flatten (replicate height blank_row).
Proof.
  apply (transparent_image_is_blank (replicate (width * height * 4) 0)).
  - split; [apply length_replicate|].
    apply Forall_replicate. unfold valid_channel. lia.
  - intros k a Ha. apply lookup_replicate in Ha as [-> _]. lia.
Defined.

End Filters.
(* ===================================================================== *)
(** * The window of the contribution graph (WallpaperGenerator.tsx) *)
(* ===================================================================== *)

Module Graph.
Import Num App Wallpaper.

(** A calendar week of seven days with [n] contributions each. *)
Definition full_week (n : Z) : Week :=
  {| contributionDays := Some (replicate 7 (day_of n)) |}.

Lemma recent_app (older ws : list Week) :
  length ws = 53%nat -> recent (older ++ ws) = ws.
Proof.
  intros Hlen. unfold recent. rewrite length_app, Hlen.
  replace (length older + 53 - 53)%nat with (length older) by lia.
  apply drop_app_length.
Qed.

Lemma recent_id (ws : list Week) : (length ws <= 53)%nat -> recent ws = ws.
Proof.
  intros Hlen. unfold recent.
  replace (length ws - 53)%nat with 0%nat by lia. reflexivity.
Qed.

Lemma length_recent (ws : list Week) : (length (recent ws) <= 53)%nat.
Proof. unfold recent. rewrite length_drop. lia. Qed.

Lemma weekSquares_bound (selectedTheme : ThemeKey) (isStatic : bool)
    (L : Layout) (weekIdx : nat) (ws : list Week) :
  Forall (fun week => daysInWeek week <= 7)%nat ws ->
  (length (weekSquares selectedTheme isStatic L weekIdx ws) <= 7 * length ws)%nat.
Proof.
  intros H. revert weekIdx. induction H as [|week ws Hweek Hws IH];
    intros weekIdx; [cbn; lia|].
  cbn [weekSquares length]. rewrite length_app.
  specialize (IH (S weekIdx)).
  pose proof (daySquares_length selectedTheme isStatic L weekIdx 0
                (weekDays week)) as Hdays.
  assert (length (weekDays week) = daysInWeek week) as Heq.
  { unfold weekDays, daysInWeek. destruct (contributionDays week); reflexivity. }
  lia.
Qed.

(** X17: the graph shows the last 53 weeks and nothing else.  Weeks
    before the last 53 and the total of the calendar have no influence on
    the squares drawn; and when no week has more than seven days, at most
    371 squares are drawn. *)
Theorem graph_shows_last_53_weeks (selectedTheme : ThemeKey) (isStatic : bool)
    (w h : float) (total total' : float) (older ws : list Week) :
  length ws = 53%nat ->
  contributionSquares selectedTheme isStatic w h
    (Some {| totalContributions := total; weeks := older ++ ws |}) start
  = contributionSquares selectedTheme isStatic w h
      (Some {| totalContributions := total'; weeks := ws |}) start /\
  (forall c : ContributionData,
     Forall (fun week => daysInWeek week <= 7)%nat (weeks c) ->
     exists t,
       contributionSquares selectedTheme isStatic w h (Some c) start
       = Ok (tt, t) /\
       (length (squares t) <= 371)%nat).
Proof.
  intros Hlen. split.
  - unfold contributionSquares. cbn [weeks]. cbv zeta.
    rewrite (recent_app older ws Hlen), (recent_id ws) by lia.
    rewrite length_app, Hlen.
    destruct (Nat.ltb_spec 0 (length older + 53)) as [_|?]; [|lia].
    reflexivity.
  - intros c Hdays. unfold contributionSquares.
    destruct (Nat.ltb_spec 0 (length (weeks c))) as [Hpos|Hzero].
    + cbv zeta.
      pose proof (weekLoop_run selectedTheme isStatic
                    (layout selectedTheme w h (length (recent (weeks c))))
                    [] (recent (weeks c)) start) as Hrun.
      eexists. split; [exact Hrun|]. cbn [squares start app length].
      pose proof (weekSquares_bound selectedTheme isStatic
                    (layout selectedTheme w h (length (recent (weeks c))))
                    0 (recent (weeks c))) as Hbound.
      pose proof (length_recent (weeks c)) as Hrecent.
      assert (Forall (fun week => daysInWeek week <= 7)%nat (recent (weeks c)))
        as Hdays' by (unfold recent; apply Forall_drop, Hdays).
      specialize (Hbound Hdays'). lia.
    + exists start. split; [reflexivity|]. cbn. lia.
Qed.

Lemma graph_shows_last_53_weeks_witness :
  contributionSquares github_dark true 2560 1440
    (Some {| totalContributions := 9;
             weeks := [full_week 4; full_week 2] ++ replicate 53 (full_week 1) |})
    start
  = contributionSquares github_dark true 2560 1440
      (Some {| totalContributions := 0; weeks := replicate 53 (full_week 1) |})
      start.
Proof.
  apply (graph_shows_last_53_weeks github_dark true 2560 1440 9 0
           [full_week 4; full_week 2] (replicate 53 (full_week 1))).
  apply length_replicate.
Defined.

End Graph.

(* ===================================================================== *)
(** * The normalized user name (GitHubWallpaperApp.tsx) *)
(* ===================================================================== *)

Module Clean.
Import App.

Lemma trimStart_split (s : jsstring) :
  exists before,
    s = before ++ trimStart s /\ forallb is_white_space before = true.
Proof.
  induction s as [|c t (before & IH & Hws)]; [exists []; split; reflexivity|].
  cbn [trimStart]. destruct (is_white_space c) eqn:Hc.
  - exists (c :: before). cbn. rewrite Hc, <- IH, Hws. split; reflexivity.
  - exists []. split; reflexivity.
Qed.

Lemma trimStart_head (s : jsstring) (c : code_unit) (t : jsstring) :
  trimStart s = c :: t -> is_white_space c = false.
Proof.
  induction s as [|d s IH]; cbn; [discriminate|].
  destruct (is_white_space d) eqn:Hd; [exact IH|].
  intros H. injection H as <- _. exact Hd.
Qed.

Lemma forallb_rev {A} (p : A -> bool) (l : list A) :
  forallb p (rev l) = forallb p l.
Proof.
  induction l as [|x l IH]; [reflexivity|].
  cbn. rewrite forallb_app, IH. cbn. rewrite andb_true_r. apply andb_comm.
Qed.

Lemma trimEnd_split (s : jsstring) :
  exists after, s = trimEnd s ++ after /\ forallb is_white_space after = true.
Proof.
  destruct (trimStart_split (rev s)) as (before & Heq & Hws).
  exists (rev before). split; [|rewrite forallb_rev; exact Hws].
  unfold trimEnd. rewrite <- rev_app_distr, <- Heq, rev_involutive.
  reflexivity.
Qed.

Lemma trimEnd_last (s rest : jsstring) (c : code_unit) :
  trimEnd s = rest ++ [c] -> is_white_space c = false.
Proof.
  unfold trimEnd. intros H.
  apply (f_equal (@rev code_unit)) in H.
  rewrite rev_involutive, rev_app_distr in H. cbn in H.
  apply (trimStart_head _ _ _ H).
Qed.

(** X18: the normalized user name is the text of the input without one
    leading at-sign and without the white space around it: what is removed
    in front and behind is white space only, the result neither begins
    nor ends with white space, and trimming it again changes nothing. *)
Theorem clean_username_is_trimmed (username : jsstring) :
  let clean := getCleanUsername username in
  (exists before after,
     strip_at username = before ++ clean ++ after /\
     forallb is_white_space before = true /\
     forallb is_white_space after = true) /\
  (forall c rest, clean = c :: rest -> is_white_space c = false) /\
  (forall rest c, clean = rest ++ [c] -> is_white_space c = false) /\
  trim clean = clean.
Proof.
  intros clean. subst clean. unfold getCleanUsername.
  generalize (strip_at username). intros s.
  split; [|split; [|split]].
  - destruct (trimStart_split s) as (before & Hs & Hbefore).
    destruct (trimEnd_split (trimStart s)) as (after & Ht & Hafter).
    exists before, after. unfold trim. rewrite <- Ht, <- Hs.
    repeat split; assumption.
  - intros c rest H. unfold trim in H. rewrite <- trimStart_trimEnd in H.
    apply (trimStart_head _ _ _ H).
  - intros rest c H. unfold trim in H. apply (trimEnd_last _ _ _ H).
  - apply trim_idem.
Qed.

End Clean.

(* ===================================================================== *)
(** * Decorations of the Universe theme (WallpaperGenerator.tsx) *)
(* ===================================================================== *)

Module Decor.
Import Num Raster Wallpaper.

(** The entries of [elementTypes], in order. *)
Inductive Kind := sun | plant | cloud | circle | box.

Definition elementTypes : list Kind := [sun; plant; cloud; circle; box].

Definition gridCols : nat := 10.
Definition gridRows : nat := 8.

(** An element pushed on [elements]: its kind, its cell, and the position
    and size written into its markup (the other attributes, among them
    the random identifiers of the gradients, are left out). *)
Record Decoration := {
  kind : Kind;
  col : nat;
  row : nat;
  x : float;
  y : float;
  elem_width : float;
  elem_height : float
}.

(** [centerInCell(col, row, elemSize)] *)
Definition centerInCell (gridCellWidth gridCellHeight : float) (col row : nat)
    (elemSize : float) : float * float :=
  ((of_nat col * gridCellWidth + (gridCellWidth - elemSize) / 2)%float,
   (of_nat row * gridCellHeight + (gridCellHeight - elemSize) / 2)%float).

(** [elementTypes[i].render(col, row)] *)
Definition render (width height : float) (k : Kind) (col row : nat)
  : Decoration :=
  let gridCellWidth := (width / of_nat gridCols)%float in
  let gridCellHeight := (height / of_nat gridRows)%float in
  let elementSize :=
    (Math_min gridCellWidth gridCellHeight * 0.85)%float in
  let center := centerInCell gridCellWidth gridCellHeight col row in
  match k with
  | sun =>
      {| kind := sun; col := col; row := row;
         x := fst (center (elementSize * 0.9)%float);
         y := snd (center (elementSize * 0.88)%float);
         elem_width := (elementSize * 0.9)%float;
         elem_height := (elementSize * 0.88)%float |}
  | _ =>
      {| kind := k; col := col; row := row;
         x := fst (center elementSize); y := snd (center elementSize);
         elem_width := elementSize; elem_height := elementSize |}
  end.

(** The area kept free for the profile card. *)
Definition in_center (col row : nat) : bool :=
  (3 <=? col)%nat && (col <=? 6)%nat && (2 <=? row)%nat && (row <=? 5)%nat.

(** The two loops of [generateDecorativeElements]; an index outside of
    [elementTypes] would throw, which is recorded by [None]. *)
Definition generateDecorativeElements (width height : float)
  : option (list Decoration) :=
  for_loop gridRows
    (fun row elements =>
       for_loop gridCols
         (fun col elements =>
            if in_center col row then elements
            else
              let elementIndex := ((col + row * 2) mod length elementTypes)%nat in
              match elements, elementTypes !! elementIndex with
              | Some es, Some k => Some (es ++ [render width height k col row])
              | _, _ => None
              end)
         elements)
    (Some []).

(** The cell and the kind of a decoration. *)
Definition cell (d : Decoration) : nat * nat * Kind := (col d, row d, kind d).

Definition kind_eqb (a b : Kind) : bool :=
  match a, b with
  | sun, sun | plant, plant | cloud, cloud | circle, circle | box, box => true
  | _, _ => false
  end.

Definition neighbours (a b : nat * nat * Kind) : bool :=
  let '(c1, r1, _) := a in
  let '(c2, r2, _) := b in
  ((r1 =? r2)%nat && (S c1 =? c2)%nat) || ((c1 =? c2)%nat && (S r1 =? r2)%nat).

(** The cells outside of the centre, row by row. *)
Definition free_cells : list (nat * nat) :=
  flat_map
    (fun row =>
       flat_map (fun col => if in_center col row then [] else [(col, row)])
         (seq 0 gridCols))
    (seq 0 gridRows).

Lemma cells_of_elements (width height : float) :
  exists elements,
    generateDecorativeElements width height = Some elements /\
    map cell elements
    = map (fun '(col, row) =>
             (col, row,
              match ((col + row * 2) mod 5)%nat with
              | 0 => sun | 1 => plant | 2 => cloud | 3 => circle | _ => box
              end)%nat)
        free_cells.
Proof. eexists. split; reflexivity. Qed.

(** X19: the decorations of the Universe theme.  For every size of the
    wallpaper the generator succeeds and places 64 elements, one in each
    cell of the 10 x 8 grid outside of the block of columns 3..6 and rows
    2..5 that is kept free for the profile card, row by row; and two cells
    next to each other, in a row or in a column, never hold the same kind
    of element. *)
Theorem decorations_avoid_center (width height : float) :
  exists elements,
    generateDecorativeElements width height = Some elements /\
    length elements = 64%nat /\
    map (fun d => (col d, row d)) elements = free_cells /\
    (forall d, In d elements ->
       (col d < 10)%nat /\ (row d < 8)%nat /\ in_center (col d) (row d) = false) /\
    (forall a b, In a elements -> In b elements ->
       neighbours (cell a) (cell b) = true -> kind a <> kind b).
Proof.
  destruct (cells_of_elements width height) as (elements & Hrun & Hcells).
  exists elements. split; [exact Hrun|].
  assert (length elements = 64%nat) as Hlen.
  { rewrite <- (length_map cell), Hcells. reflexivity. }
  split; [exact Hlen|]. split; [|split].
  - change (fun d => (col d, row d)) with (fun d => fst (cell d)).
    rewrite <- (map_map cell fst), Hcells, map_map.
    vm_compute. reflexivity.
  - intros d Hd. apply (in_map cell) in Hd. rewrite Hcells in Hd.
    assert (forallb (fun c => let '(co, ro, _) := c in
                      (co <? 10)%nat && (ro <? 8)%nat && negb (in_center co ro))
              (map (fun '(col, row) =>
                      (col, row,
                       match ((col + row * 2) mod 5)%nat with
                       | 0 => sun | 1 => plant | 2 => cloud | 3 => circle
                       | _ => box
                       end)%nat) free_cells) = true) as Hall
      by (vm_compute; reflexivity).
    rewrite forallb_forall in Hall. specialize (Hall _ Hd).
    unfold cell in Hall.
    apply andb_prop in Hall as [Hall Hcenter].
    apply andb_prop in Hall as [Hcol Hrow].
    apply Nat.ltb_lt in Hcol, Hrow. apply negb_true_iff in Hcenter.
    repeat split; assumption.
  - intros a b Ha Hb Hnear Hkind.
    apply (in_map cell) in Ha, Hb. rewrite Hcells in Ha, Hb.
    assert (forallb
              (fun p => forallb
                          (fun q => negb (neighbours p q)
                                    || negb (kind_eqb (snd p) (snd q)))
                          (map (fun '(col, row) =>
                                  (col, row,
                                   match ((col + row * 2) mod 5)%nat with
                                   | 0 => sun | 1 => plant | 2 => cloud
                                   | 3 => circle | _ => box
                                   end)%nat) free_cells))
              (map (fun '(col, row) =>
                      (col, row,
                       match ((col + row * 2) mod 5)%nat with
                       | 0 => sun | 1 => plant | 2 => cloud | 3 => circle
                       | _ => box
                       end)%nat) free_cells) = true) as Hall
      by (vm_compute; reflexivity).
    rewrite forallb_forall in Hall. specialize (Hall _ Ha).
    rewrite forallb_forall in Hall. specialize (Hall _ Hb).
    rewrite Hnear in Hall. cbn [negb orb] in Hall.
    unfold cell in Hall. cbn [snd] in Hall. rewrite Hkind in Hall.
    destruct (kind b); discriminate Hall.
Qed.

End Decor.
(* ===================================================================== *)
(** * Colours of the contribution squares (WallpaperGenerator.tsx) *)
(* ===================================================================== *)

Module Squares.
Import Num App Wallpaper.

(** The style of a day without contributions: the square carries an
    [opacity] attribute. *)
Definition drawn_empty (colour : string * option string) : bool :=
  match snd colour with
  | Some _ => true
  | None => false
  end.

(** The comparisons of [squareColor] on a count that is at least 0. *)
Lemma count_sign (count : float) :
  PrimFloat.leb 0 count = true ->
  PrimFloat.ltb 0 count = negb (PrimFloat.eqb count 0).
Proof.
  rewrite FloatAxioms.leb_spec, FloatAxioms.ltb_spec, FloatAxioms.eqb_spec.
  change (Prim2SF 0) with (S754_zero false).
  destruct (Prim2SF count) as [s|[]| |[] m e]; cbn; congruence.
Qed.

(** The comparisons of [squareColor] on a count that is not at least 0:
    NaN (a missing count) or a negative number. *)
Lemma count_unordered (count bound : float) :
  PrimFloat.leb 0 count = false ->
  PrimFloat.leb 0 bound = true ->
  PrimFloat.eqb count 0 = false /\
  PrimFloat.ltb 0 count = false /\
  PrimFloat.leb bound count = false.
Proof.
  rewrite !FloatAxioms.leb_spec, FloatAxioms.ltb_spec, FloatAxioms.eqb_spec.
  change (Prim2SF 0) with (S754_zero false).
  destruct (Prim2SF count) as [s|[]| |[] m e]; cbn; try congruence;
    intros _; destruct (Prim2SF bound) as [s'|[]| |[] m' e']; cbn;
    try congruence; repeat split.
Qed.

(** X20: which squares are drawn as empty.  For a count that is at least
    0 all themes agree: the square has the style of an empty day exactly
    when the count equals 0.  For a count that is not (a missing count,
    which is NaN, or a negative number) they differ: the blue theme draws
    the square in its lightest contribution colour, every other theme as
    an empty day. *)
Theorem themes_agree_on_empty_days (count : float) (t1 t2 : ThemeKey) :
  (PrimFloat.leb 0 count = true ->
   drawn_empty (squareColor t1 count) = drawn_empty (squareColor t2 count) /\
   drawn_empty (squareColor t1 count) = PrimFloat.eqb count 0) /\
  (PrimFloat.leb 0 count = false ->
   squareColor github_universe_blue count = ("#9EECFF"%string, None) /\
   (is_blue t1 = false ->
    squareColor t1 count = ("#000000"%string, Some "0.2"%string))).
Proof.
  split.
  - intros Hpos.
    assert (forall t, drawn_empty (squareColor t count) = PrimFloat.eqb count 0)
      as H.
    { intros t. unfold squareColor. rewrite (count_sign count Hpos).
      destruct (is_blue t), (PrimFloat.eqb count 0); cbn [negb];
        try reflexivity.
      - destruct (PrimFloat.leb 10 count); [reflexivity|].
        destruct (PrimFloat.leb 5 count); reflexivity.
      - destruct (PrimFloat.leb 15 count); [reflexivity|].
        destruct (PrimFloat.leb 10 count); [reflexivity|].
        destruct (PrimFloat.leb 5 count); [reflexivity|].
        destruct (PrimFloat.leb 2 count); reflexivity. }
    rewrite !H. split; reflexivity.
  - intros Hneg.
    destruct (count_unordered count 10 Hneg eq_refl) as (Heq & Hlt & H10).
    destruct (count_unordered count 5 Hneg eq_refl) as (_ & _ & H5).
    split.
    + unfold squareColor. cbn [is_blue]. rewrite Heq, H10, H5. reflexivity.
    + intros Hblue. unfold squareColor. rewrite Hblue, Hlt. reflexivity.
Qed.

End Squares.
(* ===================================================================== *)
(** * The glyph of a colour (ReadmeBanner.tsx) *)
(* ===================================================================== *)

Module Glyphs.
Import Num Raster.

(** The scaled brightness whose floor is the glyph position:
    [(brightness / 255) * (asciiChars.length - 1)]. *)
Definition scaled (brightness : float) : float :=
  (brightness / 255 * 69)%float.

(** The position in [asciiChars] of the glyph of an opaque pixel. *)
Definition glyphIndex (r g b : Z) : option Z :=
  array_index (charIndex (luminosity (of_Z r) (of_Z g) (of_Z b))).

(** ** Exhaustive checks: the scaled brightness along each channel *)

Lemma check_blue_scaled :
  forallb (fun r =>
    let a := (0.299 * r)%float in
    forallb (fun g =>
      let s := (a + 0.587 * g)%float in
      monotone_on no_condition (fun b => (s + 0.114 * b) / 255 * 69)%float
        channel_floats)
    channel_floats) channel_floats = true.
Proof. vm_compute. reflexivity. Qed.

Lemma check_green_scaled :
  forallb (fun r =>
    let a := (0.299 * r)%float in
    forallb (fun b =>
      let c := (0.114 * b)%float in
      monotone_on no_condition (fun g => (a + 0.587 * g + c) / 255 * 69)%float
        channel_floats)
    channel_floats) channel_floats = true.
Proof. vm_compute. reflexivity. Qed.

Lemma check_red_scaled :
  forallb (fun g =>
    let s := (0.587 * g)%float in
    forallb (fun b =>
      let c := (0.114 * b)%float in
      monotone_on no_condition (fun r => (0.299 * r + s + c) / 255 * 69)%float
        channel_floats)
    channel_floats) channel_floats = true.
Proof. vm_compute. reflexivity. Qed.

Lemma scaled_mono_red r r' g b :
  valid_channel r -> valid_channel r' -> valid_channel g -> valid_channel b ->
  r <= r' ->
  PrimFloat.leb (scaled (luminosity (of_Z r) (of_Z g) (of_Z b)))
                (scaled (luminosity (of_Z r') (of_Z g) (of_Z b))) = true.
Proof.
  intros Hr Hr' Hg Hb Hle. pose proof check_red_scaled as H.
  rewrite forallb_forall in H. specialize (H _ (channel_floats_In _ Hg)).
  cbv zeta in H. rewrite forallb_forall in H.
  specialize (H _ (channel_floats_In _ Hb)).
  destruct (monotone_on_sound _ _ _ H) as [_ Hmono].
  apply (Hmono (Z.to_nat r) (Z.to_nat r')); [lia| |];
    apply channel_floats_lookup; assumption.
Qed.

Lemma scaled_mono_green r g g' b :
  valid_channel r -> valid_channel g -> valid_channel g' -> valid_channel b ->
  g <= g' ->
  PrimFloat.leb (scaled (luminosity (of_Z r) (of_Z g) (of_Z b)))
                (scaled (luminosity (of_Z r) (of_Z g') (of_Z b))) = true.
Proof.
  intros Hr Hg Hg' Hb Hle. pose proof check_green_scaled as H.
  rewrite forallb_forall in H. specialize (H _ (channel_floats_In _ Hr)).
  cbv zeta in H. rewrite forallb_forall in H.
  specialize (H _ (channel_floats_In _ Hb)).
  destruct (monotone_on_sound _ _ _ H) as [_ Hmono].
  apply (Hmono (Z.to_nat g) (Z.to_nat g')); [lia| |];
    apply channel_floats_lookup; assumption.
Qed.

Lemma scaled_mono_blue r g b b' :
  valid_channel r -> valid_channel g -> valid_channel b -> valid_channel b' ->
  b <= b' ->
  PrimFloat.leb (scaled (luminosity (of_Z r) (of_Z g) (of_Z b)))
                (scaled (luminosity (of_Z r) (of_Z g) (of_Z b'))) = true.
Proof.
  intros Hr Hg Hb Hb' Hle. pose proof check_blue_scaled as H.
  rewrite forallb_forall in H. specialize (H _ (channel_floats_In _ Hr)).
  cbv zeta in H. rewrite forallb_forall in H.
  specialize (H _ (channel_floats_In _ Hg)).
  destruct (monotone_on_sound _ _ _ H) as [_ Hmono].
  apply (Hmono (Z.to_nat b) (Z.to_nat b')); [lia| |];
    apply channel_floats_lookup; assumption.
Qed.

(** ** The floor of a binary64 value, by mantissa and exponent *)

Lemma digits2_pos_lower (m : positive) :
  2 ^ (Z.pos (digits2_pos m) - 1) <= Z.pos m.
Proof.
  induction m as [p IH|p IH|]; cbn [digits2_pos].
  - rewrite Pos2Z.inj_succ.
    replace (Z.succ (Z.pos (digits2_pos p)) - 1)
      with (Z.succ (Z.pos (digits2_pos p) - 1)) by lia.
    rewrite Z.pow_succ_r by lia. lia.
  - rewrite Pos2Z.inj_succ.
    replace (Z.succ (Z.pos (digits2_pos p)) - 1)
      with (Z.succ (Z.pos (digits2_pos p) - 1)) by lia.
    rewrite Z.pow_succ_r by lia. lia.
  - reflexivity.
Qed.

(** A finite binary64 value has an exponent of at least -1074, and a
    mantissa of 53 bits when its exponent is larger. *)
Lemma valid_exponent (x : float) s m e :
  Prim2SF x = S754_finite s m e ->
  -1074 <= e /\ (-1074 < e -> 2 ^ 52 <= Z.pos m).
Proof.
  intros E. pose proof (Prim2SF_valid x) as V. rewrite E in V.
  cbn [valid_binary] in V. unfold bounded, canonical_mantissa, fexp in V.
  apply andb_prop in V as [V _]. apply Z.eqb_eq in V.
  unfold FloatOps.prec, emin, FloatOps.emax, FloatOps.prec in V.
  pose proof (digits2_pos_lower m) as D.
  split; [lia|]. intros He.
  assert (Z.pos (digits2_pos m) = 53) as Hd by lia.
  rewrite Hd in D. exact D.
Qed.

(** The order of two finite positive values. *)
Lemma SFleb_finite (m1 m2 : positive) (e1 e2 : Z) :
  SFleb (S754_finite false m1 e1) (S754_finite false m2 e2) = true ->
  e1 < e2 \/ (e1 = e2 /\ Z.pos m1 <= Z.pos m2).
Proof.
  cbv beta iota delta [SFleb SFcompare].
  destruct (Z.compare_spec e1 e2) as [He|He|He]; intros H.
  - right. split; [exact He|].
    apply Pos2Z.pos_le_pos. unfold Pos.le, Pos.compare.
    destruct (Pos.compare_cont Eq m1 m2);
      [discriminate|discriminate|discriminate H].
  - left. exact He.
  - discriminate H.
Qed.

(** What [Math.floor] of a number in the half-open interval from 0 to 70
    indexes. *)
Lemma floor_index_value (t : float) :
  PrimFloat.leb 0 t = true -> PrimFloat.ltb t 70 = true ->
  match Prim2SF t with
  | S754_zero _ => array_index (Math_floor t) = Some 0
  | S754_finite false m e =>
      e <= -46 /\ array_index (Math_floor t) = Some (Z.pos m / 2 ^ (- e))
  | _ => False
  end.
Proof.
  rewrite FloatAxioms.leb_spec, FloatAxioms.ltb_spec.
  change (Prim2SF 0) with (S754_zero false).
  change (Prim2SF 70) with (S754_finite false 4925812092436480 (-46)).
  unfold Math_floor, array_index.
  destruct (Prim2SF t) as [s|s| |s m e] eqn:E; intros H0 H70.
  - rewrite E. reflexivity.
  - destruct s; [discriminate H0|discriminate H70].
  - discriminate H0.
  - destruct s; [discriminate H0|].
    apply SFltb_finite_70 in H70.
    pose proof (valid_mantissa_bound t _ _ _ E) as Hm.
    assert (e <= -46 /\ Z.pos m / 2 ^ (- e) < 70) as [He Hq].
    { destruct H70 as [He|[He Hlt]].
      - split; [lia|]. apply Z.div_lt_upper_bound; [lia|].
        assert (2 ^ 47 <= 2 ^ (- e)) by (apply Z.pow_le_mono_r; lia). lia.
      - assert (2 ^ (- e) = 70368744177664) as -> by (rewrite He; reflexivity).
        split; [lia|]. apply Z.div_lt_upper_bound; lia. }
    split; [exact He|].
    destruct (Z.leb_spec 0 e); [lia|].
    cbn [signed]. rewrite Z.shiftl_div_pow2 by lia.
    assert (0 <= Z.pos m / 2 ^ (- e)) by (apply Z.div_pos; lia).
    fold (array_index (of_Z (Z.pos m / 2 ^ (- e)))).
    apply array_index_of_Z_small. lia.
Qed.

(** The integer parts of two finite positive values with negative
    exponents are in the order of the values. *)
Lemma quotient_mono (t1 t2 : float) (m1 m2 : positive) (e1 e2 : Z) :
  Prim2SF t1 = S754_finite false m1 e1 ->
  Prim2SF t2 = S754_finite false m2 e2 ->
  SFleb (S754_finite false m1 e1) (S754_finite false m2 e2) = true ->
  e1 <= 0 -> e2 <= 0 ->
  Z.pos m1 / 2 ^ (- e1) <= Z.pos m2 / 2 ^ (- e2).
Proof.
  intros E1 E2 Hle He1 He2.
  apply SFleb_finite in Hle as [Hlt|[-> Hm]].
  - pose proof (valid_mantissa_bound t1 _ _ _ E1) as Hm1.
    destruct (valid_exponent t1 _ _ _ E1) as [Hmin1 _].
    destruct (valid_exponent t2 _ _ _ E2) as [_ Hm2].
    specialize (Hm2 ltac:(lia)).
    assert (0 < 2 ^ (- e2)) as Hp2 by (apply Z.pow_pos_nonneg; lia).
    assert (2 ^ (- e2 + 1) <= 2 ^ (- e1)) as Hpow
      by (apply Z.pow_le_mono_r; lia).
    assert (2 ^ (- e2 + 1) = 2 ^ (- e2) * 2) as Hsucc
      by (rewrite Z.pow_add_r by lia; reflexivity).
    apply Z.le_trans with (Z.pos m1 / 2 ^ (- e2 + 1)).
    { apply Z.div_le_compat_l; lia. }
    apply Z.le_trans with (2 ^ 53 / 2 ^ (- e2 + 1)).
    { apply Z.div_le_mono; lia. }
    replace (2 ^ 53) with (2 ^ 52 * 2) by reflexivity.
    rewrite Hsucc, Z.div_mul_cancel_r by lia.
    apply Z.div_le_mono; lia.
  - apply Z.div_le_mono; [apply Z.pow_pos_nonneg; lia|exact Hm].
Qed.

(** [Math.floor] keeps the order of the numbers from 0 to 70. *)
Lemma floor_index_mono (t1 t2 : float) (n1 n2 : Z) :
  PrimFloat.leb 0 t1 = true -> PrimFloat.leb t1 t2 = true ->
  PrimFloat.ltb t2 70 = true ->
  array_index (Math_floor t1) = Some n1 ->
  array_index (Math_floor t2) = Some n2 ->
  n1 <= n2.
Proof.
  intros H0 Hle H70 Hn1 Hn2.
  assert (PrimFloat.ltb t1 70 = true) as H70' by (eapply leb_ltb_trans; eassumption).
  assert (PrimFloat.leb 0 t2 = true) as H0' by (eapply leb_trans; eassumption).
  pose proof (floor_index_value t1 H0 H70') as V1.
  pose proof (floor_index_value t2 H0' H70) as V2.
  rewrite FloatAxioms.leb_spec in Hle.
  destruct (Prim2SF t1) as [s1|s1| |[] m1 e1] eqn:E1; try contradiction;
    destruct (Prim2SF t2) as [s2|s2| |[] m2 e2] eqn:E2; try contradiction.
  - rewrite V1 in Hn1. rewrite V2 in Hn2. injection Hn1 as <-.
    injection Hn2 as <-. lia.
  - destruct V2 as [He2 V2]. rewrite V1 in Hn1. rewrite V2 in Hn2.
    injection Hn1 as <-. injection Hn2 as <-. apply Z.div_pos; lia.
  - discriminate Hle.
  - destruct V1 as [He1 V1]. destruct V2 as [He2 V2].
    rewrite V1 in Hn1. rewrite V2 in Hn2.
    injection Hn1 as <-. injection Hn2 as <-.
    apply (quotient_mono t1 t2 m1 m2 e1 e2 E1 E2 Hle); lia.
Qed.

Lemma scaled_range (r g b : Z) :
  valid_channel r -> valid_channel g -> valid_channel b ->
  PrimFloat.leb 0 (scaled (luminosity (of_Z r) (of_Z g) (of_Z b))) = true /\
  PrimFloat.ltb (scaled (luminosity (of_Z r) (of_Z g) (of_Z b))) 70 = true.
Proof.
  intros Hr Hg Hb.
  pose proof (luminosity_glyph_range r g b Hr Hg Hb) as H.
  unfold glyph_range in H. cbv zeta in H. apply andb_prop in H. exact H.
Qed.

Lemma glyphIndex_scaled (r g b : Z) :
  glyphIndex r g b
  = array_index (Math_floor (scaled (luminosity (of_Z r) (of_Z g) (of_Z b)))).
Proof. unfold glyphIndex, charIndex, scaled. rewrite palette_top. reflexivity. Qed.

Lemma glyphIndex_step (r g b r' g' b' : Z) (n : Z) :
  valid_channel r -> valid_channel g -> valid_channel b ->
  valid_channel r' -> valid_channel g' -> valid_channel b' ->
  PrimFloat.leb (scaled (luminosity (of_Z r) (of_Z g) (of_Z b)))
                (scaled (luminosity (of_Z r') (of_Z g') (of_Z b'))) = true ->
  glyphIndex r g b = Some n ->
  exists n', glyphIndex r' g' b' = Some n' /\ n <= n' < 70.
Proof.
  intros Hr Hg Hb Hr' Hg' Hb' Hle Hn.
  destruct (scaled_range r g b Hr Hg Hb) as [H0 _].
  destruct (scaled_range r' g' b' Hr' Hg' Hb') as [H0' H70'].
  destruct (floor_index_below_70 _ H0' H70') as (n' & Hn' & Hidx).
  exists n'. rewrite glyphIndex_scaled. split; [exact Hidx|].
  split; [|lia]. rewrite glyphIndex_scaled in Hn.
  apply (floor_index_mono _ _ n n' H0 Hle H70' Hn Hidx).
Qed.

(** X21: the glyph follows the brightness.  For colours with channels in
    0..255, when no channel of the second colour is below that of the
    first, the position in [asciiChars] of the glyph of the second colour
    is not before the position of the glyph of the first: raising a
    channel of an opaque pixel never moves its glyph towards the start of
    the gradient. *)
Theorem glyph_follows_brightness (r g b r' g' b' : Z) :
  valid_channel r -> valid_channel g -> valid_channel b ->
  valid_channel r' -> valid_channel g' -> valid_channel b' ->
  r <= r' -> g <= g' -> b <= b' ->
  exists n n',
    glyphIndex r g b = Some n /\ glyphIndex r' g' b' = Some n' /\
    0 <= n /\ n <= n' /\ n' < 70.
Proof.
  intros Hr Hg Hb Hr' Hg' Hb' Hrr Hgg Hbb.
  destruct (scaled_range r g b Hr Hg Hb) as [H0 H70].
  destruct (floor_index_below_70 _ H0 H70) as (n & Hn & Hidx).
  rewrite <- glyphIndex_scaled in Hidx.
  destruct (glyphIndex_step r g b r' g b n Hr Hg Hb Hr' Hg Hb
              (scaled_mono_red r r' g b Hr Hr' Hg Hb Hrr) Hidx)
    as (n1 & Hidx1 & Hn1).
  destruct (glyphIndex_step r' g b r' g' b n1 Hr' Hg Hb Hr' Hg' Hb
              (scaled_mono_green r' g g' b Hr' Hg Hg' Hb Hgg) Hidx1)
    as (n2 & Hidx2 & Hn2).
  destruct (glyphIndex_step r' g' b r' g' b' n2 Hr' Hg' Hb Hr' Hg' Hb'
              (scaled_mono_blue r' g' b b' Hr' Hg' Hb Hb' Hbb) Hidx2)
    as (n3 & Hidx3 & Hn3).
  exists n, n3. repeat split; try assumption; lia.
Qed.

Lemma glyph_follows_brightness_witness :
  exists n n',
    glyphIndex 10 20 30 = Some n /\ glyphIndex 200 20 31 = Some n' /\
    0 <= n /\ n <= n' /\ n' < 70.
Proof.
  apply (glyph_follows_brightness 10 20 30 200 20 31);
    unfold valid_channel; lia.
Defined.

End Glyphs.
(* ===================================================================== *)
(** * The gray level of a colour (ReadmeBanner.tsx) *)
(* ===================================================================== *)

Module Gray.
Import Num Raster Filters Glyphs.

(** The byte that the grayscale filter stores for a colour. *)
Definition grayLevel (r g b : Z) : Z :=
  toUint8Clamp (luminosity (of_Z r) (of_Z g) (of_Z b)).

Lemma ltb_leb_trans (x y z : float) :
  PrimFloat.ltb x y = true -> PrimFloat.leb y z = true ->
  PrimFloat.ltb x z = true.
Proof.
  rewrite !FloatAxioms.ltb_spec, FloatAxioms.leb_spec.
  unfold SFleb, SFltb.
  sf_destruct (Prim2SF x); sf_destruct (Prim2SF y); sf_destruct (Prim2SF z);
    sf_order.
Qed.

(** A number strictly between 0 and 255: its integer part, as a number
    and as an integer. *)
Lemma floor_value_255 (x : float) :
  PrimFloat.is_nan x = false ->
  PrimFloat.leb x 0 = false ->
  PrimFloat.leb 255 x = false ->
  exists m e,
    Prim2SF x = S754_finite false m e /\ e <= -45 /\
    Math_floor x = of_Z (Z.pos m / 2 ^ (- e)) /\
    0 <= Z.pos m / 2 ^ (- e) < 255.
Proof.
  unfold PrimFloat.is_nan.
  rewrite FloatAxioms.eqb_spec, !FloatAxioms.leb_spec.
  change (Prim2SF 0) with (S754_zero false).
  change (Prim2SF 255) with (S754_finite false 8972014882652160 (-45)).
  unfold Math_floor.
  destruct (Prim2SF x) as [s|s| |s m e] eqn:E; intros Hnan H0 H255.
  - discriminate H0.
  - destruct s; [discriminate H0|discriminate H255].
  - discriminate Hnan.
  - destruct s; [discriminate H0|].
    apply SFleb_255_finite in H255.
    pose proof (valid_mantissa_bound x _ _ _ E) as Hm.
    assert (e <= -45 /\ Z.pos m / 2 ^ (- e) < 255) as [He Hq].
    { destruct H255 as [He|[He Hlt]].
      - split; [lia|]. apply Z.div_lt_upper_bound; [lia|].
        assert (2 ^ 46 <= 2 ^ (- e)) by (apply Z.pow_le_mono_r; lia). lia.
      - assert (2 ^ (- e) = 35184372088832) as -> by (rewrite He; reflexivity).
        split; [lia|]. apply Z.div_lt_upper_bound; lia. }
    exists m, e. split; [reflexivity|]. split; [exact He|].
    destruct (Z.leb_spec 0 e); [lia|].
    cbn [signed]. rewrite Z.shiftl_div_pow2 by lia.
    split; [reflexivity|]. split; [apply Z.div_pos; lia|exact Hq].
Qed.

(** The byte stored never decreases when the number stored increases. *)
Lemma toUint8Clamp_mono (x y : float) :
  PrimFloat.leb x y = true -> toUint8Clamp x <= toUint8Clamp y.
Proof.
  intros Hle.
  pose proof (toUint8Clamp_range x) as [Hx0 Hx255].
  pose proof (toUint8Clamp_range y) as [Hy0 Hy255].
  assert (PrimFloat.is_nan x = false /\ PrimFloat.is_nan y = false)
    as [Hnx Hny].
  { unfold PrimFloat.is_nan. rewrite !FloatAxioms.eqb_spec.
    rewrite FloatAxioms.leb_spec in Hle. unfold SFleb in Hle. unfold SFeqb.
    sf_destruct (Prim2SF x); sf_destruct (Prim2SF y); try discriminate Hle;
      cbn; try (split; reflexivity);
      cmp_cases; subst; try (split; reflexivity); try lia;
      try (exfalso; eapply Pos.lt_irrefl; eassumption). }
  destruct (PrimFloat.leb x 0) eqn:Hx.
  { unfold toUint8Clamp at 1. rewrite Hnx, Hx. exact Hy0. }
  destruct (PrimFloat.leb 255 y) eqn:Hy.
  { assert (PrimFloat.leb y 0 = false) as Hy'.
    { destruct (PrimFloat.leb y 0) eqn:E; [|reflexivity].
      rewrite (leb_trans x y 0 Hle E) in Hx. discriminate Hx. }
    unfold toUint8Clamp at 2. rewrite Hny, Hy', Hy. exact Hx255. }
  assert (PrimFloat.leb y 0 = false) as Hy0'.
  { destruct (PrimFloat.leb y 0) eqn:E; [|reflexivity].
    rewrite (leb_trans x y 0 Hle E) in Hx. discriminate Hx. }
  assert (PrimFloat.leb 255 x = false) as Hx255'.
  { destruct (PrimFloat.leb 255 x) eqn:E; [|reflexivity].
    rewrite (leb_trans 255 x y E Hle) in Hy. discriminate Hy. }
  destruct (floor_value_255 x Hnx Hx Hx255')
    as (m1 & e1 & E1 & He1 & Hf1 & Hq1).
  destruct (floor_value_255 y Hny Hy0' Hy)
    as (m2 & e2 & E2 & He2 & Hf2 & Hq2).
  assert (Z.pos m1 / 2 ^ (- e1) <= Z.pos m2 / 2 ^ (- e2)) as Hq.
  { apply (quotient_mono x y m1 m2 e1 e2 E1 E2); [|lia|lia].
    rewrite FloatAxioms.leb_spec, E1, E2 in Hle. exact Hle. }
  unfold toUint8Clamp. rewrite Hnx, Hny, Hx, Hy, Hy0', Hx255'. cbv zeta.
  rewrite Hf1, Hf2.
  rewrite !array_index_of_Z_byte by lia.
  set (q1 := Z.pos m1 / 2 ^ (- e1)) in *.
  set (q2 := Z.pos m2 / 2 ^ (- e2)) in *.
  destruct (Z.eq_dec q1 q2) as [Heq|Hne].
  - rewrite <- Heq. set (half := (of_Z q1 + 0.5)%float).
    destruct (PrimFloat.ltb y half) eqn:Hyh.
    + rewrite (leb_ltb_trans x y half Hle Hyh). lia.
    + destruct (PrimFloat.ltb x half) eqn:Hxh;
        [destruct (PrimFloat.ltb half y); [lia|destruct (Z.even q1); lia]|].
      destruct (PrimFloat.ltb half x) eqn:Hhx.
      * rewrite (ltb_leb_trans half x y Hhx Hle). lia.
      * destruct (PrimFloat.ltb half y); [destruct (Z.even q1); lia|lia].
  - assert (q1 + 1 <= q2) as Hstep by lia.
    destruct (PrimFloat.ltb x (of_Z q1 + 0.5)), (PrimFloat.ltb (of_Z q1 + 0.5) x),
      (PrimFloat.ltb y (of_Z q2 + 0.5)), (PrimFloat.ltb (of_Z q2 + 0.5) y),
      (Z.even q1), (Z.even q2); lia.
Qed.

(** X22: the gray level is a mean of the three channels.  For a colour
    with channels in 0..255 the byte that the grayscale filter stores lies
    between the smallest and the largest of the three channels (so black
    stays black, white stays white and a gray stays as it is), and it
    does not decrease when a channel increases. *)
Theorem gray_between_channels (r g b : Z) :
  valid_channel r -> valid_channel g -> valid_channel b ->
  Z.min r (Z.min g b) <= grayLevel r g b <= Z.max r (Z.max g b) /\
  (forall r' g' b',
     valid_channel r' -> valid_channel g' -> valid_channel b' ->
     r <= r' -> g <= g' -> b <= b' ->
     grayLevel r g b <= grayLevel r' g' b').
Proof.
  intros Hr Hg Hb.
  assert (forall r g b r' g' b',
            valid_channel r -> valid_channel g -> valid_channel b ->
            valid_channel r' -> valid_channel g' -> valid_channel b' ->
            r <= r' -> g <= g' -> b <= b' ->
            grayLevel r g b <= grayLevel r' g' b') as Hmono.
  { clear. intros r g b r' g' b' Hr Hg Hb Hr' Hg' Hb' Hrr Hgg Hbb.
    unfold grayLevel. apply toUint8Clamp_mono.
    apply leb_trans with (luminosity (of_Z r') (of_Z g) (of_Z b));
      [apply luminosity_mono_red; assumption|].
    apply leb_trans with (luminosity (of_Z r') (of_Z g') (of_Z b));
      [apply luminosity_mono_green; assumption|].
    apply luminosity_mono_blue; assumption. }
  split; [|intros r' g' b' Hr' Hg' Hb'; apply Hmono; assumption].
  assert (valid_channel (Z.min r (Z.min g b))) as Hlo
    by (unfold valid_channel in *; lia).
  assert (valid_channel (Z.max r (Z.max g b))) as Hhi
    by (unfold valid_channel in *; lia).
  split.
  - pose proof (Hmono (Z.min r (Z.min g b)) (Z.min r (Z.min g b))
                  (Z.min r (Z.min g b)) r g b Hlo Hlo Hlo Hr Hg Hb) as H.
    unfold grayLevel at 1 in H. rewrite (luminosity_gray _ Hlo) in H.
    apply H; lia.
  - pose proof (Hmono r g b (Z.max r (Z.max g b)) (Z.max r (Z.max g b))
                  (Z.max r (Z.max g b)) Hr Hg Hb Hhi Hhi Hhi) as H.
    unfold grayLevel at 2 in H. rewrite (luminosity_gray _ Hhi) in H.
    apply H; lia.
Qed.

Lemma gray_between_channels_witness :
  Z.min 200 (Z.min 100 50) <= grayLevel 200 100 50 <= Z.max 200 (Z.max 100 50).
Proof.
  apply (gray_between_channels 200 100 50); unfold valid_channel; lia.
Defined.

End Gray.
